(** * FLGuard data layer: attack wrappers, partitioner and root-set selector

    A shallow embedding of [federated_learning/data/dataset.py].

    Python integers are [Z]; numpy's 64-bit integers are [Z] with the
    wrap-around written out.  A finite double is the rational it stands
    for: the product that sizes the root set and the shares of the
    Dirichlet policy are rounded as IEEE 754 rounds them, and the
    proportions numpy draws may be NaN or inf.  The entries of image
    tensors and of the Min-Sum table, and the product
    [root_size * BIAS_PROBABILITY], are kept as exact rationals.  A raised
    exception is a value of [exn].
    The three process-wide random generators the module draws from
    (Python's [random], [numpy.random] and torch's default generator) are
    explicit state: each is an entropy tape read cell by cell. *)

From Stdlib Require Import ZArith QArith Qround Qabs Lia Lqa Permutation String.
From stdpp Require Import base tactics option list numbers gmap.

Local Open Scope Z_scope.

(** ** Exceptions and the error monad *)

Inductive exn : Type :=
  | ZeroDivisionError
  | IndexError
  | KeyError
  | ValueError
  | RuntimeError.

Inductive result (A : Type) : Type :=
  | Ok (a : A)
  | Raise (e : exn).

Arguments Ok {A} a.
Arguments Raise {A} e.

#[global] Instance result_ret : MRet result := @Ok.
#[global] Instance result_bind : MBind result := fun A B f m =>
  match m with
  | Ok a => f a
  | Raise e => Raise e
  end.

#[global] Instance result_fmap : FMap result := fun A B f m =>
  match m with
  | Ok a => Ok (f a)
  | Raise e => Raise e
  end.

Definition is_Ok {A} (r : result A) : Prop :=
  match r with Ok _ => True | Raise _ => False end.

Definition raises {A} (r : result A) : Prop :=
  match r with Ok _ => False | Raise _ => True end.

(** ** Python integers and lists *)

Module Py.

(** [a // b] and [a % b]: floor division, remainder with the sign of
    the divisor, [ZeroDivisionError] on a zero divisor. *)
Definition floordiv (a b : Z) : result Z :=
  if b =? 0 then Raise ZeroDivisionError else Ok (a / b).

Definition mod_ (a b : Z) : result Z :=
  if b =? 0 then Raise ZeroDivisionError else Ok (a mod b).

Definition len {A} (l : list A) : Z := Z.of_nat (length l).

(** [range(n)], empty for [n <= 0]. *)
Definition range (n : Z) : list Z := Z.of_nat <$> seq 0 (Z.to_nat n).

(** [range(a, b)]. *)
Definition range2 (a b : Z) : list Z :=
  (fun k => a + Z.of_nat k) <$> seq 0 (Z.to_nat (b - a)).

(** Position of subscript [i] in a sequence of length [n]: negative
    subscripts count from the end, anything else outside is an
    [IndexError]. *)
Definition position (n i : Z) : result nat :=
  let j := if i <? 0 then i + n else i in
  if (j <? 0) || (n <=? j) then Raise IndexError else Ok (Z.to_nat j).

(** [l[i]] *)
Definition getitem {A} (l : list A) (i : Z) : result A :=
  p ← position (len l) i;
  match l !! p with
  | Some x => Ok x
  | None => Raise IndexError
  end.

(** [l[i] = x] *)
Definition setitem {A} (l : list A) (i : Z) (x : A) : result (list A) :=
  p ← position (len l) i; Ok (<[p := x]> l).

(** Bound of a slice: negative bounds count from the end, and every
    bound is clipped into [0, n]. *)
Definition clip (n i : Z) : Z :=
  if i <? 0 then Z.max 0 (i + n) else Z.min i n.

(** [l[start:stop]] *)
Definition slice {A} (l : list A) (start stop : Z) : list A :=
  let s := clip (len l) start in
  let e := clip (len l) stop in
  take (Z.to_nat (e - s)) (drop (Z.to_nat s) l).

(** [l[start:]] *)
Definition slice_from {A} (l : list A) (start : Z) : list A :=
  drop (Z.to_nat (clip (len l) start)) l.

(** [a[start:stop] = v] on a numpy array: the slice is filled with the
    scalar [v], the length never changes. *)
Definition fill_slice {A} (l : list A) (start stop : Z) (v : A) : list A :=
  let s := clip (len l) start in
  let e := clip (len l) stop in
  take (Z.to_nat s) l ++ replicate (Z.to_nat (e - s)) v
    ++ drop (Z.to_nat (Z.max s e)) l.

(** [ll[i].append(x)] *)
Definition append_at {A} (ll : list (list A)) (i : Z) (x : A)
  : result (list (list A)) :=
  p ← position (len ll) i; Ok (alter (fun l => l ++ [x]) p ll).

(** [ll[i].extend(xs)] *)
Definition extend_at {A} (ll : list (list A)) (i : Z) (xs : list A)
  : result (list (list A)) :=
  p ← position (len ll) i; Ok (alter (fun l => l ++ xs) p ll).

(** [enumerate(l)] *)
Definition enumerate {A} (l : list A) : list (Z * A) :=
  imap (fun k x => (Z.of_nat k, x)) l.

(** [int(q)]: truncation toward zero. *)
Definition int (q : Q) : Z := Z.quot (Qnum q) (Zpos (Qden q)).

(** A [for] loop whose body may raise. *)
Fixpoint for_ {A S} (xs : list A) (body : A -> S -> result S) (s : S)
  : result S :=
  match xs with
  | [] => Ok s
  | x :: xs' => s' ← body x s; for_ xs' body s'
  end.

End Py.

(** ** Random generators

    A generator is an entropy tape and a cursor on it.  Every draw reads
    the cell under the cursor and advances; what a library function
    returns is computed from the cells it reads, so that every value the
    real generator can return is returned for some tape. *)

Record rng : Type := { tape : nat -> N; cursor : nat }.

Definition next_raw (g : rng) : N * rng :=
  (tape g (cursor g), {| tape := tape g; cursor := S (cursor g) |}).

(** Python's [random] module. *)
Module random.

(** [random.random()]: a multiple of [2^-53] in [[0, 1)]. *)
Definition random (g : rng) : Q * rng :=
  let '(r, g') := next_raw g in
  (Z.of_N (r mod 2 ^ 53) # 2 ^ 53, g').

(** [_randbelow(n)] for [n > 0]: an integer in [[0, n)]. *)
Definition randbelow (n : Z) (g : rng) : Z * rng :=
  let '(r, g') := next_raw g in (Z.of_N r mod n, g').

(** [random.choice(seq)]: [IndexError] on an empty sequence. *)
Definition choice {A} (seq : list A) (g : rng) : result (A * rng) :=
  match seq with
  | [] => Raise IndexError
  | _ =>
      let '(k, g') := randbelow (Py.len seq) g in
      x ← Py.getitem seq k; Ok (x, g')
  end.

(** [x[i], x[j] = x[j], x[i]] *)
Definition swap {A} (x : list A) (i j : nat) : list A :=
  match x !! i, x !! j with
  | Some a, Some b => <[i := b]> (<[j := a]> x)
  | _, _ => x
  end.

(** [for i in reversed(range(1, i + 1)): j = randbelow(i + 1); swap] *)
Fixpoint shuffle_down {A} (i : nat) (x : list A) (g : rng) : list A * rng :=
  match i with
  | O => (x, g)
  | S i' =>
      let '(j, g') := randbelow (Z.of_nat i + 1) g in
      shuffle_down i' (swap x i (Z.to_nat j)) g'
  end.

(** [random.shuffle(x)] *)
Definition shuffle {A} (x : list A) (g : rng) : list A * rng :=
  shuffle_down (length x - 1) x g.

(** The selection loop of [random.sample]: [result[i] = pool[j]], then
    [pool[j] = pool[n - i - 1]], with [live = n - i] entries of the pool
    still to choose from. *)
Fixpoint sample_loop {A} (k live : nat) (pool : list A) (g : rng)
  : list A * rng :=
  match k with
  | O => ([], g)
  | S k' =>
      let '(j, g') := randbelow (Z.of_nat live) g in
      match pool !! Z.to_nat j, pool !! (live - 1)%nat with
      | Some x, Some y =>
          let '(rest, g'') :=
            sample_loop k' (live - 1) (<[Z.to_nat j := y]> pool) g' in
          (x :: rest, g'')
      | _, _ => ([], g')
      end
  end.

(** [random.sample(population, k)]: [ValueError] unless
    [0 <= k <= len(population)], then [k] entries chosen without
    replacement (the pool variant of the selection; the variant for large
    populations, which redraws a position until it is fresh, selects the
    same lists). *)
Definition sample {A} (population : list A) (k : Z) (g : rng)
  : result (list A * rng) :=
  if (k <? 0) || (Py.len population <? k) then Raise ValueError
  else Ok (sample_loop (Z.to_nat k) (length population) population g).

End random.

(** ** Double-precision numbers

    Python's [float] and numpy's [float64] are IEEE 754 doubles.  The
    value of a finite double is a rational, and an arithmetic operation
    returns the double nearest to the exact result, halves going to the
    even mantissa.  The operations on rationals below are the finite
    part: a result beyond the largest double (about 1.8e308), which IEEE
    arithmetic turns into inf, is left as it is. *)

Module float64.

(** A double as an array holds it: finite, infinite or NaN.  Only
    values that are not negative occur. *)
Inductive t : Type :=
  | Fin (q : Q)
  | Inf
  | NaN.

(** [x < y] in the order a sort puts doubles in: NaN after everything
    else. *)
Definition ltb (x y : t) : bool :=
  match x, y with
  | Fin a, Fin b => if Qlt_le_dec a b then true else false
  | Fin _, _ => true
  | Inf, NaN => true
  | _, _ => false
  end.

(** [2 ** e] for an integer exponent of either sign. *)
Definition pow2 (e : Z) : Q :=
  if 0 <=? e then inject_Z (2 ^ e) else / inject_Z (2 ^ (- e)).

(** The integer nearest to [q], a half going to the even neighbour. *)
Definition nearest_even (q : Q) : Z :=
  let f := Qfloor q in
  let d := (q - inject_Z f)%Q in
  if Qlt_le_dec d (1 # 2) then f
  else if Qlt_le_dec (1 # 2) d then f + 1
  else if Z.even f then f else f + 1.

(** [floor(log2(q))] for a positive [q]. *)
Definition ilog2 (q : Q) : Z :=
  let t := Z.log2 (Qnum q) - Z.log2 (Zpos (Qden q)) in
  if Qle_bool (pow2 t) q then t else t - 1.

(** The double nearest to [q]: a 53-bit mantissa times a power of two,
    the exponent no smaller than that of the subnormal numbers. *)
Definition round (q : Q) : Q :=
  if Qeq_bool q 0 then 0%Q
  else
    let e := Z.max (ilog2 (Qabs q) - 52) (-1074) in
    (inject_Z (nearest_even (q / pow2 e)) * pow2 e)%Q.

(** [float(n)] *)
Definition of_int (n : Z) : Q := round (inject_Z n).

(** [a * b] on two doubles. *)
Definition mul (a b : Q) : Q := round (a * b).

End float64.

(** The parts of numpy the module calls. *)
Module np.

Fixpoint draws (n : nat) (high : Z) (g : rng) : list Z * rng :=
  match n with
  | O => ([], g)
  | S n' =>
      let '(r, g') := next_raw g in
      let '(rest, g'') := draws n' high g' in
      ((Z.of_N r mod high) :: rest, g'')
  end.

(** [np.random.randint(low, high, size=n)] with the default 64-bit
    integer type: an empty request returns the empty array whatever the
    bounds; otherwise the bounds are checked and [n] values of
    [[low, high)] are drawn. *)
Definition random_randint (low high size : Z) (g : rng)
  : result (list Z * rng) :=
  if size <? 0 then Raise ValueError
  else if size =? 0 then Ok ([], g)
  else if (low <? - 2 ^ 63) || (2 ^ 63 - 1 <? high - 1) || (high - 1 <? low)
  then Raise ValueError
  else
    let '(ds, g') := draws (Z.to_nat size) (high - low) g in
    Ok ((fun d => low + d) <$> ds, g').

(** [a % b] on numpy integers: a zero divisor gives zero and a warning,
    not an exception. *)
Definition mod_ (a b : Z) : Z := if b =? 0 then 0 else a mod b.

(** [np.repeat(a, n)] for a scalar [a]. *)
Definition repeat (a : Q) (n : Z) : result (list Q) :=
  if n <? 0 then Raise ValueError else Ok (replicate (Z.to_nat n) a).

(** 64-bit integers wrap around: the value an [int64] holds when the
    exact result of an operation is [z]. *)
Definition int64 (z : Z) : Z := (z + 2 ^ 63) mod 2 ^ 64 - 2 ^ 63.

#[global] Arguments int64 : simpl never.

(** One entry of an array of doubles that numpy drew: two cells [a] and
    [b] of the tape stand for the quotient [a / b], which is NaN for
    [0 / 0] and inf for a division of something else by zero. *)
Definition entry (g : rng) : float64.t * rng :=
  let '(a, g') := next_raw g in
  let '(b, g'') := next_raw g' in
  (match b with
   | N0 => if (a =? 0)%N then float64.NaN else float64.Inf
   | Npos p => float64.Fin (Z.of_N a # p)
   end, g'').

(** One Dirichlet sample of dimension [k].  The sampler divides [k]
    gamma variates by their sum in double precision, so an entry is a
    non-negative double, and it is NaN or inf when the sum underflows: a
    small concentration makes every variate [0.0] and every entry
    [0.0 / 0.0].  Which entries are drawn is the tape's choice; that a
    finite row adds up to one within rounding is not represented. *)
Fixpoint dirichlet_row (k : nat) (g : rng) : list float64.t * rng :=
  match k with
  | O => ([], g)
  | S k' =>
      let '(x, g') := entry g in
      let '(rest, g'') := dirichlet_row k' g' in
      (x :: rest, g'')
  end.

Fixpoint dirichlet_rows (size k : nat) (g : rng)
  : list (list float64.t) * rng :=
  match size with
  | O => ([], g)
  | S size' =>
      let '(row, g') := dirichlet_row k g in
      let '(rest, g'') := dirichlet_rows size' k g' in
      (row :: rest, g'')
  end.

(** [np.random.dirichlet(alpha, size)]: [size] samples, one per row;
    a concentration that is not positive is refused. *)
Definition random_dirichlet (alpha : list Q) (size : Z) (g : rng)
  : result (list (list float64.t) * rng) :=
  if size <? 0 then Raise ValueError
  else if existsb (fun a => if Qlt_le_dec 0 a then false else true) alpha
  then Raise ValueError
  else Ok (dirichlet_rows (Z.to_nat size) (length alpha) g).

Definition insert_sorted (x : float64.t * Z)
  : list (float64.t * Z) -> list (float64.t * Z) :=
  fix go (l : list (float64.t * Z)) : list (float64.t * Z) :=
    match l with
    | [] => [x]
    | y :: l' => if float64.ltb y.1 x.1 then y :: go l' else x :: l
    end.

(** [np.argsort(a)]: the subscripts of [a] in ascending order of value,
    NaN last (equal values keep their order here; numpy leaves it
    open). *)
Definition argsort (a : list float64.t) : list Z :=
  snd <$> foldr insert_sorted [] (zip a (Py.range (Py.len a))).

(** The sum of an integer array, as a number. *)
Definition sum (a : list Z) : Z := foldr Z.add 0 a.

(** [x * k] for a double [x] and a Python integer [k] that is not
    negative. *)
Definition times (x : float64.t) (k : Z) : float64.t :=
  match x with
  | float64.Fin q => float64.Fin (float64.mul q (float64.of_int k))
  | float64.Inf => if k =? 0 then float64.NaN else float64.Inf
  | float64.NaN => float64.NaN
  end.

(** [np.floor(x)] *)
Definition floor (x : float64.t) : float64.t :=
  match x with
  | float64.Fin q => float64.Fin (inject_Z (Qfloor q))
  | _ => x
  end.

(** [x.astype(int)]: the double truncated to an [int64]; NaN, inf and
    what does not fit become [-2^63], as on x86-64. *)
Definition astype_int (x : float64.t) : Z :=
  match x with
  | float64.Fin q =>
      let z := Py.int q in
      if (- 2 ^ 63 <=? z) && (z <? 2 ^ 63) then z else - 2 ^ 63
  | _ => - 2 ^ 63
  end.

(** [np.floor(a * k).astype(int)] *)
Definition floor_scaled (a : list float64.t) (k : Z) : list Z :=
  (fun p => astype_int (floor (times p k))) <$> a.

(** [np.zeros(n, dtype=int)] *)
Definition zeros (n : Z) : result (list Z) :=
  if n <? 0 then Raise ValueError else Ok (replicate (Z.to_nat n) 0).

End np.

(** The parts of torch the module calls.  A tensor of rank three is a
    list of channels, each a list of rows. *)
Module torch.

Definition tensor : Type := list (list (list Q)).

(** Elementwise combination of two lists under broadcasting: equal
    lengths are zipped, a length of one is stretched, anything else is
    a shape error. *)
Definition broadcast {A B} (f : A -> A -> result B) (xs ys : list A)
  : result (list B) :=
  if (length xs =? length ys)%nat
  then mapM (fun p => f p.1 p.2) (zip xs ys)
  else match xs, ys with
       | [x], _ => mapM (f x) ys
       | _, [y] => mapM (fun x => f x y) xs
       | _, _ => Raise RuntimeError
       end.

(** [a + b] on tensors of rank three. *)
Definition add (a b : tensor) : result tensor :=
  broadcast (broadcast (broadcast (fun x y => Ok (x + y)%Q))) a b.

Definition clamp1 (lo hi x : Q) : Q :=
  if Qlt_le_dec x lo then lo else if Qlt_le_dec hi x then hi else x.

(** [torch.clamp(a, lo, hi)] *)
Definition clamp (a : tensor) (lo hi : Q) : tensor :=
  map (map (map (clamp1 lo hi))) a.

Definition sum (ws : list Q) : Q := foldr Qplus 0%Q ws.

Fixpoint pick (ws : list Q) (u : Q) (j : Z) : Z :=
  match ws with
  | [] => j - 1
  | w :: ws' => if Qlt_le_dec u w then j else pick ws' (u - w)%Q (j + 1)
  end.

(** [torch.multinomial(ws, 1).item()]: one category drawn with
    probability proportional to its weight; weights that are negative
    or sum to nothing are rejected. *)
Definition multinomial1 (ws : list Q) (g : rng) : result (Z * rng) :=
  if existsb (fun w => if Qlt_le_dec w 0 then true else false) ws
  then Raise RuntimeError
  else if Qlt_le_dec 0 (sum ws)
  then let '(r, g') := next_raw g in
       Ok (pick ws ((Z.of_N (r mod 2 ^ 53) # 2 ^ 53) * sum ws)%Q 0, g')
  else Raise RuntimeError.

End torch.

(** ** Sample sources *)

(** A sample is a tensor and its label; a source is the list of its
    samples, read by subscript. *)
Definition sample : Type := torch.tensor * Z.
Definition dataset : Type := list sample.

(** ** Attack wrappers *)

Module Attack.

(** One constructor per wrapper class, holding the attributes its
    [__init__] stores. *)
Inductive wrapper : Type :=
  | LabelFlippingDataset (ds : dataset) (num_classes : Z)
  | BackdoorDataset (ds : dataset) (num_classes target_label : Z)
      (trigger : torch.tensor)
  | AdaptiveAttackDataset (ds : dataset)
  | MinMaxAttackDataset (ds : dataset) (num_classes : Z)
      (confusion_map : list Z)
  | MinSumAttackDataset (ds : dataset) (num_classes : Z)
      (prob_map : list (list Q))
  | AlternatingAttackDataset (ds : dataset) (num_classes : Z)
      (alternating_offset : list Z)
  | TargetedAttackDataset (ds : dataset) (num_classes : Z)
      (target_class target_output : Z)
  | GradientInversionAttackDataset (ds : dataset) (num_classes : Z)
      (quarter_map : list Z).

(** [BackdoorDataset.create_trigger]: a 1x28x28 tensor of zeros with
    ones on rows and columns 24 to 27. *)
Definition create_trigger : torch.tensor :=
  [ (fun r => (fun c => if (24 <=? r) && (24 <=? c) then 1%Q else 0%Q)
                <$> Py.range 28) <$> Py.range 28 ].

(** [MinMaxAttackDataset.__init__]: the confusion map. *)
Definition confusion_map_of (num_classes : Z) : list Z :=
  (fun i => (i + 1) mod num_classes) <$> Py.range num_classes.

(** [MinSumAttackDataset.__init__]: the circular distance between two
    classes. *)
Definition distance (num_classes i j : Z) : Z :=
  Z.min ((j - i) mod num_classes) ((i - j) mod num_classes).

(** The weight written into [prob_map[i, j]] before the row is
    normalised. *)
Definition weight (num_classes i j : Z) : Q :=
  if i =? j then 1 # 10
  else
    let distance := distance num_classes i j in
    if 0 <? distance then (1 / inject_Z distance)%Q else 1 # 10.

(** Row [i] of [prob_map]: the weights divided by their sum.  The
    quotients are exact; the table of the program holds them rounded to
    single precision. *)
Definition prob_row (num_classes i : Z) : list Q :=
  let row := weight num_classes i <$> Py.range num_classes in
  (fun w => (w / torch.sum row)%Q) <$> row.

(** [torch.zeros(n, n)] refuses a negative dimension; every entry of the
    table is then overwritten. *)
Definition prob_map_of (num_classes : Z) : result (list (list Q)) :=
  if num_classes <? 0 then Raise RuntimeError
  else Ok (prob_row num_classes <$> Py.range num_classes).

(** [GradientInversionAttackDataset.__init__]: the quarter of every
    index. *)
Definition quarter_map_of (dataset_size : Z) : result (list Z) :=
  let quarter_size := dataset_size / 4 in
  zs ← np.zeros dataset_size;
  Ok (foldl (fun qm i =>
               let start := i * quarter_size in
               let end_ := if i <? 3 then (i + 1) * quarter_size
                           else dataset_size in
               Py.fill_slice qm start end_ i)
            zs (Py.range 4)).

(** [self.strategies[quarter](x)] *)
Definition strategies (num_classes : Z) : list (Z -> result Z) :=
  [ fun x => Py.mod_ (x + 1) num_classes;
    fun x => Py.mod_ (x + num_classes / 2) num_classes;
    fun x => Ok x;
    fun x => Ok (num_classes - x - 1) ].

(** What a constructor is called with. *)
Inductive attack : Type :=
  | LabelFlipping (num_classes : Z)
  | Backdoor (num_classes target_label : Z)
  | Adaptive
  | MinMax (num_classes : Z)
  | MinSum (num_classes : Z)
  | Alternating (num_classes : Z)
  | Targeted (num_classes target_class target_output : Z)
  | GradientInversion (num_classes : Z).

(** [__init__]: the numpy generator is read by the Alternating wrapper
    only. *)
Definition init (a : attack) (ds : dataset) (g : rng)
  : result (wrapper * rng) :=
  match a with
  | LabelFlipping nc => Ok (LabelFlippingDataset ds nc, g)
  | Backdoor nc tl => Ok (BackdoorDataset ds nc tl create_trigger, g)
  | Adaptive => Ok (AdaptiveAttackDataset ds, g)
  | MinMax nc => Ok (MinMaxAttackDataset ds nc (confusion_map_of nc), g)
  | MinSum nc =>
      pm ← prob_map_of nc; Ok (MinSumAttackDataset ds nc pm, g)
  | Alternating nc =>
      '(off, g') ← np.random_randint 0 nc (Py.len ds) g;
      Ok (AlternatingAttackDataset ds nc off, g')
  | Targeted nc tc to => Ok (TargetedAttackDataset ds nc tc to, g)
  | GradientInversion nc =>
      qm ← quarter_map_of (Py.len ds);
      Ok (GradientInversionAttackDataset ds nc qm, g)
  end.

(** The wrapped source. *)
Definition source (w : wrapper) : dataset :=
  match w with
  | LabelFlippingDataset ds _ | BackdoorDataset ds _ _ _
  | AdaptiveAttackDataset ds | MinMaxAttackDataset ds _ _
  | MinSumAttackDataset ds _ _ | AlternatingAttackDataset ds _ _
  | TargetedAttackDataset ds _ _ _
  | GradientInversionAttackDataset ds _ _ => ds
  end.

(** [__len__] *)
Definition len (w : wrapper) : Z := Py.len (source w).

(** [__getitem__]: torch's generator is read by the Min-Sum wrapper
    only. *)
Definition getitem (w : wrapper) (idx : Z) (g : rng)
  : result (sample * rng) :=
  match w with
  | LabelFlippingDataset ds nc =>
      '(data, target) ← Py.getitem ds idx;
      Ok ((data, nc - target - 1), g)
  | BackdoorDataset ds nc target_label trigger =>
      '(data, _) ← Py.getitem ds idx;
      data ← torch.add data trigger;
      Ok ((torch.clamp data 0 1, target_label), g)
  | AdaptiveAttackDataset ds =>
      '(data, target) ← Py.getitem ds idx;
      Ok ((data, target), g)
  | MinMaxAttackDataset ds nc confusion_map =>
      '(data, target) ← Py.getitem ds idx;
      confused_target ← Py.getitem confusion_map target;
      Ok ((data, confused_target), g)
  | MinSumAttackDataset ds nc prob_map =>
      '(data, target) ← Py.getitem ds idx;
      row ← Py.getitem prob_map target;
      '(new_target, g') ← torch.multinomial1 row g;
      Ok ((data, new_target), g')
  | AlternatingAttackDataset ds nc alternating_offset =>
      '(data, target) ← Py.getitem ds idx;
      if idx mod 2 =? 0
      then
        off ← Py.getitem alternating_offset idx;
        Ok ((data, np.mod_ (target + off) nc), g)
      else Ok ((data, target), g)
  | TargetedAttackDataset ds nc target_class target_output =>
      '(data, target) ← Py.getitem ds idx;
      if target =? target_class
      then Ok ((data, target_output), g)
      else Ok ((data, target), g)
  | GradientInversionAttackDataset ds nc quarter_map =>
      '(data, target) ← Py.getitem ds idx;
      quarter ← Py.getitem quarter_map idx;
      strategy ← Py.getitem (strategies nc) quarter;
      modified_target ← strategy target;
      Ok ((data, modified_target), g)
  end.

End Attack.

(** ** Configuration

    The constants of [federated_learning.config.config], which the module
    imports wholesale, taken as parameters. *)

Module Config.

Record t : Type := {
  NUM_CLIENTS : Z;
  Q : QArith_base.Q;
  DIRICHLET_ALPHA : QArith_base.Q;
  DATA_DISTRIBUTION : string;
  ROOT_DATASET_DYNAMIC_SIZE : bool;
  ROOT_DATASET_RATIO : QArith_base.Q;
  ROOT_DATASET_SIZE : Z;
  BIAS_PROBABILITY : QArith_base.Q;
  BIAS_CLASS : Z
}.

End Config.

(** ** Partitioner

    A participant's share, [torch.utils.data.Subset(dataset, indices)],
    is a view of the source: it is modelled by its [indices]. *)

Module Partition.

(** [class_indices = [[] for _ in range(num_classes)]] followed by
    [for idx, (_, label) in enumerate(dataset):
       class_indices[label].append(idx)] *)
Definition group_by_class (ds : dataset) (num_classes : Z)
  : result (list (list Z)) :=
  Py.for_ (Py.enumerate ds)
    (fun '(idx, (_, label)) class_indices =>
       Py.append_at class_indices label idx)
    (replicate (Z.to_nat num_classes) []).

(** [for c in range(num_classes): random.shuffle(class_indices[c])] *)
Fixpoint shuffle_each (class_indices : list (list Z)) (g : rng)
  : list (list Z) * rng :=
  match class_indices with
  | [] => ([], g)
  | ci :: rest =>
      let '(ci', g') := random.shuffle ci g in
      let '(rest', g'') := shuffle_each rest g' in
      (ci' :: rest', g'')
  end.

Section WithConfig.

Variable cfg : Config.t.

Let NUM_CLIENTS := Config.NUM_CLIENTS cfg.

(** The two block widths of the label-skew policy. *)
Definition block_widths (num_classes : Z) : result (Z * Z) :=
  if NUM_CLIENTS <=? num_classes
  then q ← Py.floordiv NUM_CLIENTS num_classes; Ok (1, Z.max 1 q)
  else q ← Py.floordiv num_classes NUM_CLIENTS; Ok (Z.max 1 q, 1).

(** The clients that prefer class [c]. *)
Definition preferred_clients (clients_per_class c : Z) : result (list Z) :=
  start_client ← Py.mod_ (c * clients_per_class) NUM_CLIENTS;
  let end_client := Z.min (start_client + clients_per_class) NUM_CLIENTS in
  match Py.range2 start_client end_client with
  | [] => m ← Py.mod_ c NUM_CLIENTS; Ok [m]
  | cs => Ok cs
  end.

(** The dict [class_to_clients]. *)
Definition class_to_clients_of (num_classes clients_per_class : Z)
  : result (gmap Z (list Z)) :=
  Py.for_ (Py.range num_classes)
    (fun c m => cs ← preferred_clients clients_per_class c; Ok (<[c := cs]> m))
    ∅.

(** [[i for i in range(NUM_CLIENTS) if i not in preferred_clients]] *)
Definition other_clients_of (preferred : list Z) : list Z :=
  filter (fun i => i ∉ preferred) (Py.range NUM_CLIENTS).

(** The body of the innermost loop of the label-skew policy: one
    sample is given to one client. *)
Definition assign (preferred other : list Z) (idx : Z)
  (st : list (list Z) * rng) : result (list (list Z) * rng) :=
  let '(client_datasets, g) := st in
  let '(u, g) := random.random g in
  '(client_id, g) ←
    (if Qlt_le_dec u (Config.Q cfg)
     then random.choice preferred g
     else match other with
          | _ :: _ => random.choice other g
          | [] => random.choice preferred g
          end);
  client_datasets ← Py.append_at client_datasets client_id idx;
  Ok (client_datasets, g).

(** The distribution statistics the function prints before returning
    read the source again and change nothing; they are left out. *)
Definition split_dataset_non_iid (ds : dataset) (num_classes : Z) (g : rng)
  : result (list (list Z) * rng) :=
  let client_datasets := replicate (Z.to_nat NUM_CLIENTS) [] in
  class_indices ← group_by_class ds num_classes;
  let '(class_indices, g) := shuffle_each class_indices g in
  '(classes_per_client, clients_per_class) ← block_widths num_classes;
  class_to_clients ← class_to_clients_of num_classes clients_per_class;
  Py.for_ (Py.range num_classes)
    (fun c st =>
       preferred ← match class_to_clients !! c with
                   | Some cs => Ok cs
                   | None => Raise KeyError
                   end;
       let other := other_clients_of preferred in
       indices ← Py.getitem class_indices c;
       Py.for_ indices (assign preferred other) st)
    (client_datasets, g).

(** The body of the loop of the IID policy: the block of client [i]. *)
Definition iid_share (indices : list Z) (samples_per_client i : Z) : list Z :=
  let start_idx := i * samples_per_client in
  let end_idx := if i <? NUM_CLIENTS - 1
                 then start_idx + samples_per_client
                 else Py.len indices in
  Py.slice indices start_idx end_idx.

Definition split_dataset_iid (ds : dataset) (num_classes : Z) (g : rng)
  : result (list (list Z) * rng) :=
  let '(indices, g) := random.shuffle (Py.range (Py.len ds)) g in
  samples_per_client ← Py.floordiv (Py.len indices) NUM_CLIENTS;
  Ok (iid_share indices samples_per_client <$> Py.range NUM_CLIENTS, g).

(** The row of [class_samples_per_client] for one class: the floor of
    every share, then one more sample for the clients with the highest
    proportions until the class is used up.  The counts are [int64]. *)
Definition class_counts (proportions_c : list float64.t) (class_size : Z)
  : result (list Z) :=
  let samples_per_client := np.floor_scaled proportions_c class_size in
  let remainder :=
    np.int64 (class_size - np.int64 (np.sum samples_per_client)) in
  if 0 <? remainder
  then
    let indices :=
      Py.slice_from (np.argsort proportions_c) (np.int64 (- remainder)) in
    Py.for_ indices
      (fun idx spc =>
         n ← Py.getitem spc idx; Py.setitem spc idx (np.int64 (n + 1)))
      samples_per_client
  else Ok samples_per_client.

(** The body of the innermost distribution loop of the Dirichlet
    policy; [start_idx] and [samples_count] are [int64]. *)
Definition distribute (class_indices : list (list Z))
  (class_samples_per_client : list (list Z)) (client_idx class_idx : Z)
  (st : list (list Z) * list Z) : result (list (list Z) * list Z) :=
  let '(client_datasets, start_idxs) := st in
  row ← Py.getitem class_samples_per_client class_idx;
  samples_count ← Py.getitem row client_idx;
  start_idx ← Py.getitem start_idxs class_idx;
  let end_idx := np.int64 (start_idx + samples_count) in
  indices_c ← Py.getitem class_indices class_idx;
  client_datasets ←
    (if start_idx <? Py.len indices_c
     then Py.extend_at client_datasets client_idx
            (Py.slice indices_c start_idx end_idx)
     else Ok client_datasets);
  start_idxs ← Py.setitem start_idxs class_idx end_idx;
  Ok (client_datasets, start_idxs).

(** The Python generator shuffles, the numpy generator draws the
    proportions. *)
Definition split_dataset_dirichlet (ds : dataset) (num_classes : Z)
  (alpha : option Q) (g gnp : rng) : result (list (list Z) * rng * rng) :=
  let alpha := default (Config.DIRICHLET_ALPHA cfg) alpha in
  class_indices ← group_by_class ds num_classes;
  let '(class_indices, g) := shuffle_each class_indices g in
  let client_datasets := replicate (Z.to_nat NUM_CLIENTS) [] in
  alphas ← np.repeat alpha NUM_CLIENTS;
  '(proportions, gnp) ← np.random_dirichlet alphas num_classes gnp;
  class_samples_per_client ←
    mapM (fun c =>
            indices_c ← Py.getitem class_indices c;
            proportions_c ← Py.getitem proportions c;
            class_counts proportions_c (Py.len indices_c))
         (Py.range num_classes);
  start_idxs ← np.zeros num_classes;
  '(client_datasets, _) ←
    Py.for_ (Py.range NUM_CLIENTS)
      (fun client_idx st =>
         Py.for_ (Py.range num_classes)
           (distribute class_indices class_samples_per_client client_idx) st)
      (client_datasets, start_idxs);
  Ok (client_datasets, g, gnp).

Definition split_dataset (ds : dataset) (num_classes : Z)
  (distribution_type : option string) (g gnp : rng)
  : result (list (list Z) * rng * rng) :=
  let distribution_type :=
    default (Config.DATA_DISTRIBUTION cfg) distribution_type in
  if String.eqb distribution_type "iid"
  then '(parts, g) ← split_dataset_iid ds num_classes g; Ok (parts, g, gnp)
  else if String.eqb distribution_type "label_skew"
  then '(parts, g) ← split_dataset_non_iid ds num_classes g; Ok (parts, g, gnp)
  else if String.eqb distribution_type "dirichlet"
  then split_dataset_dirichlet ds num_classes None g gnp
  else Raise ValueError.

End WithConfig.

End Partition.

(** ** Root-set selector: size resolution *)

Module Root.

(** [len(full_dataset) * ROOT_DATASET_RATIO]: the length is converted to
    a double and multiplied in double precision. *)
Definition product (cfg : Config.t) (full_dataset : dataset) : Q :=
  float64.mul (float64.of_int (Py.len full_dataset))
    (Config.ROOT_DATASET_RATIO cfg).

(** [create_root_dataset]: the requested size [root_size]. *)
Definition root_size (cfg : Config.t) (full_dataset : dataset) : Z :=
  if Config.ROOT_DATASET_DYNAMIC_SIZE cfg
  then Py.int (product cfg full_dataset)
  else Config.ROOT_DATASET_SIZE cfg.

(** The same product without rounding. *)
Definition exact_product (cfg : Config.t) (full_dataset : dataset) : Q :=
  inject_Z (Py.len full_dataset) * Config.ROOT_DATASET_RATIO cfg.

(** The size as the specification words it: [round(total_size * ratio)],
    rounding to the nearest integer (halves to the even neighbour, as
    Python's [round] does). *)
Definition spec_round (q : Q) : Z :=
  let f := Qfloor q in
  let d := (q - inject_Z f)%Q in
  if Qlt_le_dec d (1 # 2) then f
  else if Qlt_le_dec (1 # 2) d then f + 1
  else if Z.even f then f else f + 1.

Definition spec_root_size (cfg : Config.t) (full_dataset : dataset) : Z :=
  spec_round (inject_Z (Py.len full_dataset) * Config.ROOT_DATASET_RATIO cfg).

(** [[i for i, (_, label) in enumerate(full_dataset) if label == c]] *)
Definition indices_with (c : Z) (full_dataset : dataset) : list Z :=
  fst <$> filter (fun p => p.2.2 = c) (Py.enumerate full_dataset).

(** [[i for i, (_, label) in enumerate(full_dataset) if label != c]] *)
Definition indices_without (c : Z) (full_dataset : dataset) : list Z :=
  fst <$> filter (fun p => p.2.2 <> c) (Py.enumerate full_dataset).

(** [create_root_dataset]: the indices of the root subset.  The product
    in [biased_size] is exact. *)
Definition create_root_dataset (cfg : Config.t) (full_dataset : dataset)
  (num_classes : Z) (g : rng) : result (list Z * rng) :=
  let root_size := root_size cfg full_dataset in
  let bias_class := Config.BIAS_CLASS cfg in
  if Qeq_bool (Config.BIAS_PROBABILITY cfg) 1
  then
    let biased_indices := indices_with bias_class full_dataset in
    random.sample biased_indices
      (Z.min root_size (Py.len biased_indices)) g
  else
    let biased_size :=
      Py.int (inject_Z root_size * Config.BIAS_PROBABILITY cfg) in
    let unbiased_size := root_size - biased_size in
    let biased_indices := indices_with bias_class full_dataset in
    let unbiased_indices := indices_without bias_class full_dataset in
    '(biased, g) ← random.sample biased_indices
                     (Z.min biased_size (Py.len biased_indices)) g;
    '(unbiased, g) ← random.sample unbiased_indices
                       (Z.min unbiased_size (Py.len unbiased_indices)) g;
    Ok (biased ++ unbiased, g).

End Root.

(** ** Observations the statements are written with *)

(** The tape a generator is left with after seeding is the seed. *)
Definition seeded (cells : nat -> N) : rng := {| tape := cells; cursor := 0 |}.

(** The labels read at a sequence of subscripts, one access after the
    other on the same torch generator. *)
Fixpoint read_labels (w : Attack.wrapper) (idxs : list Z) (g : rng)
  : result (list Z * rng) :=
  match idxs with
  | [] => Ok ([], g)
  | idx :: rest =>
      '((_, label), g') ← Attack.getitem w idx g;
      '(labels, g'') ← read_labels w rest g';
      Ok (label :: labels, g'')
  end.

(** The samples read at a sequence of subscripts. *)
Fixpoint read_samples (w : Attack.wrapper) (idxs : list Z) (g : rng)
  : result (list sample * rng) :=
  match idxs with
  | [] => Ok ([], g)
  | idx :: rest =>
      '(s, g') ← Attack.getitem w idx g;
      '(samples, g'') ← read_samples w rest g';
      Ok (s :: samples, g'')
  end.

(** [[w[i] for i in range(len(w))]]: the wrapper read from end to end,
    as a loader does. *)
Definition read_through (w : Attack.wrapper) (g : rng)
  : result (list sample * rng) :=
  read_samples w (Py.range (Attack.len w)) g.




(** The labels of a source all lie in [[0, num_classes)]. *)
Definition labels_in_range (ds : dataset) (num_classes : Z) : bool :=
  forallb (fun s => (0 <=? s.2) && (s.2 <? num_classes)) ds.

(** When a constructor raises, as a predicate on its arguments. *)
Definition construction_fails (a : Attack.attack) (ds : dataset) : Prop :=
  match a with
  | Attack.MinSum nc => nc < 0
  | Attack.Alternating nc => ds <> [] /\ (nc <= 0 \/ 2 ^ 63 < nc)
  | _ => False
  end.

(** One run of a wrapper: it is constructed on the numpy generator, then
    its labels are read at a sequence of indices on torch's generator. *)
Definition run (a : Attack.attack) (ds : dataset) (g_np g_torch : rng)
  (idxs : list Z) : result (list Z) :=
  '(w, _) ← Attack.init a ds g_np;
  '(labels, _) ← read_labels w idxs g_torch;
  Ok labels.

(** The constructors that draw from the numpy generator. *)
Definition reads_numpy (a : Attack.attack) : bool :=
  match a with Attack.Alternating _ => true | _ => false end.

(** The wrappers whose reads draw from torch's generator. *)
Definition reads_torch (a : Attack.attack) : bool :=
  match a with Attack.MinSum _ => true | _ => false end.

(** Two generator states hold the same entropy: the cursor is at the
    same place of tapes with the same cells. *)
Definition same_state (g1 g2 : rng) : Prop :=
  cursor g1 = cursor g2 /\ forall n, tape g1 n = tape g2 n.

(** ** Concrete inputs *)

Definition zero_tape : nat -> N := fun _ => 0%N.

Definition odd_tape : nat -> N := fun n => N.of_nat (7 * n + 3).

Definition example_cfg : Config.t :=
  {| Config.NUM_CLIENTS := 4; Config.Q := 1; Config.DIRICHLET_ALPHA := 1 # 2;
     Config.DATA_DISTRIBUTION := "iid";
     Config.ROOT_DATASET_DYNAMIC_SIZE := true;
     Config.ROOT_DATASET_RATIO := 7 # 8; Config.ROOT_DATASET_SIZE := 5;
     Config.BIAS_PROBABILITY := 1; Config.BIAS_CLASS := 0 |}.

(** A source of [n] one-channel grey images whose labels cycle through
    the classes. *)
Definition half_grey : torch.tensor := [replicate 28 (replicate 28 (1 # 2)%Q)].

Definition balanced (num_classes n : Z) : dataset :=
  (fun k => (half_grey, k mod num_classes)) <$> Py.range n.

(** A share of [size] samples differs from [n / p] by at most one. *)
Definition within_one (n p size : Z) : Prop :=
  (Qabs (inject_Z size - inject_Z n / inject_Z p) <= 1)%Q.

(** The shares cover the indices [[0, n)], each exactly once: read one
    after the other they are a rearrangement of [range(n)]. *)
Definition covers (parts : list (list Z)) (n : Z) : Prop :=
  concat parts ≡ₚ Py.range n.

(** The clients that prefer class [c], as [split_dataset_non_iid]
    computes them. *)
Definition preferred_for (cfg : Config.t) (num_classes c : Z)
  : result (list Z) :=
  '(_, clients_per_class) ← Partition.block_widths cfg num_classes;
  Partition.preferred_clients cfg clients_per_class c.

Definition with_clients (n : Z) (q : Q) : Config.t :=
  {| Config.NUM_CLIENTS := n; Config.Q := q; Config.DIRICHLET_ALPHA := 1 # 2;
     Config.DATA_DISTRIBUTION := "iid";
     Config.ROOT_DATASET_DYNAMIC_SIZE := true;
     Config.ROOT_DATASET_RATIO := 7 # 8; Config.ROOT_DATASET_SIZE := 5;
     Config.BIAS_PROBABILITY := 1; Config.BIAS_CLASS := 0 |}.

(** What the label-skew policy promises about the client a sample of
    class [c] goes to. *)
Definition allowed (cfg : Config.t) (nc c client : Z) : Prop :=
  exists pref,
    preferred_for cfg nc c = Ok pref /\
    0 <= client < Config.NUM_CLIENTS cfg /\
    ((1 <= Config.Q cfg)%Q -> client ∈ pref) /\
    ((Config.Q cfg <= 0)%Q -> Partition.other_clients_of cfg pref <> [] ->
     client ∉ pref).

(** The floored shares of a class of [size] samples are not negative
    and fall short of [size] by at most one sample per client. *)
Definition well_scaled (row : list float64.t) (size : Z) : bool :=
  let floors := np.floor_scaled row size in
  forallb (fun n => 0 <=? n) floors
  && (0 <=? size - np.sum floors)
  && (size - np.sum floors <=? Py.len row).

(** The number of samples of class [c]. *)
Definition class_size (ds : dataset) (c : Z) : Z :=
  Py.len (Root.indices_with c ds).

(** Every row the Dirichlet policy draws from the numpy generator is
    well scaled for the class it is drawn for. *)
Definition well_scaled_draw (cfg : Config.t) (ds : dataset) (nc : Z)
  (gnp : rng) : bool :=
  forallb (fun p => well_scaled p.2 (class_size ds p.1))
    (Py.enumerate
       (np.dirichlet_rows (Z.to_nat nc)
          (Z.to_nat (Config.NUM_CLIENTS cfg)) gnp).1).

(** What is left of every class once [start_idxs] samples are gone. *)
Definition remaining (start_idxs : list Z) (class_indices : list (list Z))
  : list Z :=
  concat (zip_with (fun s l => drop (Z.to_nat s) l) start_idxs class_indices).

(** The running totals after [k] clients. *)
Definition served (counts : list (list Z)) (k : nat) : list Z :=
  (fun row => np.sum (take k row)) <$> counts.

(** The three recognised policy names. *)
Definition policies : list string := ["iid"; "label_skew"; "dirichlet"]%string.

(** The statement of coverage and disjointness, piece by piece: the
    shares hold [n] indices in all, two different shares have no index
    in common, every index of [[0, n)] is in some share, no index occurs
    twice, and nothing outside [[0, n)] occurs. *)
Definition partitions (parts : list (list Z)) (n : Z) : Prop :=
  Z.of_nat (length (concat parts)) = n /\
  (forall a b pa pb x, a <> b -> parts !! a = Some pa -> parts !! b = Some pb ->
     x ∈ pa -> x ∉ pb) /\
  (forall x, 0 <= x < n -> exists a pa, parts !! a = Some pa /\ x ∈ pa) /\
  NoDup (concat parts) /\
  (forall x, x ∈ concat parts -> 0 <= x < n).

(** The wrappers that are meant to keep labels inside the classes, for
    a class count [nc]: all but Backdoor and Targeted, whose output label
    is a free parameter. *)
Definition keeps_labels (a : Attack.attack) (nc : Z) : Prop :=
  match a with
  | Attack.LabelFlipping n | Attack.MinMax n | Attack.MinSum n
  | Attack.Alternating n | Attack.GradientInversion n => n = nc
  | Attack.Adaptive => True
  | Attack.Backdoor _ _ | Attack.Targeted _ _ _ => False
  end.

(** A configuration with a fixed root size [size], bias probability
    [bp] and bias class 1. *)
Definition with_bias (bp : Q) (size : Z) : Config.t :=
  {| Config.NUM_CLIENTS := 4; Config.Q := 1; Config.DIRICHLET_ALPHA := 1 # 2;
     Config.DATA_DISTRIBUTION := "iid";
     Config.ROOT_DATASET_DYNAMIC_SIZE := false;
     Config.ROOT_DATASET_RATIO := 7 # 8; Config.ROOT_DATASET_SIZE := size;
     Config.BIAS_PROBABILITY := bp; Config.BIAS_CLASS := 1 |}.

(** The double written [0.7]. *)
Definition seven_tenths : Q := 3152519739159347 # 4503599627370496.

(** A configuration with dynamic root sizing at ratio [r]. *)
Definition with_ratio (r : Q) : Config.t :=
  {| Config.NUM_CLIENTS := 4; Config.Q := 1; Config.DIRICHLET_ALPHA := 1 # 2;
     Config.DATA_DISTRIBUTION := "iid";
     Config.ROOT_DATASET_DYNAMIC_SIZE := true;
     Config.ROOT_DATASET_RATIO := r; Config.ROOT_DATASET_SIZE := 5;
     Config.BIAS_PROBABILITY := 1; Config.BIAS_CLASS := 0 |}.

(** A tape whose quotients are all one quarter. *)
Definition quarter_tape : nat -> N := fun n => if Nat.even n then 1%N else 4%N.

(** A configuration with four clients and concentration [alpha]. *)
Definition with_alpha (alpha : Q) : Config.t :=
  {| Config.NUM_CLIENTS := 4; Config.Q := 1; Config.DIRICHLET_ALPHA := alpha;
     Config.DATA_DISTRIBUTION := "dirichlet";
     Config.ROOT_DATASET_DYNAMIC_SIZE := true;
     Config.ROOT_DATASET_RATIO := 7 # 8; Config.ROOT_DATASET_SIZE := 5;
     Config.BIAS_PROBABILITY := 1; Config.BIAS_CLASS := 0 |}.


(** A source of one 32x32 image. *)
Definition large_image : dataset :=
  [([replicate 32 (replicate 32 (1 # 2)%Q)], 0)].

(* ================================================================= *)
(** * Properties *)

(** ** Subscripts *)

Lemma position_in_range (n i : Z) :
  0 <= i < n -> Py.position n i = Ok (Z.to_nat i).
Proof.
  intros H. unfold Py.position.
  destruct (Z.ltb_spec i 0); [lia|].
  destruct (Z.ltb_spec i 0); [lia|].
  destruct (Z.leb_spec n i); [lia|]. reflexivity.
Qed.

Lemma getitem_in_range {A} (l : list A) (i : Z) :
  0 <= i < Py.len l ->
  exists x, l !! Z.to_nat i = Some x /\ Py.getitem l i = Ok x.
Proof.
  intros H. unfold Py.getitem. rewrite position_in_range by done. cbn.
  destruct (lookup_lt_is_Some_2 l (Z.to_nat i)) as [x Hx].
  { unfold Py.len in H. lia. }
  exists x. by rewrite Hx.
Qed.

Lemma getitem_lookup {A} (l : list A) (i : Z) (x : A) :
  0 <= i -> l !! Z.to_nat i = Some x -> Py.getitem l i = Ok x.
Proof.
  intros Hi Hx. pose proof (lookup_lt_Some _ _ _ Hx) as Hlt.
  destruct (getitem_in_range l i) as (y & Hy & ->).
  { unfold Py.len. lia. }
  congruence.
Qed.

Lemma len_nonneg {A} (l : list A) : 0 <= Py.len l.
Proof. unfold Py.len. lia. Qed.

Lemma range_length (n : Z) : length (Py.range n) = Z.to_nat n.
Proof. unfold Py.range. by rewrite length_fmap, length_seq. Qed.

Lemma range_lookup (n : Z) (k : nat) :
  (k < Z.to_nat n)%nat -> Py.range n !! k = Some (Z.of_nat k).
Proof.
  intros H. unfold Py.range. rewrite list_lookup_fmap.
  rewrite lookup_seq_lt by done. reflexivity.
Qed.

Lemma elem_of_range (n x : Z) : x ∈ Py.range n <-> 0 <= x < n.
Proof.
  unfold Py.range. rewrite list_elem_of_fmap. split.
  - intros (k & -> & Hk). apply elem_of_seq in Hk. lia.
  - intros H. exists (Z.to_nat x). split; [lia|]. apply elem_of_seq. lia.
Qed.

(** ** Min-Sum weights *)

Lemma weight_true_class (nc i : Z) : Attack.weight nc i i = (1 # 10)%Q.
Proof. unfold Attack.weight. by rewrite Z.eqb_refl. Qed.

Lemma weight_other_class (nc i j : Z) :
  i <> j -> 0 < Attack.distance nc i j ->
  Attack.weight nc i j = (1 / inject_Z (Attack.distance nc i j))%Q.
Proof.
  intros Hne Hd. unfold Attack.weight.
  destruct (Z.eqb_spec i j); [done|].
  destruct (Z.ltb_spec 0 (Attack.distance nc i j)); [done|lia].
Qed.

(** Between two other classes the farther one weighs strictly less:
    the weight is the inverse of the distance. *)
Lemma weight_antitone (nc i j1 j2 : Z) :
  i <> j1 -> i <> j2 ->
  0 < Attack.distance nc i j1 < Attack.distance nc i j2 ->
  (Attack.weight nc i j2 < Attack.weight nc i j1)%Q.
Proof.
  intros H1 H2 [Hd1 Hd2].
  rewrite !weight_other_class by (done || lia).
  set (d1 := Attack.distance nc i j1) in *.
  set (d2 := Attack.distance nc i j2) in *.
  unfold Qlt, Qdiv, Qinv, Qmult, inject_Z. simpl.
  destruct d1 as [|p1|p1]; try lia. destruct d2 as [|p2|p2]; try lia.
  simpl. lia.
Qed.

(** C2. With five classes and true class 0, class 1 is at circular
    distance 1 and class 2 at distance 2, yet the weight of class 2
    (one half) is below the weight of class 1 (one): the table built by
    [MinSumAttackDataset.__init__] gives the farther class less mass, not
    more. *)
Theorem min_sum_weight_shrinks_with_distance :
  Attack.distance 5 0 1 < Attack.distance 5 0 2 /\
  Attack.weight 5 0 1 = 1%Q /\
  Attack.weight 5 0 2 = (1 # 2)%Q /\
  ~ (Attack.weight 5 0 1 <= Attack.weight 5 0 2)%Q.
Proof.
  repeat split; try reflexivity. vm_compute. intros H. apply H. reflexivity.
Qed.

(** ** Root-set size *)

Lemma int_floor (q : Q) : (0 <= q)%Q -> Py.int q = Qfloor q.
Proof.
  destruct q as [n d]. unfold Qle, Py.int, Qfloor. simpl. intros H.
  apply Z.quot_div_nonneg; lia.
Qed.

(** C8, as stated, fails: for two samples and a ratio of 7/8 the product
    is 1.75, the code requests 1 sample and rounding to the nearest
    integer gives 2. *)
Lemma root_size_not_rounded :
  Root.root_size example_cfg (balanced 2 2) = 1 /\
  Root.spec_root_size example_cfg (balanced 2 2) = 2.
Proof. split; reflexivity. Qed.

Lemma nearest_even_ge (q : Q) (j : Z) :
  (inject_Z j <= q)%Q -> j <= float64.nearest_even q.
Proof.
  intros H. assert (j <= Qfloor q).
  { rewrite <- (Qfloor_Z j). by apply Qfloor_resp_le. }
  unfold float64.nearest_even. cbv zeta.
  repeat destruct (Qlt_le_dec _ _); try destruct (Z.even _); lia.
Qed.

Lemma nearest_even_le (q : Q) (j : Z) :
  (q <= inject_Z j)%Q -> float64.nearest_even q <= j.
Proof.
  intros H. pose proof (Qfloor_le q) as Hf.
  assert (Qfloor q <= j).
  { rewrite <- (Qfloor_Z j). by apply Qfloor_resp_le. }
  assert ((inject_Z (Qfloor q) < q)%Q -> Qfloor q + 1 <= j) as Hup.
  { intros Hlt. assert (inject_Z (Qfloor q) < inject_Z j)%Q as Hz
      by (eapply Qlt_le_trans; eassumption).
    rewrite <- Zlt_Qlt in Hz. lia. }
  unfold float64.nearest_even. cbv zeta.
  destruct (Qlt_le_dec _ _) as [|H1]; [lia|].
  assert (inject_Z (Qfloor q) < q)%Q as Hlt.
  { revert H1. generalize (inject_Z (Qfloor q)). intros x Hx. lra. }
  specialize (Hup Hlt).
  repeat destruct (Qlt_le_dec _ _); try destruct (Z.even _); lia.
Qed.

Lemma inject_Z_pos (z : Z) : 0 < z -> (0 < inject_Z z)%Q.
Proof. intros H. unfold Qlt. simpl. lia. Qed.

Lemma inject_Z_nonzero (z : Z) : 0 < z -> ~ (inject_Z z == 0)%Q.
Proof. intros H. unfold Qeq. simpl. lia. Qed.

Lemma pow2_pos (e : Z) : (0 < float64.pow2 e)%Q.
Proof.
  unfold float64.pow2. destruct (Z.leb_spec 0 e).
  - apply inject_Z_pos, Z.pow_pos_nonneg; lia.
  - apply Qinv_lt_0_compat, inject_Z_pos, Z.pow_pos_nonneg; lia.
Qed.

Lemma pow2_sub (x y : Z) :
  0 <= x -> 0 <= y ->
  (float64.pow2 (x - y) == inject_Z (2 ^ x) / inject_Z (2 ^ y))%Q.
Proof.
  intros Hx Hy.
  assert (0 < 2 ^ y) as Hpy by (apply Z.pow_pos_nonneg; lia).
  assert (0 < 2 ^ x) as Hpx by (apply Z.pow_pos_nonneg; lia).
  pose proof (inject_Z_nonzero _ Hpy). pose proof (inject_Z_nonzero _ Hpx).
  unfold float64.pow2. destruct (Z.leb_spec 0 (x - y)).
  - replace (2 ^ x) with (2 ^ (x - y) * 2 ^ y)
      by (rewrite <- Z.pow_add_r by lia; f_equal; lia).
    rewrite inject_Z_mult. field. done.
  - assert (0 < 2 ^ (- (x - y))) as Hp by (apply Z.pow_pos_nonneg; lia).
    pose proof (inject_Z_nonzero _ Hp).
    replace (2 ^ y) with (2 ^ (- (x - y)) * 2 ^ x)
      by (rewrite <- Z.pow_add_r by lia; f_equal; lia).
    rewrite inject_Z_mult. field. done.
Qed.

Lemma ilog2_lower (q : Q) : (0 < q)%Q -> (float64.pow2 (float64.ilog2 q) <= q)%Q.
Proof.
  intros Hq. unfold float64.ilog2.
  destruct (Qle_bool _ q) eqn:Htest; [by apply Qle_bool_iff|].
  destruct q as [a b]. cbn [Qnum Qden].
  assert (0 < a) as Ha by (unfold Qlt in Hq; simpl in Hq; lia).
  replace (Z.log2 a - Z.log2 (Z.pos b) - 1)
    with (Z.log2 a - (Z.log2 (Z.pos b) + 1)) by lia.
  pose proof (Z.log2_nonneg a). pose proof (Z.log2_nonneg (Z.pos b)).
  rewrite pow2_sub by lia.
  pose proof (Z.log2_spec a Ha) as [Hla _].
  pose proof (Z.log2_spec (Z.pos b) ltac:(lia)) as [_ Hlb].
  replace (Z.succ (Z.log2 (Z.pos b))) with (Z.log2 (Z.pos b) + 1) in Hlb by lia.
  set (u := 2 ^ Z.log2 a) in *. set (v := 2 ^ (Z.log2 (Z.pos b) + 1)) in *.
  assert (0 < v) by lia.
  apply Qle_shift_div_r; [by rewrite (Zlt_Qlt 0) in *|].
  unfold Qle, Qmult, inject_Z. simpl. nia.
Qed.

Lemma pow2_nonpos (e : Z) :
  e <= 0 -> (float64.pow2 e == / inject_Z (2 ^ (- e)))%Q.
Proof.
  intros He. unfold float64.pow2. destruct (Z.leb_spec 0 e); [|done].
  replace e with 0 by lia. done.
Qed.

Lemma exponent_nonpos (q : Q) :
  (0 < q)%Q -> (q < inject_Z (2 ^ 53))%Q ->
  Z.max (float64.ilog2 q - 52) (-1074) <= 0.
Proof.
  intros Hq Hlt. pose proof (ilog2_lower q Hq) as Hlow.
  destruct (Z.le_gt_cases (float64.ilog2 q) 52) as [|Hbig]; [lia|].
  exfalso. unfold float64.pow2 in Hlow.
  destruct (Z.leb_spec 0 (float64.ilog2 q)); [|lia].
  assert (2 ^ 53 <= 2 ^ float64.ilog2 q) as Hp
    by (apply Z.pow_le_mono_r; lia).
  rewrite Zle_Qle in Hp. lra.
Qed.

Lemma Qabs_nonneg_eq (q : Q) : (0 <= q)%Q -> Qabs q = q.
Proof.
  destruct q as [a b]. unfold Qle, Qabs. simpl. intros H.
  f_equal. apply Z.abs_eq. lia.
Qed.

(** Rounding to a double never crosses an integer below [2^53]. *)
Lemma round_bracket (q : Q) (k : Z) :
  (0 <= q)%Q -> (q < inject_Z (2 ^ 53))%Q ->
  ((inject_Z k <= q)%Q -> (inject_Z k <= float64.round q)%Q) /\
  ((q <= inject_Z k)%Q -> (float64.round q <= inject_Z k)%Q).
Proof.
  intros Hq Hlt. unfold float64.round.
  destruct (Qeq_bool q 0) eqn:Hz.
  { apply Qeq_bool_iff in Hz. split; intros; lra. }
  apply Qeq_bool_neq in Hz. assert (0 < q)%Q as Hpos by lra.
  rewrite (Qabs_nonneg_eq q) by done.
  pose proof (exponent_nonpos q Hpos Hlt) as He.
  set (e := Z.max (float64.ilog2 q - 52) (-1074)) in *.
  pose proof (pow2_nonpos e He) as Hp. pose proof (pow2_pos e) as Hpp.
  set (P := 2 ^ (- e)) in *.
  assert (0 < P) as HP by (apply Z.pow_pos_nonneg; lia).
  assert (0 < inject_Z P)%Q as HPq by (by rewrite (Zlt_Qlt 0) in HP).
  assert (q / float64.pow2 e == q * inject_Z P)%Q as Hdiv.
  { rewrite Hp. field. lra. }
  split; intros Hk.
  - assert (inject_Z (k * P) <= q / float64.pow2 e)%Q as H1.
    { rewrite Hdiv, inject_Z_mult. apply Qmult_le_compat_r; lra. }
    apply nearest_even_ge in H1. rewrite Zle_Qle, inject_Z_mult in H1.
    set (m := float64.nearest_even _) in *. rewrite Hp. apply Qle_shift_div_l; [done|]. lra.
  - assert (q / float64.pow2 e <= inject_Z (k * P))%Q as H1.
    { rewrite Hdiv, inject_Z_mult. apply Qmult_le_compat_r; lra. }
    apply nearest_even_le in H1. rewrite Zle_Qle, inject_Z_mult in H1.
    set (m := float64.nearest_even _) in *. rewrite Hp. apply Qle_shift_div_r; [done|]. lra.
Qed.

Lemma of_int_exact (n : Z) :
  0 <= n < 2 ^ 53 -> (float64.of_int n == inject_Z n)%Q.
Proof.
  intros [H0 H1]. unfold float64.of_int.
  destruct (round_bracket (inject_Z n) n) as [Hlo Hhi].
  - by rewrite (Zle_Qle 0) in H0.
  - by rewrite Zlt_Qlt in H1.
  - apply Qle_antisym; [apply Hhi | apply Hlo]; lra.
Qed.

Lemma floor_between (p : Q) (k : Z) :
  (inject_Z k <= p)%Q -> (p < inject_Z (k + 1))%Q -> Qfloor p = k.
Proof.
  intros Hlo Hhi. apply Qfloor_resp_le in Hlo. rewrite Qfloor_Z in Hlo.
  pose proof (Qfloor_le p) as Hf.
  assert (inject_Z (Qfloor p) < inject_Z (k + 1))%Q as Hlt
    by (eapply Qle_lt_trans; eassumption).
  rewrite <- Zlt_Qlt in Hlt. lia.
Qed.

(** Ten samples at a ratio of 0.7: the exact product is just below 7,
    the double product is 7, and 7 samples are requested. *)
Lemma root_size_rounds_up :
  Qfloor (Root.exact_product (with_ratio seven_tenths) (balanced 2 10)) = 6 /\
  (Root.product (with_ratio seven_tenths) (balanced 2 10) == 7)%Q /\
  Root.root_size (with_ratio seven_tenths) (balanced 2 10) = 7.
Proof. by vm_compute. Qed.

(** C8, amended. With dynamic sizing the requested root-set size is
    [int(total_size * ratio)]: the product is taken in double precision
    and truncated, not rounded to the nearest integer. For a non-negative
    ratio and a size and product below 2^53 this is the floor of the
    exact product, or one more when the double product is that next
    integer. *)
Theorem root_size_truncates (cfg : Config.t) (full_dataset : dataset) :
  Config.ROOT_DATASET_DYNAMIC_SIZE cfg = true ->
  (0 <= Config.ROOT_DATASET_RATIO cfg)%Q ->
  Py.len full_dataset < 2 ^ 53 ->
  (Root.exact_product cfg full_dataset < inject_Z (2 ^ 53))%Q ->
  Root.root_size cfg full_dataset = Qfloor (Root.product cfg full_dataset) /\
  (Root.root_size cfg full_dataset =
     Qfloor (Root.exact_product cfg full_dataset) \/
   Root.root_size cfg full_dataset =
     Qfloor (Root.exact_product cfg full_dataset) + 1 /\
   (Root.product cfg full_dataset ==
      inject_Z (Qfloor (Root.exact_product cfg full_dataset) + 1))%Q).
Proof.
  intros Hdyn Hr Hn Hx. unfold Root.root_size. rewrite Hdyn.
  pose proof (len_nonneg full_dataset) as Hlen.
  pose proof (of_int_exact (Py.len full_dataset) ltac:(lia)) as Hof.
  unfold Root.exact_product in *. unfold Root.product.
  set (n := Py.len full_dataset) in *.
  set (r := Config.ROOT_DATASET_RATIO cfg) in *.
  assert (0 <= inject_Z n)%Q as Hnq by (unfold Qle; simpl; lia).
  assert (0 <= inject_Z n * r)%Q as H0 by (by apply Qmult_le_0_compat).
  set (k := Qfloor (inject_Z n * r)).
  assert (0 <= k) as Hk.
  { unfold k. rewrite <- (Qfloor_Z 0). by apply Qfloor_resp_le. }
  pose proof (Qfloor_le (inject_Z n * r)) as Hlo. fold k in Hlo.
  pose proof (Qlt_floor (inject_Z n * r)) as Hhi. fold k in Hhi.
  unfold float64.mul. set (x := (float64.of_int n * r)%Q).
  assert (x == inject_Z n * r)%Q as Hxe by (unfold x; by rewrite Hof).
  assert (0 <= x)%Q as Hx0 by (by rewrite Hxe).
  assert (x < inject_Z (2 ^ 53))%Q as Hx1 by (by rewrite Hxe).
  destruct (round_bracket x k Hx0 Hx1) as [Hge _].
  destruct (round_bracket x (k + 1) Hx0 Hx1) as [_ Hle].
  assert (inject_Z k <= float64.round x)%Q as Hge' by (apply Hge; by rewrite Hxe).
  assert (float64.round x <= inject_Z (k + 1))%Q as Hle'.
  { apply Hle. rewrite Hxe. by apply Qlt_le_weak. }
  assert (0 <= float64.round x)%Q as Hp0.
  { eapply Qle_trans; [|exact Hge']. unfold Qle. simpl. lia. }
  rewrite (int_floor _ Hp0). split; [done|].
  destruct (Qlt_le_dec (float64.round x) (inject_Z (k + 1))) as [Hlt|Hge2].
  - left. by apply floor_between.
  - right. assert (float64.round x == inject_Z (k + 1))%Q as Heq
      by (by apply Qle_antisym).
    split; [|done]. by rewrite Heq, Qfloor_Z.
Qed.

Lemma root_size_truncates_witness :
  Root.root_size (with_ratio seven_tenths) (balanced 2 10) =
    Qfloor (Root.product (with_ratio seven_tenths) (balanced 2 10)) /\
  (Root.root_size (with_ratio seven_tenths) (balanced 2 10) =
     Qfloor (Root.exact_product (with_ratio seven_tenths) (balanced 2 10)) \/
   Root.root_size (with_ratio seven_tenths) (balanced 2 10) =
     Qfloor (Root.exact_product (with_ratio seven_tenths) (balanced 2 10)) + 1 /\
   (Root.product (with_ratio seven_tenths) (balanced 2 10) ==
      inject_Z
        (Qfloor (Root.exact_product (with_ratio seven_tenths) (balanced 2 10))
         + 1))%Q).
Proof.
  apply (root_size_truncates (with_ratio seven_tenths) (balanced 2 10));
    by vm_compute.
Defined.

(** ** Attack wrappers *)

Lemma zeros_nonneg (n : Z) :
  0 <= n -> np.zeros n = Ok (replicate (Z.to_nat n) 0).
Proof. intros H. unfold np.zeros. destruct (Z.ltb_spec n 0); [lia|done]. Qed.

(** C10. Over a source of one, two or three samples the quarter size is
    zero, the quarter map sends every index to quarter 3, and every valid
    read returns the inverted label [num_classes - label - 1]. *)
Theorem gradient_inversion_small_source (ds : dataset) (nc : Z) (g : rng) :
  0 < Py.len ds < 4 ->
  exists w,
    Attack.init (Attack.GradientInversion nc) ds g = Ok (w, g) /\
    Attack.quarter_map_of (Py.len ds) = Ok (replicate (length ds) 3) /\
    forall idx g', 0 <= idx < Py.len ds ->
      exists data label,
        Py.getitem ds idx = Ok (data, label) /\
        Attack.getitem w idx g' = Ok ((data, nc - label - 1), g').
Proof.
  intros Hlen.
  assert (Hq : Attack.quarter_map_of (Py.len ds) = Ok (replicate (length ds) 3)).
  { unfold Py.len in *.
    destruct ds as [|s1 [|s2 [|s3 [|s4 ds]]]]; simpl in Hlen; try lia;
      reflexivity. }
  exists (Attack.GradientInversionAttackDataset ds nc (replicate (length ds) 3)).
  split; [|split; [done|]].
  - cbn. rewrite Hq. reflexivity.
  - intros idx g' Hidx.
    destruct (getitem_in_range ds idx Hidx) as ([data label] & Hl & Hg).
    exists data, label. split; [done|]. cbn. rewrite Hg. cbn.
    rewrite (getitem_lookup (replicate (length ds) 3) idx 3); [reflexivity|lia|].
    apply lookup_replicate_2. unfold Py.len in Hidx. lia.
Qed.

Lemma gradient_inversion_small_source_witness :
  exists w,
    Attack.init (Attack.GradientInversion 10) (balanced 10 3) (seeded zero_tape)
      = Ok (w, seeded zero_tape) /\
    Attack.quarter_map_of 3 = Ok [3; 3; 3] /\
    forall idx g', 0 <= idx < 3 ->
      exists data label,
        Py.getitem (balanced 10 3) idx = Ok (data, label) /\
        Attack.getitem w idx g' = Ok ((data, 10 - label - 1), g').
Proof.
  apply (gradient_inversion_small_source (balanced 10 3) 10).
  vm_compute. split; reflexivity.
Defined.

Lemma randint_raises (high size : Z) (g : rng) :
  raises (np.random_randint 0 high size g) <->
  size < 0 \/ (size <> 0 /\ (high <= 0 \/ 2 ^ 63 < high)).
Proof.
  unfold np.random_randint.
  destruct (Z.ltb_spec size 0); [simpl; lia|].
  destruct (Z.eqb_spec size 0); [simpl; lia|].
  destruct (Z.ltb_spec 0 (- 2 ^ 63)); [lia|].
  destruct (Z.ltb_spec (2 ^ 63 - 1) (high - 1)); simpl; [lia|].
  destruct (Z.ltb_spec (high - 1) 0); simpl; [lia|].
  destruct (np.draws _ _ _). simpl. lia.
Qed.

Lemma raises_bind {A B} (m : result A) (f : A -> result B) :
  raises (m ≫= f) <-> raises m \/ exists a, m = Ok a /\ raises (f a).
Proof.
  destruct m as [a|e]; simpl.
  - split; [intros H; right; eauto | intros [[]|(a' & [= <-] & H)]; done].
  - split; [by left | done].
Qed.

(** C6, as stated, fails: no constructor checks [num_classes] or the
    length of the source.  Label-Flip with no class, Min-Max with a
    negative class count, Min-Sum with no class, and Alternating and
    Gradient-Inversion over the empty source are all constructed. *)
Lemma construction_without_validation :
  is_Ok (Attack.init (Attack.LabelFlipping 0) [] (seeded zero_tape)) /\
  is_Ok (Attack.init (Attack.MinMax (-3)) (balanced 2 1) (seeded zero_tape)) /\
  is_Ok (Attack.init (Attack.MinSum 0) (balanced 2 1) (seeded zero_tape)) /\
  is_Ok (Attack.init (Attack.Alternating 2) [] (seeded zero_tape)) /\
  is_Ok (Attack.init (Attack.Alternating 0) [] (seeded zero_tape)) /\
  is_Ok (Attack.init (Attack.GradientInversion 0) [] (seeded zero_tape)).
Proof. vm_compute. tauto. Qed.

(** C6, amended. Construction fails exactly where a library call it
    makes refuses its arguments: for Min-Sum when [num_classes] is
    negative, and for Alternating when the source is not empty and
    [num_classes] is not positive (or beyond the 64-bit range).  Every
    other construction succeeds, whatever the class count and the length
    of the source. *)
Theorem construction_failures (a : Attack.attack) (ds : dataset) (g : rng) :
  raises (Attack.init a ds g) <-> construction_fails a ds.
Proof.
  destruct a as [nc|nc tl| |nc|nc|nc|nc tc to|nc]; simpl; try done.
  - unfold Attack.prob_map_of. destruct (Z.ltb_spec nc 0); simpl; lia.
  - rewrite raises_bind, randint_raises. split.
    + intros [[H|[H H']]|((off & g') & _ & [])].
      * pose proof (len_nonneg ds). lia.
      * split; [|done]. intros ->. done.
    + intros [Hne H]. left. right. split; [|done].
      destruct ds; [done|]. unfold Py.len. simpl. lia.
  - unfold Attack.quarter_map_of. rewrite zeros_nonneg by apply len_nonneg.
    simpl. done.
Qed.

Lemma init_len (a : Attack.attack) (ds : dataset) (g g' : rng)
  (w : Attack.wrapper) :
  Attack.init a ds g = Ok (w, g') -> Attack.len w = Py.len ds.
Proof.
  destruct a; simpl; intros H;
    repeat match goal with
      | H : (?m ≫= _) = Ok _ |- _ => destruct m as [[]|] eqn:?; simpl in H
      | H : (?m ≫= _) = Ok _ |- _ => destruct m eqn:?; simpl in H
      end; try discriminate; by inversion H.
Qed.

(** Only the Alternating constructor reads the numpy generator. *)
Lemma init_reads_no_generator (a : Attack.attack) (ds : dataset) (g1 g2 : rng) :
  (forall nc, a <> Attack.Alternating nc) ->
  fst <$> Attack.init a ds g1 = fst <$> Attack.init a ds g2.
Proof.
  intros Ha. destruct a; simpl; try done.
  - by destruct (Attack.prob_map_of _).
  - by destruct (Ha num_classes).
  - by destruct (Attack.quarter_map_of _).
Qed.

(** ** The backdoor scenario *)










(** ** Shuffling *)

Lemma swap_perm {A} (x : list A) (i j : nat) : random.swap x i j ≡ₚ x.
Proof.
  unfold random.swap.
  destruct (x !! i) as [a|] eqn:Hi; [|done].
  destruct (x !! j) as [b|] eqn:Hj; [|done].
  by apply Permutation_insert_swap.
Qed.

Lemma shuffle_down_perm {A} (i : nat) (x : list A) (g : rng) :
  (random.shuffle_down i x g).1 ≡ₚ x.
Proof.
  revert x g. induction i as [|i IH]; intros x g; [done|].
  cbn [random.shuffle_down].
  destruct (random.randbelow _ g) as [j g'].
  rewrite IH. apply swap_perm.
Qed.

Lemma shuffle_perm {A} (x : list A) (g : rng) : (random.shuffle x g).1 ≡ₚ x.
Proof. apply shuffle_down_perm. Qed.

(** ** The IID policy *)

Lemma slice_in_range {A} (l : list A) (s e : Z) :
  0 <= s -> s <= e ->
  Py.slice l s e = take (Z.to_nat (e - s)) (drop (Z.to_nat s) l).
Proof.
  intros Hs He. unfold Py.slice, Py.clip.
  destruct (Z.ltb_spec s 0); [lia|]. destruct (Z.ltb_spec e 0); [lia|].
  pose proof (len_nonneg l) as Hl. unfold Py.len in *.
  destruct (Z.le_gt_cases s (Z.of_nat (length l))) as [Hsl|Hsl].
  - rewrite (Z.min_l s) by done.
    destruct (Z.le_gt_cases e (Z.of_nat (length l))) as [Hel|Hel].
    + by rewrite (Z.min_l e).
    + rewrite (Z.min_r e) by lia.
      rewrite !take_ge; [done| |]; rewrite length_drop; lia.
  - rewrite !drop_ge by lia. by rewrite !take_nil.
Qed.

Section Blocks.

Context (cfg : Config.t) (l : list Z) (spc : Z).

Let N := Config.NUM_CLIENTS cfg.
Let block := Partition.iid_share cfg l spc.

Lemma blocks_prefix (k : nat) :
  0 <= spc -> (k <= Z.to_nat (N - 1))%nat ->
  concat (block <$> (Z.of_nat <$> seq 0 k)) = take (k * Z.to_nat spc) l.
Proof.
  intros Hspc. induction k as [|k IH]; intros Hk; [done|].
  rewrite seq_S, !fmap_app, concat_app, IH by lia. cbn.
  rewrite app_nil_r. unfold block, Partition.iid_share. fold N.
  destruct (Z.ltb_spec (Z.of_nat k) (N - 1)); [|lia].
  rewrite slice_in_range by lia.
  replace (Z.to_nat (Z.of_nat k * spc + spc - Z.of_nat k * spc)) with (Z.to_nat spc) by lia.
  replace (Z.to_nat (Z.of_nat k * spc)) with (k * Z.to_nat spc)%nat by lia.
  rewrite take_take_drop. f_equal. lia.
Qed.

Lemma blocks_concat :
  0 < N -> 0 <= spc -> (N - 1) * spc <= Py.len l ->
  concat (block <$> Py.range N) = l.
Proof.
  intros HN Hspc Hlen. unfold Py.range.
  replace (Z.to_nat N) with (S (Z.to_nat (N - 1))) by lia.
  rewrite seq_S, !fmap_app, concat_app, blocks_prefix by lia. cbn.
  rewrite app_nil_r. unfold block, Partition.iid_share. fold N.
  rewrite Z2Nat.id by lia.
  destruct (Z.ltb_spec (N - 1) (N - 1)); [lia|].
  rewrite <- (Z2Nat.inj_mul (N - 1) spc) by lia.
  pose proof (Z.mul_nonneg_nonneg (N - 1) spc).
  set (m := (N - 1) * spc) in *.
  rewrite slice_in_range by lia.
  rewrite (take_ge (drop _ _)).
  - apply take_drop.
  - rewrite length_drop. unfold Py.len in *. lia.
Qed.

Lemma block_length (i : Z) :
  0 < N -> 0 <= spc -> (N - 1) * spc <= Py.len l -> 0 <= i < N ->
  Py.len (block i) = if i <? N - 1 then spc else Py.len l - (N - 1) * spc.
Proof.
  intros HN Hspc Hlen Hi. unfold block, Partition.iid_share. fold N.
  destruct (Z.ltb_spec i (N - 1)).
  - rewrite slice_in_range by nia. unfold Py.len in *.
    rewrite length_take, length_drop. nia.
  - assert (i = N - 1) as -> by lia.
    rewrite slice_in_range by nia. unfold Py.len in *.
    rewrite length_take, length_drop. nia.
Qed.

End Blocks.

Lemma floor_within_one (n p : Z) : 0 < p -> within_one n p (n / p).
Proof.
  intros Hp. unfold within_one. destruct p as [|p'|p']; try lia.
  rewrite <- Qmake_Qdiv. apply Qabs_Qle_condition.
  pose proof (Z.div_mod n (Z.pos p') ltac:(lia)) as Hdm.
  pose proof (Z.mod_pos_bound n (Z.pos p') ltac:(lia)) as Hm.
  unfold Qle, Qminus, Qplus, Qopp, inject_Z. simpl. split; nia.
Qed.

Lemma iid_run (cfg : Config.t) (ds : dataset) (nc : Z) (g : rng) :
  0 < Config.NUM_CLIENTS cfg ->
  exists indices g',
    random.shuffle (Py.range (Py.len ds)) g = (indices, g') /\
    indices ≡ₚ Py.range (Py.len ds) /\
    Partition.split_dataset_iid cfg ds nc g
    = Ok (Partition.iid_share cfg indices
            (Py.len ds / Config.NUM_CLIENTS cfg)
            <$> Py.range (Config.NUM_CLIENTS cfg), g').
Proof.
  intros HN. unfold Partition.split_dataset_iid.
  pose proof (shuffle_perm (Py.range (Py.len ds)) g) as Hperm.
  destruct (random.shuffle _ g) as [indices g']. simpl in Hperm.
  exists indices, g'. split; [done|]. split; [exact Hperm|].
  unfold Py.floordiv. destruct (Z.eqb_spec (Config.NUM_CLIENTS cfg) 0); [lia|].
  cbn. do 3 f_equal. unfold Py.len.
  rewrite (Permutation_length Hperm), range_length.
  unfold Py.len. by rewrite Nat2Z.id.
Qed.

Lemma iid_cover (cfg : Config.t) (ds : dataset) (nc : Z) (g : rng) :
  0 < Config.NUM_CLIENTS cfg ->
  exists parts g',
    Partition.split_dataset_iid cfg ds nc g = Ok (parts, g') /\
    Py.len parts = Config.NUM_CLIENTS cfg /\
    concat parts ≡ₚ Py.range (Py.len ds).
Proof.
  intros HN. destruct (iid_run cfg ds nc g HN) as (indices & g' & _ & Hperm & ->).
  eexists _, g'. split; [done|].
  assert (Hlen : Py.len indices = Py.len ds).
  { unfold Py.len. rewrite (Permutation_length Hperm), range_length.
    pose proof (len_nonneg ds). unfold Py.len in *. lia. }
  split.
  - unfold Py.len. rewrite length_fmap, range_length. lia.
  - rewrite blocks_concat; [done|done| |].
    + apply Z.div_pos; [apply len_nonneg|done].
    + rewrite Hlen. pose proof (len_nonneg ds).
      pose proof (Z.mul_div_le (Py.len ds) _ HN).
      pose proof (Z.div_pos (Py.len ds) _ H HN). nia.
Qed.

(** C3, as stated, fails: ten samples in two balanced classes split
    among four clients give shares of 2, 2, 2 and 4 samples; the last
    differs from 10/4 by one and a half. *)
Lemma iid_last_share_too_large :
  exists parts g',
    Partition.split_dataset_iid example_cfg (balanced 2 10) 2 (seeded odd_tape)
      = Ok (parts, g') /\
    Py.len <$> parts = [2; 2; 2; 4] /\
    ~ within_one 10 4 4.
Proof.
  eexists _, _. split; [vm_compute; reflexivity|]. split; [reflexivity|].
  vm_compute. intros H. apply H. reflexivity.
Qed.

(** C3, amended. For every source of [n] samples and every positive
    participant count [p], IID partitioning yields [p] shares; each of
    the first [p - 1] has exactly [n // p] samples, hence is within one
    of [n / p], and the last absorbs the remainder: it has
    [n // p + n % p] samples. *)
Theorem iid_share_sizes (cfg : Config.t) (ds : dataset) (nc : Z) (g : rng) :
  let n := Py.len ds in
  let p := Config.NUM_CLIENTS cfg in
  0 < p ->
  exists parts g',
    Partition.split_dataset_iid cfg ds nc g = Ok (parts, g') /\
    Py.len parts = p /\
    forall i share, 0 <= i < p -> parts !! Z.to_nat i = Some share ->
      if i <? p - 1
      then Py.len share = n / p /\ within_one n p (Py.len share)
      else Py.len share = n / p + n mod p.
Proof.
  cbv zeta. intros HN.
  destruct (iid_run cfg ds nc g HN) as (indices & g' & _ & Hperm & ->).
  set (n := Py.len ds). set (p := Config.NUM_CLIENTS cfg) in *.
  eexists _, g'. split; [done|].
  assert (Hlen : Py.len indices = n).
  { unfold Py.len. rewrite (Permutation_length Hperm), range_length.
    pose proof (len_nonneg ds). unfold n, Py.len in *. lia. }
  split.
  - unfold Py.len. rewrite length_fmap, range_length. lia.
  - intros i share Hi Hshare.
    rewrite list_lookup_fmap, range_lookup in Hshare by lia.
    simpl in Hshare. rewrite Z2Nat.id in Hshare by lia.
    injection Hshare as <-.
    pose proof (len_nonneg ds) as Hn. fold n in Hn.
    pose proof (Z.div_pos n p Hn HN) as Hq.
    pose proof (Z.mul_div_le n p HN) as Hle.
    pose proof (Z.div_mod n p ltac:(lia)) as Hdm.
    assert (Hfit : (p - 1) * (n / p) <= Py.len indices) by (rewrite Hlen; nia).
    rewrite block_length by done.
    fold p. destruct (Z.ltb_spec i (p - 1)).
    + split; [done|]. by apply floor_within_one.
    + rewrite Hlen. nia.
Qed.

Lemma iid_share_sizes_witness :
  exists parts g',
    Partition.split_dataset_iid example_cfg (balanced 2 10) 2 (seeded odd_tape)
      = Ok (parts, g') /\
    Py.len parts = 4 /\
    forall i share, 0 <= i < 4 -> parts !! Z.to_nat i = Some share ->
      if i <? 4 - 1
      then Py.len share = 10 / 4 /\ within_one 10 4 (Py.len share)
      else Py.len share = 10 / 4 + 10 mod 4.
Proof.
  apply (iid_share_sizes example_cfg (balanced 2 10) 2 (seeded odd_tape)).
  reflexivity.
Defined.

(** ** Loops *)

Lemma for_invariant {A S} (I : list A -> S -> Prop) (xs : list A)
  (body : A -> S -> result S) (s0 : S) :
  I [] s0 ->
  (forall pre x post s, xs = pre ++ x :: post -> I pre s ->
     exists s', body x s = Ok s' /\ I (pre ++ [x]) s') ->
  exists s', Py.for_ xs body s0 = Ok s' /\ I xs s'.
Proof.
  intros H0 Hstep.
  cut (forall rest pre s, xs = pre ++ rest -> I pre s ->
         exists s', Py.for_ rest body s = Ok s' /\ I xs s').
  { intros Hgen. by apply (Hgen xs [] s0). }
  induction rest as [|x rest IH]; intros pre s Hxs HI.
  - rewrite app_nil_r in Hxs. subst pre. by exists s.
  - destruct (Hstep pre x rest s Hxs HI) as (s' & Hb & HI').
    cbn. rewrite Hb. cbn. apply (IH (pre ++ [x])); [|done].
    by rewrite <- app_assoc.
Qed.

Lemma concat_alter_app {A} (ll : list (list A)) (p : nat) (xs : list A) :
  (p < length ll)%nat ->
  concat (alter (fun l => l ++ xs) p ll) ≡ₚ concat ll ++ xs.
Proof.
  revert p. induction ll as [|l ll IH]; intros [|p] Hp; simpl in *; try lia.
  - rewrite <- !app_assoc. apply Permutation_app_head, Permutation_app_comm.
  - rewrite <- app_assoc. apply Permutation_app_head, IH. lia.
Qed.

Lemma append_at_in_range {A} (ll : list (list A)) (i : Z) (x : A) :
  0 <= i < Py.len ll ->
  Py.append_at ll i x = Ok (alter (fun l => l ++ [x]) (Z.to_nat i) ll).
Proof. intros H. unfold Py.append_at. by rewrite position_in_range. Qed.

(** ** Grouping by class *)

Lemma enumerate_lookup {A} (l : list A) (k : nat) :
  Py.enumerate l !! k = (fun x => (Z.of_nat k, x)) <$> l !! k.
Proof. unfold Py.enumerate. by rewrite list_lookup_imap. Qed.

Lemma enumerate_fst {A} (l : list A) :
  fst <$> Py.enumerate l = Py.range (Py.len l).
Proof.
  apply list_eq. intros k. rewrite list_lookup_fmap, enumerate_lookup.
  unfold Py.range, Py.len. rewrite Nat2Z.id, list_lookup_fmap.
  destruct (l !! k) as [x|] eqn:Hk; simpl.
  - by rewrite lookup_seq_lt by eauto using lookup_lt_Some.
  - by rewrite lookup_seq_ge by by apply lookup_ge_None.
Qed.

Lemma elem_of_enumerate {A} (l : list A) (i : Z) (x : A) :
  (i, x) ∈ Py.enumerate l <-> 0 <= i /\ l !! Z.to_nat i = Some x.
Proof.
  rewrite list_elem_of_lookup. split.
  - intros (k & Hk). rewrite enumerate_lookup in Hk.
    destruct (l !! k) eqn:Hl; simplify_eq/=. rewrite Nat2Z.id. split; [lia|done].
  - intros [Hi Hl]. exists (Z.to_nat i). rewrite enumerate_lookup, Hl. simpl.
    by rewrite Z2Nat.id.
Qed.

Lemma labels_in_range_lookup (ds : dataset) (nc : Z) (k : nat) data label :
  labels_in_range ds nc = true -> ds !! k = Some (data, label) ->
  0 <= label < nc.
Proof.
  unfold labels_in_range. rewrite forallb_forall. intros H Hk.
  apply list_elem_of_lookup_2, list_elem_of_In, H in Hk. simpl in Hk. lia.
Qed.

(** Grouping succeeds on a well-labelled source; the groups hold every
    index once and the indices of group [c] carry label [c]. *)
Lemma group_by_class_spec (ds : dataset) (nc : Z) :
  labels_in_range ds nc = true ->
  exists class_indices,
    Partition.group_by_class ds nc = Ok class_indices /\
    length class_indices = Z.to_nat nc /\
    concat class_indices ≡ₚ Py.range (Py.len ds) /\
    forall c xs idx, class_indices !! c = Some xs -> idx ∈ xs ->
      0 <= idx /\ exists data, ds !! Z.to_nat idx = Some (data, Z.of_nat c).
Proof.
  intros Hlab. unfold Partition.group_by_class.
  destruct (for_invariant
    (fun pre ci =>
       length ci = Z.to_nat nc /\
       concat ci ≡ₚ fst <$> pre /\
       forall c xs idx, ci !! c = Some xs -> idx ∈ xs ->
         exists data, (idx, (data, Z.of_nat c)) ∈ pre)
    (Py.enumerate ds)
    (fun '(idx, (_, label)) class_indices =>
       Py.append_at class_indices label idx)
    (replicate (Z.to_nat nc) [])) as (ci & Hrun & Hlen & Hperm & Hcls).
  - split; [by rewrite length_replicate|]. split.
    + simpl. induction (Z.to_nat nc); [done|]. simpl. done.
    + intros c xs idx Hc Hidx. apply lookup_replicate in Hc as [-> _].
      by apply elem_of_nil in Hidx.
  - intros pre [idx [data label]] post ci Hsplit (Hlen & Hperm & Hcls).
    assert (Hin : (idx, (data, label)) ∈ Py.enumerate ds).
    { rewrite Hsplit. apply elem_of_app. right. by left. }
    apply elem_of_enumerate in Hin as [Hidx Hl].
    pose proof (labels_in_range_lookup _ _ _ _ _ Hlab Hl) as Hrange.
    rewrite append_at_in_range by (unfold Py.len; lia).
    eexists. split; [done|]. split; [by rewrite length_alter|]. split.
    + rewrite concat_alter_app by lia. rewrite fmap_app. simpl.
      by rewrite Hperm.
    + intros c xs idx' Hc Hidx'.
      destruct (decide (c = Z.to_nat label)) as [->|Hne].
      * rewrite list_lookup_alter_eq in Hc.
        destruct (ci !! Z.to_nat label) as [ys|] eqn:Hys; simplify_eq/=.
        apply elem_of_app in Hidx' as [Hold|Hnew].
        -- destruct (Hcls _ _ _ Hys Hold) as (d & Hd). exists d.
           apply elem_of_app. by left.
        -- apply list_elem_of_singleton in Hnew as ->. exists data.
           apply elem_of_app. right. rewrite Z2Nat.id by lia. by left.
      * rewrite list_lookup_alter_ne in Hc by done.
        destruct (Hcls _ _ _ Hc Hidx') as (d & Hd). exists d.
        apply elem_of_app. by left.
  - exists ci. split; [done|]. split; [done|]. split.
    + by rewrite Hperm, enumerate_fst.
    + intros c xs idx Hc Hidx. destruct (Hcls _ _ _ Hc Hidx) as (d & Hd).
      apply elem_of_enumerate in Hd as [? ?]. eauto.
Qed.

Lemma shuffle_each_spec (class_indices : list (list Z)) (g : rng) :
  Forall2 Permutation (Partition.shuffle_each class_indices g).1 class_indices.
Proof.
  revert g. induction class_indices as [|ci rest IH]; intros g; [constructor|].
  cbn. pose proof (shuffle_perm ci g) as Hp.
  destruct (random.shuffle ci g) as [ci' g']. specialize (IH g').
  destruct (Partition.shuffle_each rest g') as [rest' g'']. simpl in *.
  by constructor.
Qed.

Lemma Forall2_perm_concat (xs ys : list (list Z)) :
  Forall2 Permutation xs ys -> concat xs ≡ₚ concat ys.
Proof.
  induction 1 as [|x y xs ys Hxy _ IH]; [done|]. simpl. by rewrite Hxy, IH.
Qed.


(** ** The label-skew policy *)

Lemma elem_of_range2 (a b x : Z) : x ∈ Py.range2 a b <-> a <= x < b.
Proof.
  unfold Py.range2. rewrite list_elem_of_fmap. split.
  - intros (k & -> & Hk). apply elem_of_seq in Hk. lia.
  - intros H. exists (Z.to_nat (x - a)). split; [lia|]. apply elem_of_seq. lia.
Qed.

Lemma random_unit (g : rng) :
  (0 <= (random.random g).1 /\ (random.random g).1 < 1)%Q.
Proof.
  unfold random.random. destruct (next_raw g) as [r g'].
  pose proof (N.mod_lt r (2 ^ 53) ltac:(done)) as Hlt.
  set (k := (r mod 2 ^ 53)%N) in *.
  unfold Qle, Qlt. cbn [fst Qnum Qden].
  change (Z.pos (2 ^ 53)) with (Z.of_N (2 ^ 53)). lia.
Qed.

Lemma choice_spec {A} (seq : list A) (g : rng) :
  seq <> [] ->
  exists x g', random.choice seq g = Ok (x, g') /\ x ∈ seq.
Proof.
  intros Hne. unfold random.choice. destruct seq as [|a seq]; [done|].
  set (l := a :: seq). unfold random.randbelow.
  destruct (next_raw g) as [r g'].
  assert (Hpos : 0 < Py.len l) by (unfold Py.len; simpl; lia).
  pose proof (Z.mod_pos_bound (Z.of_N r) (Py.len l) Hpos) as Hb.
  destruct (getitem_in_range l _ Hb) as (x & Hx & ->). cbn.
  exists x, g'. split; [done|]. by eapply list_elem_of_lookup_2.
Qed.

Section LabelSkew.

Context (cfg : Config.t).
Let N := Config.NUM_CLIENTS cfg.
Context (HN : 0 < N).

Lemma block_widths_ok (nc : Z) :
  exists a b, Partition.block_widths cfg nc = Ok (a, b) /\ 1 <= b.
Proof.
  unfold Partition.block_widths, Py.floordiv. fold N.
  destruct (Z.leb_spec N nc).
  - destruct (Z.eqb_spec nc 0); [lia|]. cbn. eexists _, _. split; [done|lia].
  - destruct (Z.eqb_spec N 0); [lia|]. cbn. eexists _, _. split; [done|lia].
Qed.

Lemma preferred_clients_ok (cpc c : Z) :
  1 <= cpc ->
  exists pref,
    Partition.preferred_clients cfg cpc c = Ok pref /\
    pref <> [] /\ forall x, x ∈ pref -> 0 <= x < N.
Proof.
  intros Hcpc. unfold Partition.preferred_clients, Py.mod_. fold N.
  destruct (Z.eqb_spec N 0); [lia|]. cbn.
  pose proof (Z.mod_pos_bound (c * cpc) N HN) as Hs.
  set (s := (c * cpc) mod N) in *.
  assert (Hin : s ∈ Py.range2 s (Z.min (s + cpc) N)) by (apply elem_of_range2; lia).
  assert (Hall : forall x, x ∈ Py.range2 s (Z.min (s + cpc) N) -> 0 <= x < N).
  { intros x Hx. apply elem_of_range2 in Hx. lia. }
  destruct (Py.range2 s (Z.min (s + cpc) N)) as [|y ys] eqn:Hr.
  - by apply elem_of_nil in Hin.
  - eexists. split; [done|]. split; [done|]. exact Hall.
Qed.

Lemma other_clients_spec (pref : list Z) (x : Z) :
  x ∈ Partition.other_clients_of cfg pref <-> (x ∉ pref) /\ 0 <= x < N.
Proof.
  unfold Partition.other_clients_of. rewrite list_elem_of_filter, elem_of_range.
  done.
Qed.

Lemma class_to_clients_ok (nc cpc : Z) :
  1 <= cpc ->
  exists m,
    Partition.class_to_clients_of cfg nc cpc = Ok m /\
    forall c, 0 <= c < nc ->
      exists pref, m !! c = Some pref /\
                   Partition.preferred_clients cfg cpc c = Ok pref.
Proof.
  intros Hcpc. unfold Partition.class_to_clients_of.
  destruct (for_invariant
    (fun pre (m : gmap Z (list Z)) =>
       forall c, c ∈ pre ->
         exists pref, m !! c = Some pref /\
                      Partition.preferred_clients cfg cpc c = Ok pref)
    (Py.range nc)
    (fun c m =>
       cs ← Partition.preferred_clients cfg cpc c; Ok (<[c := cs]> m))
    ∅) as (m & Hrun & Hm).
  - intros c Hc. by apply elem_of_nil in Hc.
  - intros pre c post m _ Hm.
    destruct (preferred_clients_ok cpc c Hcpc) as (pref & Hp & _).
    rewrite Hp. cbn. eexists. split; [done|].
    intros c' Hc'. apply elem_of_app in Hc' as [Hold|Hnew].
    + destruct (decide (c = c')) as [->|Hne].
      * exists pref. by rewrite lookup_insert_eq.
      * rewrite lookup_insert_ne by done. by apply Hm.
    + apply list_elem_of_singleton in Hnew as ->.
      exists pref. by rewrite lookup_insert_eq.
  - exists m. split; [done|]. intros c Hc. apply Hm. by apply elem_of_range.
Qed.

Lemma assign_spec (pref : list Z) (idx : Z) (cds : list (list Z)) (g : rng) :
  Py.len cds = N -> pref <> [] -> (forall x, x ∈ pref -> 0 <= x < N) ->
  exists client g',
    Partition.assign cfg pref (Partition.other_clients_of cfg pref) idx (cds, g)
    = Ok (alter (fun l => l ++ [idx]) (Z.to_nat client) cds, g') /\
    0 <= client < N /\
    ((1 <= Config.Q cfg)%Q -> client ∈ pref) /\
    ((Config.Q cfg <= 0)%Q -> Partition.other_clients_of cfg pref <> [] ->
     client ∉ pref).
Proof.
  intros Hlen Hne Hpref. unfold Partition.assign.
  pose proof (random_unit g) as [Hu0 Hu1].
  destruct (random.random g) as [u g1]. simpl in Hu0, Hu1.
  set (other := Partition.other_clients_of cfg pref).
  assert (Hother : forall x, x ∈ other -> (x ∉ pref) /\ 0 <= x < N).
  { intros x. apply other_clients_spec. }
  destruct (Qlt_le_dec u (Config.Q cfg)) as [Hlt|Hge].
  - destruct (choice_spec pref g1 Hne) as (client & g' & -> & Hin). cbn.
    rewrite append_at_in_range by (rewrite Hlen; auto).
    exists client, g'. split; [done|]. split; [auto|]. split; [done|].
    intros HQ. exfalso. apply (Qlt_irrefl u). eapply Qlt_le_trans; [done|].
    eapply Qle_trans; done.
  - destruct other as [|o other'] eqn:Ho.
    + destruct (choice_spec pref g1 Hne) as (client & g' & -> & Hin). cbn.
      rewrite append_at_in_range by (rewrite Hlen; auto).
      exists client, g'. split; [done|]. split; [auto|]. split; [done|].
      by intros _ [].
    + destruct (choice_spec (o :: other') g1 ltac:(done))
        as (client & g' & -> & Hin). cbn.
      destruct (Hother _ Hin) as [Hnot Hrange].
      rewrite append_at_in_range by (rewrite Hlen; auto).
      exists client, g'. split; [done|]. split; [done|]. split; [|done].
      intros HQ. exfalso. apply (Qlt_irrefl u).
      eapply Qlt_le_trans; [exact Hu1|]. by eapply Qle_trans.
Qed.

End LabelSkew.

Lemma range_split (n : Z) (pre : list Z) (c : Z) (post : list Z) :
  Py.range n = pre ++ c :: post -> c = Z.of_nat (length pre).
Proof.
  intros H.
  assert (Hl : Py.range n !! length pre = Some c).
  { rewrite H. by apply list_lookup_middle. }
  unfold Py.range in Hl. rewrite list_lookup_fmap in Hl.
  destruct (seq 0 (Z.to_nat n) !! length pre) as [k|] eqn:E; simplify_eq/=.
  by apply lookup_seq in E as [-> _].
Qed.

Section LabelSkewRun.

Context (cfg : Config.t).
Let N := Config.NUM_CLIENTS cfg.
Context (HN : 0 < N).

Lemma non_iid_run (ds : dataset) (nc : Z) (g : rng) :
  labels_in_range ds nc = true ->
  exists parts g',
    Partition.split_dataset_non_iid cfg ds nc g = Ok (parts, g') /\
    Py.len parts = N /\
    concat parts ≡ₚ Py.range (Py.len ds) /\
    forall k xs idx, parts !! k = Some xs -> idx ∈ xs ->
      0 <= idx /\
      exists data c, ds !! Z.to_nat idx = Some (data, c) /\
                     allowed cfg nc c (Z.of_nat k).
Proof.
  intros Hlab. unfold Partition.split_dataset_non_iid. fold N.
  destruct (group_by_class_spec ds nc Hlab) as (ci0 & -> & Hlen0 & Hperm0 & Hcls0).
  cbn. pose proof (shuffle_each_spec ci0 g) as Hsh.
  destruct (Partition.shuffle_each ci0 g) as [ci g1]. simpl in Hsh.
  destruct (block_widths_ok cfg HN nc) as (cpcl & cpc & Hbw & Hcpc).
  rewrite Hbw. cbn.
  destruct (class_to_clients_ok cfg HN nc cpc Hcpc) as (m & -> & Hm). cbn.
  assert (Hlen : length ci = Z.to_nat nc).
  { by rewrite (Forall2_length _ _ _ Hsh). }
  assert (Hcls : forall c xs idx, ci !! c = Some xs -> idx ∈ xs ->
            0 <= idx /\ exists data, ds !! Z.to_nat idx = Some (data, Z.of_nat c)).
  { intros c xs idx Hc Hidx.
    destruct (Forall2_lookup_l _ _ _ _ _ Hsh Hc) as (ys & Hys & Hp).
    apply (Hcls0 c ys idx Hys). by rewrite <- Hp. }
  destruct (for_invariant
    (fun pre (st : list (list Z) * rng) =>
       Py.len st.1 = N /\
       concat st.1 ≡ₚ concat (take (length pre) ci) /\
       forall k xs idx, st.1 !! k = Some xs -> idx ∈ xs ->
         exists c ys, ci !! c = Some ys /\ idx ∈ ys /\
                      allowed cfg nc (Z.of_nat c) (Z.of_nat k))
    (Py.range nc)
    (fun c st =>
       preferred ← match m !! c with
                   | Some cs => Ok cs
                   | None => Raise KeyError
                   end;
       let other := Partition.other_clients_of cfg preferred in
       indices ← Py.getitem ci c;
       Py.for_ indices (Partition.assign cfg preferred other) st)
    (replicate (Z.to_nat N) [], g1)) as ([parts g'] & Hrun & HlenP & Hperm & Hall).
  - simpl. split; [unfold Py.len; rewrite length_replicate; lia|]. split.
    + induction (Z.to_nat N); [done|]. simpl. done.
    + intros k xs idx Hk Hidx. apply lookup_replicate in Hk as [-> _].
      by apply elem_of_nil in Hidx.
  - intros pre c post [cds g2] Hsplit (HlenC & HpermC & HallC).
    cbn [fst snd] in *.
    assert (Hc : 0 <= c < nc).
    { apply elem_of_range. rewrite Hsplit. apply elem_of_app. right. by left. }
    assert (Hpre : c = Z.of_nat (length pre)).
    { by eapply range_split. }
    destruct (Hm c Hc) as (pref & -> & Hpref). cbn.
    destruct (preferred_clients_ok cfg HN cpc c Hcpc) as (pref' & Hp' & Hne & Hin).
    assert (pref' = pref) as -> by congruence.
    destruct (getitem_in_range ci c) as (ys & Hys & ->).
    { unfold Py.len. lia. }
    cbn.
    destruct (for_invariant
      (fun pre' (st : list (list Z) * rng) =>
         Py.len st.1 = N /\
         concat st.1 ≡ₚ concat (take (length pre) ci) ++ pre' /\
         forall k xs idx, st.1 !! k = Some xs -> idx ∈ xs ->
           exists c ys, ci !! c = Some ys /\ idx ∈ ys /\
                        allowed cfg nc (Z.of_nat c) (Z.of_nat k))
      ys
      (Partition.assign cfg pref (Partition.other_clients_of cfg pref))
      (cds, g2)) as ([cds' g3] & Hrun' & HlenC' & HpermC' & HallC').
    + simpl. split; [done|]. split; [by rewrite app_nil_r|done].
    + intros pre' idx post' [cds1 g4] Hsplit' (Hl1 & Hp1 & Ha1).
      cbn [fst snd] in *.
      destruct (assign_spec cfg pref idx cds1 g4 Hl1 Hne Hin)
        as (client & g5 & -> & Hcl & HQ1 & HQ0).
      eexists. split; [done|]. simpl. split; [|split].
      * unfold Py.len in *. by rewrite length_alter.
      * rewrite concat_alter_app by (unfold Py.len, N in *; lia).
        rewrite Hp1. by rewrite app_assoc.
      * intros k xs idx' Hk Hidx'.
        destruct (decide (k = Z.to_nat client)) as [->|Hnek].
        -- rewrite list_lookup_alter_eq in Hk.
           destruct (cds1 !! Z.to_nat client) as [zs|] eqn:Hzs; [|done].
           injection Hk as <-.
           apply elem_of_app in Hidx' as [Hold|Hnew]; [by eapply Ha1|].
           apply list_elem_of_singleton in Hnew as ->.
           exists (Z.to_nat c), ys. split; [done|]. split.
           { rewrite Hsplit'. apply elem_of_app. right. by left. }
           rewrite !Z2Nat.id by lia. exists pref. split; [|done].
           unfold preferred_for. rewrite Hbw. cbn. done.
        -- rewrite list_lookup_alter_ne in Hk by done. by eapply Ha1.
    + rewrite Hrun'. eexists. split; [done|]. simpl in *. split; [done|]. split; [|done].
      rewrite HpermC', length_app. simpl.
      replace (length pre + 1)%nat with (S (length pre)) by lia.
      rewrite (take_S_r _ _ ys), concat_app; [simpl; by rewrite app_nil_r|].
      by rewrite Hpre, Nat2Z.id in Hys.
  - exists parts, g'. split; [exact Hrun|]. cbn [fst snd] in *.
    split; [done|]. split.
    + rewrite Hperm, range_length, take_ge by lia.
      by rewrite (Forall2_perm_concat _ _ Hsh).
    + intros k xs idx Hk Hidx.
      destruct (Hall k xs idx Hk Hidx) as (c & ys & Hys & Hin & Hallow).
      destruct (Hcls c ys idx Hys Hin) as (Hidx0 & data & Hdata).
      split; [done|]. by exists data, (Z.of_nat c).
Qed.

End LabelSkewRun.


(** ** Dirichlet proportions *)

Lemma total_pos (vs : list Q) :
  Forall (fun v => 0 < v)%Q vs -> vs <> [] -> (0 < torch.sum vs)%Q.
Proof.
  induction 1 as [|v vs Hv Hvs IH]; [done|]. intros _. simpl.
  destruct vs as [|w ws].
  - simpl. by rewrite Qplus_0_r.
  - rewrite <- (Qplus_0_r 0). apply Qplus_lt_le_compat; [done|].
    apply Qlt_le_weak, IH. done.
Qed.

Lemma total_scaled (vs : list Q) (t : Q) :
  ~ (t == 0)%Q ->
  (torch.sum ((fun v => v / t) <$> vs) == torch.sum vs / t)%Q.
Proof.
  intros Ht. induction vs as [|v vs IH]; simpl.
  - by field.
  - rewrite IH. by field.
Qed.

Lemma dirichlet_row_length (k : nat) (g : rng) :
  length (np.dirichlet_row k g).1 = k.
Proof.
  revert g. induction k as [|k IH]; intros g; [done|].
  cbn [np.dirichlet_row]. destruct (np.entry g) as [x g'].
  specialize (IH g'). destruct (np.dirichlet_row k g') as [rest g''].
  simpl in *. lia.
Qed.

Lemma dirichlet_rows_spec (size k : nat) (g : rng) :
  length (np.dirichlet_rows size k g).1 = size /\
  Forall (fun row => length row = k) (np.dirichlet_rows size k g).1.
Proof.
  revert g. induction size as [|size IH]; intros g; [by split|].
  cbn [np.dirichlet_rows]. pose proof (dirichlet_row_length k g) as Hrow.
  destruct (np.dirichlet_row k g) as [row g']. specialize (IH g').
  destruct (np.dirichlet_rows size k g') as [rest g'']. simpl in *.
  destruct IH as [Hl Hp]. split; [simpl; lia|]. by constructor.
Qed.

Lemma random_dirichlet_spec (alpha : Q) (N nc : Z) (gnp : rng) :
  (0 < alpha)%Q -> 0 <= nc ->
  np.random_dirichlet (replicate (Z.to_nat N) alpha) nc gnp
  = Ok (np.dirichlet_rows (Z.to_nat nc) (Z.to_nat N) gnp).
Proof.
  intros Ha Hnc. unfold np.random_dirichlet.
  destruct (Z.ltb_spec nc 0); [lia|].
  destruct (existsb _ _) eqn:Hex.
  - apply existsb_exists in Hex as (a & Hin & Hbad).
    apply list_elem_of_In, elem_of_replicate in Hin as [-> _].
    by destruct (Qlt_le_dec 0 alpha) as [?|Hle%Qle_not_lt].
  - by rewrite length_replicate.
Qed.

(** ** Integer counts *)

Lemma insert_sorted_perm (x : float64.t * Z) (l : list (float64.t * Z)) :
  np.insert_sorted x l ≡ₚ x :: l.
Proof.
  induction l as [|y l IH]; [done|]. simpl.
  destruct (float64.ltb y.1 x.1); [|done].
  rewrite IH. apply Permutation_swap.
Qed.

Lemma argsort_perm (a : list float64.t) : np.argsort a ≡ₚ Py.range (Py.len a).
Proof.
  unfold np.argsort.
  assert (Hs : forall l, foldr np.insert_sorted [] l ≡ₚ l).
  { induction l as [|x l IH]; [done|]. simpl.
    by rewrite insert_sorted_perm, IH. }
  rewrite Hs, snd_zip; [done|].
  rewrite range_length. unfold Py.len. lia.
Qed.

Lemma slice_from_subset {A} (l : list A) (s : Z) (x : A) :
  x ∈ Py.slice_from l s -> x ∈ l.
Proof. unfold Py.slice_from. apply subseteq_drop. Qed.

Lemma slice_from_tail {A} (l : list A) (r : Z) :
  0 < r <= Py.len l ->
  length (Py.slice_from l (- r)) = Z.to_nat r /\
  forall x, x ∈ Py.slice_from l (- r) -> x ∈ l.
Proof.
  intros Hr. unfold Py.slice_from, Py.clip.
  destruct (Z.ltb_spec (- r) 0); [|lia]. split.
  - rewrite length_drop. unfold Py.len in *. lia.
  - intros x Hx. by eapply subseteq_drop.
Qed.

Lemma setitem_in_range {A} (l : list A) (i : Z) (x : A) :
  0 <= i < Py.len l -> Py.setitem l i x = Ok (<[Z.to_nat i := x]> l).
Proof. intros H. unfold Py.setitem. by rewrite position_in_range. Qed.

Lemma sum_insert (l : list Z) (i : nat) (n m : Z) :
  l !! i = Some n -> np.sum (<[i := m]> l) = np.sum l - n + m.
Proof.
  revert i. induction l as [|x l IH]; intros [|i] Hi; simplify_eq/=; [lia|].
  unfold np.sum in *. simpl. rewrite (IH i Hi). lia.
Qed.

Lemma sum_app (l k : list Z) : np.sum (l ++ k) = np.sum l + np.sum k.
Proof. unfold np.sum. induction l as [|x l IH]; simpl; lia. Qed.

Lemma sum_nonneg (l : list Z) : Forall (fun n => 0 <= n) l -> 0 <= np.sum l.
Proof. induction 1 as [|x l Hx _ IH]; unfold np.sum in *; simpl; lia. Qed.

Lemma elem_le_sum (l : list Z) (i : nat) (n : Z) :
  Forall (fun n => 0 <= n) l -> l !! i = Some n -> n <= np.sum l.
Proof.
  intros H. revert i. induction H as [|x l Hx Hl IH]; intros [|i] Hi;
    simplify_eq/=.
  - pose proof (sum_nonneg l Hl). unfold np.sum in *. simpl. lia.
  - specialize (IH i Hi). unfold np.sum in *. simpl. lia.
Qed.

Lemma int64_small (z : Z) : - 2 ^ 63 <= z < 2 ^ 63 -> np.int64 z = z.
Proof. intros H. unfold np.int64. rewrite Z.mod_small; lia. Qed.

(** Whatever the proportions, the counts of a class are computed, one
    per client. *)
Lemma class_counts_shape (row : list float64.t) (size : Z) :
  exists counts,
    Partition.class_counts row size = Ok counts /\
    length counts = length row.
Proof.
  unfold Partition.class_counts.
  set (fl := np.floor_scaled row size).
  assert (Hfl : length fl = length row).
  { unfold fl, np.floor_scaled. by rewrite length_fmap. }
  destruct (0 <? _); [|by exists fl].
  set (indices := Py.slice_from _ _).
  destruct (for_invariant
    (fun (_ : list Z) (spc : list Z) => length spc = length row)
    indices
    (fun idx spc =>
       n ← Py.getitem spc idx; Py.setitem spc idx (np.int64 (n + 1)))
    fl) as (counts & Hrun & Hl).
  - done.
  - intros pre idx post spc Hsplit Hl.
    assert (Hidx : 0 <= idx < Z.of_nat (length row)).
    { assert (Hi : idx ∈ indices).
      { rewrite Hsplit. apply elem_of_app. right. by left. }
      apply slice_from_subset in Hi. rewrite argsort_perm in Hi.
      apply elem_of_range in Hi. unfold Py.len in Hi. lia. }
    destruct (getitem_in_range spc idx) as (n & Hlook & ->).
    { unfold Py.len. lia. }
    cbn. rewrite setitem_in_range by (unfold Py.len; lia).
    eexists. split; [done|]. by rewrite length_insert.
  - by exists counts.
Qed.

Lemma well_scaled_spec (row : list float64.t) (size : Z) :
  well_scaled row size = true ->
  Forall (fun n => 0 <= n) (np.floor_scaled row size) /\
  0 <= size - np.sum (np.floor_scaled row size) <= Z.of_nat (length row).
Proof.
  unfold well_scaled. cbv zeta. rewrite !andb_true_iff.
  intros [[H1 H2] H3]. split.
  - apply Forall_forall. intros n Hn. rewrite forallb_forall in H1.
    apply list_elem_of_In, H1 in Hn. lia.
  - unfold Py.len in H3. lia.
Qed.

(** The counts of one class whose floored shares are well scaled: one
    per client, none negative, and they add up to the size of the
    class. *)
Lemma class_counts_spec (row : list float64.t) (size : Z) :
  size < 2 ^ 63 -> well_scaled row size = true ->
  exists counts,
    Partition.class_counts row size = Ok counts /\
    length counts = length row /\ Forall (fun n => 0 <= n) counts /\
    np.sum counts = size.
Proof.
  intros Hsize Hws. unfold Partition.class_counts.
  destruct (well_scaled_spec row size Hws) as [Hfl Hrem].
  assert (Hfl_len : length (np.floor_scaled row size) = length row).
  { unfold np.floor_scaled. by rewrite length_fmap. }
  set (fl := np.floor_scaled row size) in *.
  pose proof (sum_nonneg fl Hfl) as Hs0.
  rewrite (int64_small (np.sum fl)) by lia.
  rewrite (int64_small (size - np.sum fl)) by lia.
  destruct (Z.ltb_spec 0 (size - np.sum fl)) as [Hpos|Hzero].
  - set (r := size - np.sum fl) in *.
    rewrite (int64_small (- r)) by lia.
    destruct (slice_from_tail (np.argsort row) r) as [Hsl Hin].
    { unfold Py.len. rewrite (Permutation_length (argsort_perm row)), range_length.
      unfold Py.len. lia. }
    set (indices := Py.slice_from (np.argsort row) (- r)) in *.
    destruct (for_invariant
      (fun pre spc =>
         length spc = length row /\ Forall (fun n => 0 <= n) spc /\
         np.sum spc = np.sum fl + Z.of_nat (length pre))
      indices
      (fun idx spc =>
         n ← Py.getitem spc idx; Py.setitem spc idx (np.int64 (n + 1)))
      fl) as (counts & Hrun & Hcl & Hcn & Hcs).
    + split; [done|]. split; [done|]. simpl. lia.
    + intros pre idx post spc Hsplit (Hl & Hn & Hs).
      assert (Hidx : 0 <= idx < Z.of_nat (length row)).
      { assert (Hi : idx ∈ indices).
        { rewrite Hsplit. apply elem_of_app. right. by left. }
        apply Hin in Hi. rewrite argsort_perm in Hi.
        apply elem_of_range in Hi. unfold Py.len in Hi. lia. }
      assert (Hpre : Z.of_nat (length pre) < r).
      { pose proof (f_equal length Hsplit) as E.
        rewrite Hsl, length_app in E. simpl in E. lia. }
      destruct (getitem_in_range spc idx) as (n & Hlook & ->).
      { unfold Py.len. lia. }
      pose proof (elem_le_sum spc _ n Hn Hlook) as Hle.
      assert (Hn0 : 0 <= n).
      { rewrite Forall_lookup in Hn. by apply (Hn _ _ Hlook). }
      cbn. rewrite (int64_small (n + 1)) by lia.
      rewrite setitem_in_range by (unfold Py.len; lia).
      eexists. split; [done|]. split; [by rewrite length_insert|]. split.
      * apply Forall_insert; [done|]. lia.
      * rewrite (sum_insert _ _ _ _ Hlook), Hs, length_app. simpl. lia.
    + exists counts. split; [done|]. split; [done|]. split; [done|].
      rewrite Hcs, Hsl. lia.
  - exists fl. split; [done|]. split; [done|]. split; [done|]. lia.
Qed.

Lemma mapM_spec {A B} (P : A -> B -> Prop) (f : A -> result B) (l : list A) :
  (forall x, x ∈ l -> exists y, f x = Ok y /\ P x y) ->
  exists ys, mapM f l = Ok ys /\ Forall2 P l ys.
Proof.
  induction l as [|x l IH]; intros Hf.
  - exists []. by split.
  - destruct (Hf x) as (y & Hy & HP); [by left|].
    destruct IH as (ys & Hys & HF).
    { intros x' Hx'. apply Hf. by right. }
    exists (y :: ys). cbn. rewrite Hy. cbn. rewrite Hys. cbn.
    split; [done|]. by constructor.
Qed.


(** ** Handing out the counts *)

Lemma remaining_step (ss : list Z) (ci : list (list Z)) (m : nat)
  (s n : Z) (l : list Z) :
  ss !! m = Some s -> ci !! m = Some l -> 0 <= s -> 0 <= n ->
  remaining ss ci
  ≡ₚ take (Z.to_nat n) (drop (Z.to_nat s) l) ++ remaining (<[m := s + n]> ss) ci.
Proof.
  intros Hs Hl Hs0 Hn0. unfold remaining.
  revert ci m Hs Hl. induction ss as [|s0 ss IH]; intros [|l0 ci] [|m] Hs Hl;
    simplify_eq/=.
  - rewrite app_assoc. f_equal.
    rewrite Z2Nat.inj_add, <- drop_drop by lia. by rewrite take_drop.
  - rewrite (IH ci m Hs Hl). rewrite !app_assoc.
    apply Permutation_app_tail, Permutation_app_comm.
Qed.

Lemma splice_step {X} (A B : list X) (m : nat) (e : X) :
  A !! m = Some e -> (m < length B)%nat ->
  <[m := e]> (take m A ++ drop m B) = take (S m) A ++ drop (S m) B.
Proof.
  intros HA HB. pose proof (lookup_lt_Some _ _ _ HA) as HmA.
  destruct (lookup_lt_is_Some_2 B m HB) as [b Hb].
  rewrite (take_S_r _ _ _ HA), (drop_S _ _ _ Hb), <- app_assoc.
  rewrite insert_app_r_alt by (rewrite length_take; lia).
  rewrite length_take. replace (m - m `min` length A)%nat with 0%nat by lia.
  done.
Qed.

Lemma guarded_slice (l : list Z) (s n : Z) :
  0 <= s -> 0 <= n ->
  (if s <? Py.len l then Py.slice l s (s + n) else [])
  = take (Z.to_nat n) (drop (Z.to_nat s) l).
Proof.
  intros Hs Hn. destruct (Z.ltb_spec s (Py.len l)).
  - rewrite slice_in_range by lia. do 2 f_equal. lia.
  - rewrite drop_ge by (unfold Py.len in *; lia). by rewrite take_nil.
Qed.

Lemma extend_at_in_range {A} (ll : list (list A)) (i : Z) (xs : list A) :
  0 <= i < Py.len ll ->
  Py.extend_at ll i xs = Ok (alter (fun l => l ++ xs) (Z.to_nat i) ll).
Proof. intros H. unfold Py.extend_at. by rewrite position_in_range. Qed.

Lemma concat_replicate_nil {A} (n : nat) :
  concat (replicate n ([] : list A)) = [].
Proof. induction n as [|n IH]; [done|]. simpl. exact IH. Qed.

Section Distribute.

Context (cfg : Config.t) (nc : Z).
Let N := Config.NUM_CLIENTS cfg.
Context (class_indices : list (list Z)) (counts : list (list Z)).
Context (Hci : length class_indices = Z.to_nat nc).
Context (Hcounts : length counts = Z.to_nat nc).
Context (Hrows : forall m row, counts !! m = Some row ->
           length row = Z.to_nat N /\ Forall (fun n => 0 <= n) row /\
           exists l, class_indices !! m = Some l /\ np.sum row = Py.len l /\
                     Py.len l < 2 ^ 63).

Lemma served_lookup (k m : nat) (row : list Z) :
  counts !! m = Some row -> served counts k !! m = Some (np.sum (take k row)).
Proof. intros H. unfold served. by rewrite list_lookup_fmap, H. Qed.

Lemma sum_take_nonneg (k : nat) (row : list Z) :
  Forall (fun n => 0 <= n) row -> 0 <= np.sum (take k row).
Proof.
  intros H. revert k. induction H as [|x row Hx _ IH]; intros [|k]; simpl;
    unfold np.sum in *; simpl; try lia.
  specialize (IH k). lia.
Qed.

Lemma sum_take_le (k : nat) (row : list Z) :
  Forall (fun n => 0 <= n) row -> np.sum (take k row) <= np.sum row.
Proof.
  intros H. rewrite <- (take_drop k row) at 2. rewrite sum_app.
  assert (Hd : 0 <= np.sum (drop k row)); [|lia].
  apply sum_nonneg, Forall_forall. intros x Hx.
  rewrite Forall_forall in H. apply H. by eapply subseteq_drop.
Qed.

Lemma distribute_class (k : nat) (pre : list Z) (c : Z) (post : list Z)
  (cds : list (list Z)) (ss : list Z) :
  (k < Z.to_nat N)%nat ->
  Py.range nc = pre ++ c :: post ->
  Py.len cds = N ->
  ss = take (length pre) (served counts (S k))
       ++ drop (length pre) (served counts k) ->
  exists cds',
    Partition.distribute class_indices counts (Z.of_nat k) c (cds, ss)
    = Ok (cds', take (S (length pre)) (served counts (S k))
                ++ drop (S (length pre)) (served counts k)) /\
    Py.len cds' = N /\
    concat cds' ++ remaining
      (take (S (length pre)) (served counts (S k))
       ++ drop (S (length pre)) (served counts k)) class_indices
    ≡ₚ concat cds ++ remaining ss class_indices.
Proof.
  intros Hk Hsplit Hlen Hss.
  pose proof (range_split _ _ _ _ Hsplit) as Hc.
  set (m := length pre) in *.
  assert (Hm : (m < Z.to_nat nc)%nat).
  { pose proof (f_equal length Hsplit) as E.
    rewrite range_length, length_app in E. simpl in E. lia. }
  destruct (lookup_lt_is_Some_2 counts m ltac:(lia)) as [row Hrow].
  destruct (Hrows m row Hrow) as (Hrl & Hrn & l & Hl & Hsum & Hsmall).
  destruct (lookup_lt_is_Some_2 row k ltac:(lia)) as [n Hn].
  assert (Hn0 : 0 <= n).
  { rewrite Forall_lookup in Hrn. by apply (Hrn k n). }
  pose proof (sum_take_nonneg k row Hrn) as Hs0.
  set (s := np.sum (take k row)) in *.
  assert (Hssm : ss !! m = Some s).
  { rewrite Hss, lookup_app_r by (rewrite length_take; lia).
    rewrite length_take, lookup_drop.
    unfold served. rewrite length_fmap.
    replace (m + (m - m `min` length counts))%nat with m by lia.
    by rewrite list_lookup_fmap, Hrow. }
  assert (Hnext : served counts (S k) !! m = Some (s + n)).
  { rewrite (served_lookup _ _ _ Hrow), (take_S_r _ _ _ Hn), sum_app.
    unfold np.sum at 2. simpl. do 2 f_equal. lia. }
  assert (Hwrap : np.int64 (s + n) = s + n).
  { apply int64_small. pose proof (sum_take_le (S k) row Hrn) as Hle.
    rewrite (take_S_r _ _ _ Hn), sum_app in Hle.
    unfold np.sum at 2 in Hle. simpl in Hle. fold s in Hle. lia. }
  unfold Partition.distribute.
  rewrite (getitem_lookup counts c row), Hc by (rewrite ?Hc, ?Nat2Z.id; done || lia).
  cbn. rewrite (getitem_lookup row (Z.of_nat k) n) by (rewrite ?Nat2Z.id; done || lia).
  cbn. rewrite (getitem_lookup ss (Z.of_nat m) s) by (rewrite ?Nat2Z.id; done || lia).
  cbn. rewrite (getitem_lookup class_indices (Z.of_nat m) l)
    by (rewrite ?Nat2Z.id; done || lia).
  cbn. rewrite !Hwrap.
  assert (Hlenss : length ss = Z.to_nat nc).
  { rewrite Hss, length_app, length_take, length_drop.
    unfold served. rewrite !length_fmap. lia. }
  rewrite (setitem_in_range ss) by (unfold Py.len; lia).
  rewrite Nat2Z.id.
  assert (Hss' : <[m := s + n]> ss
                 = take (S m) (served counts (S k)) ++ drop (S m) (served counts k)).
  { rewrite Hss. apply splice_step; [done|].
    unfold served. rewrite length_fmap. lia. }
  pose proof (guarded_slice l s n Hs0 Hn0) as Hg.
  pose proof (remaining_step ss class_indices m s n l Hssm Hl Hs0 Hn0) as Hr.
  rewrite Hss' in Hr.
  destruct (Z.ltb_spec s (Py.len l)).
  - rewrite extend_at_in_range by lia. cbn. rewrite Hss'.
    eexists. split; [done|]. split.
    + unfold Py.len in *. by rewrite length_alter.
    + rewrite concat_alter_app by (unfold Py.len in *; lia).
      rewrite Hg, Hr. by rewrite app_assoc.
  - cbn. rewrite Hss'. exists cds. split; [done|]. split; [done|].
    rewrite Hr, <- Hg. done.
Qed.

Lemma distribute_client (pre : list Z) (kz : Z) (post : list Z)
  (cds : list (list Z)) :
  Py.range N = pre ++ kz :: post ->
  Py.len cds = N ->
  exists cds',
    Py.for_ (Py.range nc)
      (Partition.distribute class_indices counts kz)
      (cds, served counts (length pre))
    = Ok (cds', served counts (S (length pre))) /\
    Py.len cds' = N /\
    concat cds' ++ remaining (served counts (S (length pre))) class_indices
    ≡ₚ concat cds ++ remaining (served counts (length pre)) class_indices.
Proof.
  intros Hsplit Hlen.
  pose proof (range_split _ _ _ _ Hsplit) as Hkz.
  set (k := length pre) in *.
  assert (Hk : (k < Z.to_nat N)%nat).
  { pose proof (f_equal length Hsplit) as E.
    rewrite range_length, length_app in E. simpl in E. lia. }
  destruct (for_invariant
    (fun pre' (st : list (list Z) * list Z) =>
       Py.len st.1 = N /\
       st.2 = take (length pre') (served counts (S k))
              ++ drop (length pre') (served counts k) /\
       concat st.1 ++ remaining st.2 class_indices
       ≡ₚ concat cds ++ remaining (served counts k) class_indices)
    (Py.range nc)
    (Partition.distribute class_indices counts kz)
    (cds, served counts k)) as ([cds' ss'] & Hrun & Hl' & Hss' & Hp').
  - cbn [fst snd length]. split; [done|]. split; [|done].
    by rewrite take_0, drop_0.
  - intros pre' c post' [cds1 ss1] Hsplit' (Hl1 & Hss1 & Hp1).
    cbn [fst snd] in *.
    rewrite Hkz.
    destruct (distribute_class k pre' c post' cds1 ss1 Hk Hsplit' Hl1 Hss1)
      as (cds2 & -> & Hl2 & Hp2).
    eexists. split; [done|]. cbn [fst snd]. split; [done|]. split.
    + rewrite length_app. simpl. by rewrite Nat.add_1_r.
    + by rewrite Hp2.
  - cbn [fst snd] in *. exists cds'. rewrite Hrun.
    assert (Hfull : ss' = served counts (S k)).
    { rewrite Hss', range_length, take_ge, drop_ge.
      - by rewrite app_nil_r.
      - unfold served. rewrite length_fmap. lia.
      - unfold served. rewrite length_fmap. lia. }
    rewrite Hfull in *. done.
Qed.

Lemma distribute_all :
  0 <= N ->
  exists parts ss,
    Py.for_ (Py.range N)
      (fun client_idx st =>
         Py.for_ (Py.range nc)
           (Partition.distribute class_indices counts client_idx) st)
      (replicate (Z.to_nat N) [], replicate (Z.to_nat nc) 0)
    = Ok (parts, ss) /\
    Py.len parts = N /\
    concat parts ≡ₚ concat class_indices.
Proof.
  intros HN.
  assert (Hzero : replicate (Z.to_nat nc) 0 = served counts 0).
  { unfold served. rewrite <- Hcounts. clear.
    induction counts as [|row rows IH]; [done|]. simpl. by rewrite IH. }
  assert (Hstart : remaining (served counts 0) class_indices = concat class_indices).
  { rewrite <- Hzero. unfold remaining. clear -Hci. revert Hci.
    generalize (Z.to_nat nc). induction class_indices as [|l ls IH];
      intros n Hn.
    - by destruct n.
    - destruct n as [|n]; [done|]. injection Hn as Hn. simpl.
      by rewrite (IH n Hn). }
  assert (Hend : remaining (served counts (Z.to_nat N)) class_indices = []).
  { unfold remaining, served.
    assert (Hall : forall m row, counts !! m = Some row ->
              exists l, class_indices !! m = Some l /\
                        np.sum (take (Z.to_nat N) row) = Py.len l).
    { intros m row Hrow.
      destruct (Hrows m row Hrow) as (Hrl & _ & l & Hl & Hs & _).
      exists l. split; [done|]. by rewrite take_ge by lia. }
    clear -Hall Hci Hcounts. rewrite <- Hcounts in Hci. clear Hcounts.
    revert class_indices Hci Hall.
    induction counts as [|row rows IH]; intros [|l ls] Hlen Hall;
      simplify_eq/=; [done|].
    destruct (Hall 0%nat row eq_refl) as (l' & [= <-] & ->).
    rewrite drop_ge by (unfold Py.len; lia). simpl.
    apply IH; [done|]. intros m. apply (Hall (S m)). }
  destruct (for_invariant
    (fun pre (st : list (list Z) * list Z) =>
       Py.len st.1 = N /\
       st.2 = served counts (length pre) /\
       concat st.1 ++ remaining st.2 class_indices ≡ₚ concat class_indices)
    (Py.range N)
    (fun client_idx st =>
       Py.for_ (Py.range nc)
         (Partition.distribute class_indices counts client_idx) st)
    (replicate (Z.to_nat N) [], replicate (Z.to_nat nc) 0))
    as ([parts ss] & Hrun & Hl & Hss & Hp).
  - cbn [fst snd length]. split; [unfold Py.len; rewrite length_replicate; lia|].
    split; [done|]. rewrite Hzero, Hstart.
    by rewrite concat_replicate_nil.
  - intros pre kz post [cds ss] Hsplit (Hl & Hss & Hp). cbn [fst snd] in *.
    destruct (distribute_client pre kz post cds Hsplit Hl) as (cds' & Hrun' & Hl' & Hp').
    rewrite Hss, Hrun'. eexists. split; [done|]. cbn [fst snd].
    split; [done|]. split.
    + rewrite length_app. simpl. by rewrite Nat.add_1_r.
    + rewrite Hp', <- Hss. done.
  - cbn [fst snd] in *. exists parts, ss. split; [done|]. split; [done|].
    rewrite Hss, range_length, Hend, app_nil_r in Hp. done.
Qed.

End Distribute.


(** Whatever the counts, the distribution loops run to their end. *)
Lemma distribute_shape (class_indices counts : list (list Z)) (N nc kz c : Z)
  (cds : list (list Z)) (ss : list Z) :
  length class_indices = Z.to_nat nc -> length counts = Z.to_nat nc ->
  Forall (fun row => length row = Z.to_nat N) counts ->
  0 <= kz < N -> 0 <= c < nc -> Py.len cds = N -> Py.len ss = nc ->
  exists cds' ss',
    Partition.distribute class_indices counts kz c (cds, ss) = Ok (cds', ss') /\
    Py.len cds' = N /\ Py.len ss' = nc.
Proof.
  intros Hci Hcounts Hrows Hkz Hc Hcds Hss. unfold Partition.distribute.
  destruct (getitem_in_range counts c) as (row & Hrow & ->);
    [unfold Py.len; lia|]. cbn.
  rewrite Forall_lookup in Hrows. pose proof (Hrows _ _ Hrow) as Hrl.
  simpl in Hrl.
  destruct (getitem_in_range row kz) as (n & _ & ->); [unfold Py.len; lia|].
  cbn. destruct (getitem_in_range ss c) as (s & _ & ->); [lia|]. cbn.
  destruct (getitem_in_range class_indices c) as (l & _ & ->);
    [unfold Py.len; lia|]. cbn.
  destruct (s <? Py.len l).
  - rewrite extend_at_in_range by lia. cbn.
    rewrite setitem_in_range by lia. cbn. eexists _, _. split; [done|].
    unfold Py.len in *. by rewrite length_alter, length_insert.
  - cbn. rewrite setitem_in_range by lia. cbn. eexists _, _. split; [done|].
    unfold Py.len in *. by rewrite length_insert.
Qed.

Lemma distribute_all_shape (class_indices counts : list (list Z)) (N nc : Z) :
  length class_indices = Z.to_nat nc -> length counts = Z.to_nat nc ->
  Forall (fun row => length row = Z.to_nat N) counts ->
  0 <= N -> 0 <= nc ->
  exists parts ss,
    Py.for_ (Py.range N)
      (fun client_idx st =>
         Py.for_ (Py.range nc)
           (Partition.distribute class_indices counts client_idx) st)
      (replicate (Z.to_nat N) [], replicate (Z.to_nat nc) 0)
    = Ok (parts, ss) /\
    Py.len parts = N.
Proof.
  intros Hci Hcounts Hrows HN Hnc.
  destruct (for_invariant
    (fun (_ : list Z) (st : list (list Z) * list Z) =>
       Py.len st.1 = N /\ Py.len st.2 = nc)
    (Py.range N)
    (fun client_idx st =>
       Py.for_ (Py.range nc)
         (Partition.distribute class_indices counts client_idx) st)
    (replicate (Z.to_nat N) [], replicate (Z.to_nat nc) 0))
    as ([parts ss] & Hrun & Hl & _).
  - cbn [fst snd]. unfold Py.len. rewrite !length_replicate. lia.
  - intros pre kz post st Hsplit Hst.
    assert (Hkz : 0 <= kz < N).
    { apply elem_of_range. rewrite Hsplit. apply elem_of_app. right. by left. }
    destruct (for_invariant
      (fun (_ : list Z) (st : list (list Z) * list Z) =>
         Py.len st.1 = N /\ Py.len st.2 = nc)
      (Py.range nc)
      (Partition.distribute class_indices counts kz) st)
      as (st' & Hrun' & Hst').
    + done.
    + intros pre' c post' [cds1 ss1] Hsplit' [Hl1 Hs1]. cbn [fst snd] in *.
      assert (Hc : 0 <= c < nc).
      { apply elem_of_range. rewrite Hsplit'. apply elem_of_app. right.
        by left. }
      destruct (distribute_shape class_indices counts N nc kz c cds1 ss1)
        as (cds2 & ss2 & -> & Hl2 & Hs2); try done.
      by exists (cds2, ss2).
    + by exists st'.
  - by exists parts, ss.
Qed.

(** With a positive number of clients, labels in range and a positive
    concentration the Dirichlet policy returns one share per client,
    whatever proportions are drawn. *)
Lemma dirichlet_total (cfg : Config.t) (ds : dataset) (nc : Z) (alpha : option Q)
  (g gnp : rng) :
  0 < Config.NUM_CLIENTS cfg -> 0 <= nc ->
  labels_in_range ds nc = true ->
  (0 < default (Config.DIRICHLET_ALPHA cfg) alpha)%Q ->
  exists parts g' gnp',
    Partition.split_dataset_dirichlet cfg ds nc alpha g gnp
    = Ok (parts, g', gnp') /\
    Py.len parts = Config.NUM_CLIENTS cfg.
Proof.
  intros HN Hnc Hlab Halpha. unfold Partition.split_dataset_dirichlet.
  set (N := Config.NUM_CLIENTS cfg) in *.
  destruct (group_by_class_spec ds nc Hlab) as (ci0 & -> & Hlen0 & Hperm0 & _).
  cbn. pose proof (shuffle_each_spec ci0 g) as Hsh.
  destruct (Partition.shuffle_each ci0 g) as [ci g1]. simpl in Hsh.
  assert (Hci : length ci = Z.to_nat nc) by by rewrite (Forall2_length _ _ _ Hsh).
  unfold np.repeat. destruct (Z.ltb_spec N 0); [lia|]. cbn.
  rewrite (random_dirichlet_spec _ N nc gnp Halpha Hnc).
  pose proof (dirichlet_rows_spec (Z.to_nat nc) (Z.to_nat N) gnp) as [Hrl Hrows].
  destruct (np.dirichlet_rows _ _ gnp) as [rows gnp']. simpl in Hrl, Hrows.
  cbn.
  destruct (mapM_spec
    (fun (c : Z) (row : list Z) => length row = Z.to_nat N)
    (fun c =>
       indices_c ← Py.getitem ci c;
       proportions_c ← Py.getitem rows c;
       Partition.class_counts proportions_c (Py.len indices_c))
    (Py.range nc)) as (counts & -> & Hcounts).
  { intros c Hc. apply elem_of_range in Hc.
    destruct (getitem_in_range ci c) as (l & Hl & ->); [unfold Py.len; lia|].
    destruct (getitem_in_range rows c) as (row & Hrow & ->); [unfold Py.len; lia|].
    cbn. rewrite Forall_lookup in Hrows.
    destruct (class_counts_shape row (Py.len l)) as (cnt & -> & Hcl).
    exists cnt. split; [done|]. rewrite Hcl. by apply (Hrows _ _ Hrow). }
  cbn. rewrite zeros_nonneg by done. cbn.
  destruct (distribute_all_shape ci counts N nc) as (parts & ss & Hrun & Hl);
    try done; try lia.
  - rewrite <- (Forall2_length _ _ _ Hcounts). apply range_length.
  - apply Forall_forall. intros row Hrow.
    apply list_elem_of_lookup in Hrow as [m Hm].
    by destruct (Forall2_lookup_r _ _ _ _ _ Hcounts Hm) as (c & _ & HP).
  - rewrite Hrun. cbn. by exists parts, g1, gnp'.
Qed.

(** ** Every policy *)

(** The IID and label-skew policies hand out every index exactly
    once. *)
Lemma split_dataset_cover (cfg : Config.t) (ds : dataset) (nc : Z)
  (policy : string) (g gnp : rng) :
  0 < Config.NUM_CLIENTS cfg ->
  labels_in_range ds nc = true ->
  policy = "iid"%string \/ policy = "label_skew"%string ->
  exists parts g' gnp',
    Partition.split_dataset cfg ds nc (Some policy) g gnp
    = Ok (parts, g', gnp') /\
    Py.len parts = Config.NUM_CLIENTS cfg /\
    covers parts (Py.len ds).
Proof.
  intros HN Hlab Hpol. unfold Partition.split_dataset, covers.
  destruct Hpol as [->| ->]; cbn.
  - destruct (iid_cover cfg ds nc g HN) as (parts & g' & -> & Hl & Hp).
    cbn. by exists parts, g', gnp.
  - destruct (non_iid_run cfg HN ds nc g Hlab) as (parts & g' & -> & Hl & Hp & _).
    cbn. by exists parts, g', gnp.
Qed.

(** Every policy returns one share per client. *)
Lemma split_dataset_total (cfg : Config.t) (ds : dataset) (nc : Z)
  (policy : string) (g gnp : rng) :
  0 < Config.NUM_CLIENTS cfg -> 0 <= nc ->
  labels_in_range ds nc = true ->
  (0 < Config.DIRICHLET_ALPHA cfg)%Q ->
  policy ∈ policies ->
  exists parts g' gnp',
    Partition.split_dataset cfg ds nc (Some policy) g gnp
    = Ok (parts, g', gnp') /\
    Py.len parts = Config.NUM_CLIENTS cfg.
Proof.
  intros HN Hnc Hlab Halpha Hpol.
  unfold policies in Hpol. rewrite !elem_of_cons, elem_of_nil in Hpol.
  destruct Hpol as [->|[->|[->|[]]]].
  - destruct (split_dataset_cover cfg ds nc "iid" g gnp HN Hlab)
      as (parts & g' & gnp' & Hrun & Hl & _); [by left|].
    by exists parts, g', gnp'.
  - destruct (split_dataset_cover cfg ds nc "label_skew" g gnp HN Hlab)
      as (parts & g' & gnp' & Hrun & Hl & _); [by right|].
    by exists parts, g', gnp'.
  - unfold Partition.split_dataset. cbn. by apply dirichlet_total.
Qed.

Lemma elem_of_concat (parts : list (list Z)) (x : Z) :
  x ∈ concat parts <-> exists a pa, parts !! a = Some pa /\ x ∈ pa.
Proof.
  split.
  - intros Hx. apply list_elem_of_In, in_concat in Hx as (pa & Hpa & Hx).
    apply list_elem_of_In, list_elem_of_lookup in Hpa as [a Ha].
    exists a, pa. split; [done|]. by apply list_elem_of_In.
  - intros (a & pa & Ha & Hx). apply list_elem_of_In, in_concat.
    exists pa. split; apply list_elem_of_In; [|done].
    by eapply list_elem_of_lookup_2.
Qed.

Lemma NoDup_concat_disjoint (parts : list (list Z)) (a b : nat)
  (pa pb : list Z) (x : Z) :
  NoDup (concat parts) -> (a < b)%nat ->
  parts !! a = Some pa -> parts !! b = Some pb -> x ∈ pa -> x ∉ pb.
Proof.
  revert a b. induction parts as [|p ps IH]; intros a b Hnd Hab Ha Hb Hx; [done|].
  simpl in Hnd. apply NoDup_app in Hnd as (_ & Hdis & Hps).
  destruct a as [|a], b as [|b]; try lia; simplify_eq/=.
  - intros Hxb. apply (Hdis x Hx). apply elem_of_concat. eauto.
  - eapply (IH a b); eauto. lia.
Qed.

Lemma covers_partitions (parts : list (list Z)) (n : Z) :
  0 <= n -> covers parts n -> partitions parts n.
Proof.
  intros Hn Hc. unfold covers in Hc.
  assert (Hnd : NoDup (concat parts)).
  { rewrite Hc. unfold Py.range. apply NoDup_fmap_2; [|apply NoDup_seq].
    intros ? ?. apply Nat2Z.inj. }
  split; [|split; [|split; [|split]]].
  - rewrite (Permutation_length Hc), range_length. lia.
  - intros a b pa pb x Hab Ha Hb Hx Hxb.
    destruct (Nat.lt_total a b) as [Hlt|[->|Hlt]]; [|done|].
    + by eapply (NoDup_concat_disjoint parts a b).
    + by eapply (NoDup_concat_disjoint parts b a).
  - intros x Hx. apply elem_of_concat. rewrite Hc. by apply elem_of_range.
  - done.
  - intros x Hx. rewrite Hc in Hx. by apply elem_of_range.
Qed.

(** C1, at an input where the code fails it: four clients, ten samples
    in two classes, the Dirichlet policy, and proportions that are all
    NaN, as numpy returns them for a concentration of 1e-5.  The floored
    counts are [-2^63], their sum wraps around to 0, every client's count
    becomes [-2^63 + 1], and the slices the loop cuts are empty for
    clients 0 and 2, the first two indices of each class for client 1
    and the first four for client 3: twelve indices are handed out,
    eight of them twice, and indices 3 and 6 are handed to nobody. *)
Theorem dirichlet_nan_rows_lose_samples :
  (np.dirichlet_rows 2 4 (seeded zero_tape)).1
  = replicate 2 (replicate 4 float64.NaN) /\
  Partition.class_counts (replicate 4 float64.NaN) 5
  = Ok (replicate 4 (- 2 ^ 63 + 1)) /\
  exists parts g' gnp',
    Partition.split_dataset (with_alpha (1 # 100000)) (balanced 2 10) 2
      (Some "dirichlet"%string) (seeded odd_tape) (seeded zero_tape)
    = Ok (parts, g', gnp') /\
    parts = [[]; [2; 0; 9; 7]; []; [2; 0; 8; 4; 9; 7; 1; 5]] /\
    ~ covers parts (Py.len (balanced 2 10)) /\
    (3 ∉ concat parts) /\ (6 ∉ concat parts) /\
    ~ NoDup (concat parts).
Proof.
  split; [by vm_compute|]. split; [by vm_compute|].
  eexists _, _, _. split; [vm_compute; reflexivity|]. split; [done|].
  split; [|split; [|split]].
  - intros Hc. apply Permutation_length in Hc. by vm_compute in Hc.
  - simpl. rewrite !not_elem_of_cons. repeat split; try done.
    apply not_elem_of_nil.
  - simpl. rewrite !not_elem_of_cons. repeat split; try done.
    apply not_elem_of_nil.
  - simpl. intros Hnd. apply NoDup_cons in Hnd as [Hn _]. apply Hn.
    rewrite !elem_of_cons. auto 10.
Qed.

Lemma preferred_for_single (cfg : Config.t) (nc c : Z) :
  0 < Config.NUM_CLIENTS cfg ->
  preferred_for cfg nc c = Ok [c mod Config.NUM_CLIENTS cfg].
Proof.
  intros HN. unfold preferred_for, Partition.block_widths, Py.floordiv.
  set (N := Config.NUM_CLIENTS cfg) in *.
  assert (Hcpc : forall cpc, cpc = 1 ->
            Partition.preferred_clients cfg cpc c = Ok [c mod N]).
  { intros cpc ->. unfold Partition.preferred_clients, Py.mod_. fold N.
    destruct (Z.eqb_spec N 0); [lia|]. cbn [mbind result_bind].
    rewrite Z.mul_1_r.
    pose proof (Z.mod_pos_bound c N HN) as Hb.
    rewrite Z.min_l by lia. unfold Py.range2.
    replace (Z.to_nat (c mod N + 1 - c mod N)) with 1%nat by lia.
    cbn. by rewrite Z.add_0_r. }
  destruct (Z.leb_spec N nc).
  - destruct (Z.eqb_spec nc 0); [lia|]. cbn [mbind result_bind].
    apply Hcpc.
    assert (N / nc <= 1).
    { apply Z.div_le_upper_bound; lia. }
    lia.
  - destruct (Z.eqb_spec N 0); [lia|]. cbn [mbind result_bind]. by apply Hcpc.
Qed.

(** C4. Under the label-skew policy every sample is assigned to one
    client, and a sample of class [c] goes, when [Q] is 1, to a client
    preferred for [c], and, when [Q] is 0 and one of the clients
    [0 .. NUM_CLIENTS - 1] is not preferred for [c], to a client that is
    not preferred for [c]. *)
Theorem label_skew_extremes (cfg : Config.t) (ds : dataset) (nc : Z) (g : rng) :
  0 < Config.NUM_CLIENTS cfg ->
  labels_in_range ds nc = true ->
  exists parts g',
    Partition.split_dataset_non_iid cfg ds nc g = Ok (parts, g') /\
    covers parts (Py.len ds) /\
    forall client share idx,
      parts !! client = Some share -> idx ∈ share ->
      exists data c preferred,
        ds !! Z.to_nat idx = Some (data, c) /\
        preferred_for cfg nc c = Ok preferred /\
        (Config.Q cfg == 1 -> Z.of_nat client ∈ preferred)%Q /\
        ((Config.Q cfg == 0)%Q ->
         (exists other, 0 <= other < Config.NUM_CLIENTS cfg /\
                        other ∉ preferred) ->
         Z.of_nat client ∉ preferred).
Proof.
  intros HN Hlab.
  destruct (non_iid_run cfg HN ds nc g Hlab)
    as (parts & g' & Hrun & _ & Hcover & Hall).
  exists parts, g'. split; [done|]. split; [exact Hcover|].
  intros client share idx Hshare Hidx.
  destruct (Hall client share idx Hshare Hidx)
    as (_ & data & c & Hdata & pref & Hpref & _ & HQ1 & HQ0).
  exists data, c, pref. split; [done|]. split; [done|]. split.
  - intros E. apply HQ1. rewrite E. apply Qle_refl.
  - intros E (other & Hrange & Hother). apply HQ0.
    + rewrite E. apply Qle_refl.
    + intros Hnil.
      assert (other ∈ Partition.other_clients_of cfg pref) as Hin
        by (by apply other_clients_spec).
      rewrite Hnil in Hin. by apply elem_of_nil in Hin.
Qed.

(** C7, as stated, fails: with a participant count of -1 the IID policy
    returns normally, with no share at all; with a count of 0 it fails
    with a division error, not a configuration error. *)
Lemma split_dataset_accepts_negative_count :
  (exists g',
     Partition.split_dataset (with_clients (-1) 1) (balanced 2 10) 2
       (Some "iid"%string) (seeded odd_tape) (seeded zero_tape)
     = Ok ([], g', seeded zero_tape)) /\
  Partition.split_dataset (with_clients 0 1) (balanced 2 10) 2
    (Some "iid"%string) (seeded odd_tape) (seeded zero_tape)
  = Raise ZeroDivisionError.
Proof. split; [eexists|]; vm_compute; reflexivity. Qed.

(** C7, amended. A policy name that is not one of the three recognised
    values fails with a configuration error ([ValueError]).  The
    participant count is not checked: under the IID policy a count of 0
    fails with [ZeroDivisionError] and a negative count returns the empty
    list of shares.  With a positive count, a recognised policy, labels in
    [[0, num_classes)] and a positive Dirichlet concentration the
    partition returns normally. *)
Theorem split_dataset_failures (cfg : Config.t) (ds : dataset) (nc : Z)
  (g gnp : rng) :
  (forall name, name ∉ policies ->
     Partition.split_dataset cfg ds nc (Some name) g gnp = Raise ValueError) /\
  (Config.NUM_CLIENTS cfg = 0 ->
     Partition.split_dataset cfg ds nc (Some "iid"%string) g gnp
     = Raise ZeroDivisionError) /\
  (Config.NUM_CLIENTS cfg < 0 ->
     exists g', Partition.split_dataset cfg ds nc (Some "iid"%string) g gnp
                = Ok ([], g', gnp)) /\
  (0 < Config.NUM_CLIENTS cfg -> 0 <= nc ->
   labels_in_range ds nc = true -> (0 < Config.DIRICHLET_ALPHA cfg)%Q ->
   forall name, name ∈ policies ->
     is_Ok (Partition.split_dataset cfg ds nc (Some name) g gnp)).
Proof.
  split; [|split; [|split]].
  - intros name Hname. unfold Partition.split_dataset. cbn [from_option id].
    unfold policies in Hname. rewrite !not_elem_of_cons in Hname.
    destruct Hname as (H1 & H2 & H3 & _).
    apply String.eqb_neq in H1, H2, H3. by rewrite H1, H2, H3.
  - intros H0. unfold Partition.split_dataset, Partition.split_dataset_iid.
    cbn. destruct (random.shuffle _ g) as [indices g']. rewrite H0. done.
  - intros Hneg. unfold Partition.split_dataset, Partition.split_dataset_iid.
    cbn. destruct (random.shuffle _ g) as [indices g']. unfold Py.floordiv.
    destruct (Z.eqb_spec (Config.NUM_CLIENTS cfg) 0); [lia|]. cbn.
    exists g'. unfold Py.range.
    replace (Z.to_nat (Config.NUM_CLIENTS cfg)) with 0%nat by lia. done.
  - intros HN Hnc Hlab Halpha name Hname.
    destruct (split_dataset_total cfg ds nc name g gnp HN Hnc Hlab Halpha Hname)
      as (parts & g' & gnp' & -> & _). done.
Qed.

Lemma label_skew_extremes_witness :
  (exists parts g',
     Partition.split_dataset_non_iid (with_clients 4 1) (balanced 2 10) 2
       (seeded odd_tape) = Ok (parts, g') /\
     covers parts 10 /\
     forall client share idx,
       parts !! client = Some share -> idx ∈ share ->
       exists data c preferred,
         balanced 2 10 !! Z.to_nat idx = Some (data, c) /\
         preferred_for (with_clients 4 1) 2 c = Ok preferred /\
         Z.of_nat client ∈ preferred) /\
  (exists parts g',
     Partition.split_dataset_non_iid (with_clients 4 0) (balanced 2 10) 2
       (seeded odd_tape) = Ok (parts, g') /\
     covers parts 10 /\
     forall client share idx,
       parts !! client = Some share -> idx ∈ share ->
       exists data c preferred,
         balanced 2 10 !! Z.to_nat idx = Some (data, c) /\
         preferred_for (with_clients 4 0) 2 c = Ok preferred /\
         Z.of_nat client ∉ preferred).
Proof.
  split.
  - destruct (label_skew_extremes (with_clients 4 1) (balanced 2 10) 2
                (seeded odd_tape))
      as (parts & g' & Hrun & Hcover & Hall); [reflexivity | reflexivity |].
    exists parts, g'. split; [exact Hrun|]. split; [exact Hcover|].
    intros client share idx Hshare Hidx.
    destruct (Hall client share idx Hshare Hidx)
      as (data & c & preferred & Hdata & Hpref & HQ1 & _).
    exists data, c, preferred. split; [exact Hdata|]. split; [exact Hpref|].
    apply HQ1. reflexivity.
  - destruct (label_skew_extremes (with_clients 4 0) (balanced 2 10) 2
                (seeded odd_tape))
      as (parts & g' & Hrun & Hcover & Hall); [reflexivity | reflexivity |].
    exists parts, g'. split; [exact Hrun|]. split; [exact Hcover|].
    intros client share idx Hshare Hidx.
    destruct (Hall client share idx Hshare Hidx)
      as (data & c & preferred & Hdata & Hpref & _ & HQ0).
    exists data, c, preferred. split; [exact Hdata|]. split; [exact Hpref|].
    apply HQ0; [reflexivity|].
    rewrite (preferred_for_single (with_clients 4 0) 2 c) in Hpref
      by reflexivity.
    injection Hpref as <-. exists ((c + 1) mod 4). simpl.
    split; [apply Z.mod_pos_bound; lia|].
    rewrite not_elem_of_cons. split; [|apply not_elem_of_nil].
    clear. Z.div_mod_to_equations. lia.
Defined.

Lemma split_dataset_failures_witness :
  Partition.split_dataset (with_clients 0 1) (balanced 2 10) 2
    (Some "iid"%string) (seeded odd_tape) (seeded zero_tape)
  = Raise ZeroDivisionError /\
  is_Ok (Partition.split_dataset (with_clients 4 1) (balanced 2 10) 2
           (Some "label_skew"%string) (seeded odd_tape) (seeded zero_tape)).
Proof.
  split.
  - apply (split_dataset_failures (with_clients 0 1) (balanced 2 10) 2
             (seeded odd_tape) (seeded zero_tape)). reflexivity.
  - apply (split_dataset_failures (with_clients 4 1) (balanced 2 10) 2
             (seeded odd_tape) (seeded zero_tape));
      [reflexivity | discriminate | reflexivity | reflexivity
      | repeat constructor].
Defined.

(* ================================================================= *)
(** * Further properties *)


(** ** Sampling without replacement *)

Lemma randbelow_bounds (n : Z) (g : rng) :
  0 < n -> 0 <= (random.randbelow n g).1 < n.
Proof.
  intros Hn. unfold random.randbelow. destruct (next_raw g) as [r g'].
  simpl. by apply Z.mod_pos_bound.
Qed.

Lemma pool_step {A} (pool : list A) (j live : nat) (x y : A) :
  (j < live)%nat -> pool !! j = Some x -> pool !! (live - 1)%nat = Some y ->
  x :: take (live - 1) (<[j := y]> pool) ≡ₚ take live pool.
Proof.
  intros Hj Hx Hy.
  replace live with (S (live - 1)) at 2 by lia.
  rewrite (take_S_r _ _ _ Hy).
  destruct (decide (j = live - 1)%nat) as [->|Hne].
  - rewrite take_insert_ge by lia. assert (x = y) as -> by congruence.
    apply Permutation_cons_append.
  - rewrite take_insert_lt by lia.
    set (l := take (live - 1) pool).
    assert (Hl : l !! j = Some x).
    { unfold l. rewrite lookup_take_lt by lia. done. }
    rewrite insert_take_drop by (by eapply lookup_lt_Some).
    rewrite <- (take_drop_middle l j x Hl) at 3.
    rewrite <- Permutation_cons_append, <- !Permutation_middle.
    apply perm_swap.
Qed.

Lemma sample_loop_spec {A} (k live : nat) (pool : list A) (g : rng) :
  (k <= live <= length pool)%nat ->
  length (random.sample_loop k live pool g).1 = k /\
  exists rest, (random.sample_loop k live pool g).1 ++ rest ≡ₚ take live pool.
Proof.
  revert live pool g. induction k as [|k IH]; intros live pool g Hk.
  - split; [done|]. by exists (take live pool).
  - cbn [random.sample_loop].
    pose proof (randbelow_bounds (Z.of_nat live) g ltac:(lia)) as Hj.
    destruct (random.randbelow (Z.of_nat live) g) as [j g']. simpl in Hj.
    destruct (lookup_lt_is_Some_2 pool (Z.to_nat j) ltac:(lia)) as [x Hx].
    destruct (lookup_lt_is_Some_2 pool (live - 1) ltac:(lia)) as [y Hy].
    rewrite Hx, Hy.
    destruct (IH (live - 1)%nat (<[Z.to_nat j := y]> pool) g') as [Hlen (rest & Hp)].
    { rewrite length_insert. lia. }
    destruct (random.sample_loop k _ _ g') as [res g'']. simpl in *.
    split; [by rewrite Hlen|]. exists rest.
    rewrite Hp. apply pool_step; [lia|done|done].
Qed.

(** A valid request is served: as many entries as asked for, all of
    them from the population and none used twice. *)
Lemma sample_spec {A} (population : list A) (k : Z) (g : rng) :
  0 <= k <= Py.len population ->
  exists res g' rest,
    random.sample population k g = Ok (res, g') /\
    Py.len res = k /\ res ++ rest ≡ₚ population.
Proof.
  intros Hk. unfold random.sample.
  destruct (Z.ltb_spec k 0); [lia|].
  destruct (Z.ltb_spec (Py.len population) k); [lia|]. simpl.
  destruct (sample_loop_spec (Z.to_nat k) (length population) population g)
    as [Hlen (rest & Hp)].
  { unfold Py.len in *. lia. }
  destruct (random.sample_loop _ _ _ g) as [res g']. simpl in *.
  exists res, g', rest. split; [done|]. split.
  - unfold Py.len. lia.
  - by rewrite Hp, firstn_all.
Qed.

Lemma sample_negative {A} (population : list A) (k : Z) (g : rng) :
  k < 0 -> random.sample population k g = Raise ValueError.
Proof.
  intros Hk. unfold random.sample. by destruct (Z.ltb_spec k 0); [|lia].
Qed.

(** ** The root subset *)

Lemma elem_of_indices_with (c : Z) (ds : dataset) (i : Z) :
  i ∈ Root.indices_with c ds <->
  0 <= i /\ exists data, ds !! Z.to_nat i = Some (data, c).
Proof.
  unfold Root.indices_with. rewrite list_elem_of_fmap. split.
  - intros ([i' [data label]] & -> & Hin).
    apply list_elem_of_filter in Hin as [Hc Hin]. simpl in *. subst label.
    apply elem_of_enumerate in Hin as [? ?]. eauto.
  - intros (Hi & data & Hd). exists (i, (data, c)). split; [done|].
    apply list_elem_of_filter. split; [done|]. by apply elem_of_enumerate.
Qed.


Lemma NoDup_range (n : Z) : NoDup (Py.range n).
Proof.
  unfold Py.range. apply NoDup_fmap_2; [|apply NoDup_seq].
  intros ? ?. apply Nat2Z.inj.
Qed.

Lemma NoDup_filtered_indices (P : Z * sample -> Prop)
  `{!forall p, Decision (P p)} (ds : dataset) :
  NoDup (fst <$> filter P (Py.enumerate ds)).
Proof.
  eapply sublist_NoDup; [|apply fmap_sublist, sublist_filter].
  rewrite enumerate_fst. apply NoDup_range.
Qed.

Lemma sample_indices (pool : list Z) (k : Z) (g : rng) :
  NoDup pool -> 0 <= k ->
  exists res g',
    random.sample pool (Z.min k (Py.len pool)) g = Ok (res, g') /\
    Py.len res = Z.min k (Py.len pool) /\
    NoDup res /\ forall i, i ∈ res -> i ∈ pool.
Proof.
  intros Hnd Hk.
  destruct (sample_spec pool (Z.min k (Py.len pool)) g)
    as (res & g' & rest & Hrun & Hlen & Hp).
  { pose proof (len_nonneg pool). lia. }
  exists res, g'. split; [done|]. split; [done|].
  rewrite <- Hp in Hnd. apply NoDup_app in Hnd as (Hres & _ & _).
  split; [done|]. intros i Hi. rewrite <- Hp. apply elem_of_app. by left.
Qed.


Lemma NoDup_indices_with (c : Z) (ds : dataset) : NoDup (Root.indices_with c ds).
Proof. apply NoDup_filtered_indices. Qed.


(** X20. With a bias probability of one and a non-negative requested
    size, the root subset holds [min(root_size, number of bias-class
    samples)] distinct valid indices, all of the bias class. *)
Theorem root_fully_biased (cfg : Config.t) (ds : dataset) (nc : Z) (g : rng) :
  (Config.BIAS_PROBABILITY cfg == 1)%Q ->
  0 <= Root.root_size cfg ds ->
  exists root g',
    Root.create_root_dataset cfg ds nc g = Ok (root, g') /\
    Py.len root
    = Z.min (Root.root_size cfg ds)
            (Py.len (Root.indices_with (Config.BIAS_CLASS cfg) ds)) /\
    NoDup root /\
    forall i, i ∈ root ->
      0 <= i /\ exists data, ds !! Z.to_nat i = Some (data, Config.BIAS_CLASS cfg).
Proof.
  intros Hbp Hsize. unfold Root.create_root_dataset.
  rewrite (proj2 (Qeq_bool_iff _ _) Hbp).
  destruct (sample_indices (Root.indices_with (Config.BIAS_CLASS cfg) ds)
              (Root.root_size cfg ds) g (NoDup_indices_with _ _) Hsize)
    as (root & g' & Hrun & Hlen & Hnd & Hin).
  exists root, g'. split; [done|]. split; [done|]. split; [done|].
  intros i Hi. by apply elem_of_indices_with, Hin.
Qed.



(** X22. A negative requested size [root_size] (a negative
    [ROOT_DATASET_SIZE], or under dynamic sizing a product that [int]
    turns into a negative integer) makes [create_root_dataset] raise
    [ValueError], whatever the bias probability. *)
Theorem root_negative_size (cfg : Config.t) (ds : dataset) (nc : Z) (g : rng) :
  Root.root_size cfg ds < 0 ->
  Root.create_root_dataset cfg ds nc g = Raise ValueError.
Proof.
  intros Hneg. unfold Root.create_root_dataset.
  set (size := Root.root_size cfg ds) in *.
  destruct (Qeq_bool _ 1).
  - apply sample_negative. lia.
  - set (bs := Py.int _).
    destruct (Z.lt_ge_cases bs 0) as [Hb|Hb].
    + rewrite sample_negative by lia. done.
    + destruct (sample_spec
                  (Root.indices_with (Config.BIAS_CLASS cfg) ds)
                  (Z.min bs (Py.len (Root.indices_with (Config.BIAS_CLASS cfg) ds)))
                  g) as (res & g' & rest & -> & _).
      { pose proof (len_nonneg (Root.indices_with (Config.BIAS_CLASS cfg) ds)). lia. }
      cbn [mbind result_bind]. rewrite sample_negative by lia. done.
Qed.



(** ** Reading a wrapper *)

Lemma getitem_out_of_range {A} (l : list A) (i : Z) :
  Py.len l <= i \/ i < - Py.len l -> Py.getitem l i = Raise IndexError.
Proof.
  intros H. unfold Py.getitem, Py.position.
  pose proof (len_nonneg l).
  destruct (Z.ltb_spec i 0).
  - destruct (Z.ltb_spec (i + Py.len l) 0); [done|lia].
  - destruct (Z.ltb_spec i 0); [lia|].
    destruct (Z.leb_spec (Py.len l) i); [done|lia].
Qed.

Lemma getitem_elem {A} (l : list A) (i : Z) (x : A) :
  Py.getitem l i = Ok x -> x ∈ l.
Proof.
  unfold Py.getitem. destruct (Py.position _ _) as [p|]; [|done]. cbn.
  destruct (l !! p) eqn:E; [|done]. intros [= <-].
  by eapply list_elem_of_lookup_2.
Qed.

(** X12. Every wrapper raises [IndexError] when read at a subscript at
    or beyond its length, or below minus its length. *)
Theorem index_out_of_range (w : Attack.wrapper) (idx : Z) (g : rng) :
  Attack.len w <= idx \/ idx < - Attack.len w ->
  Attack.getitem w idx g = Raise IndexError.
Proof.
  intros H. unfold Attack.len in H.
  destruct w; cbn [Attack.getitem Attack.source] in *;
    rewrite (getitem_out_of_range ds idx H); reflexivity.
Qed.

(** X13. No wrapper but Backdoor touches the data: whatever a read
    returns, its data is the data the source holds at that subscript. *)
Theorem data_unchanged (w : Attack.wrapper) (idx : Z) (g g' : rng)
  (data : torch.tensor) (label : Z) :
  (forall ds nc tl tr, w <> Attack.BackdoorDataset ds nc tl tr) ->
  Attack.getitem w idx g = Ok ((data, label), g') ->
  exists label0, Py.getitem (Attack.source w) idx = Ok (data, label0).
Proof.
  intros Hw. destruct w; simpl; try (by edestruct Hw);
    destruct (Py.getitem ds idx) as [[d l0]|]; cbn; try done.
  - intros [= <- _ _]. eauto.
  - intros [= <- _ _]. eauto.
  - destruct (Py.getitem confusion_map l0); cbn; [|done].
    intros [= <- _ _]. eauto.
  - destruct (Py.getitem prob_map l0); cbn; [|done].
    destruct (torch.multinomial1 _ _) as [[]|]; cbn; [|done].
    intros [= <- _ _]. eauto.
  - destruct (idx mod 2 =? 0).
    + destruct (Py.getitem alternating_offset idx); cbn; [|done].
      intros [= <- _ _]. eauto.
    + intros [= <- _ _]. eauto.
  - destruct (l0 =? target_class); intros [= <- _ _]; eauto.
  - destruct (Py.getitem quarter_map idx); cbn; [|done].
    destruct (Py.getitem _ _) as [strategy|]; cbn; [|done].
    destruct (strategy l0); cbn; [|done].
    intros [= <- _ _]. eauto.
Qed.

Lemma reads_ignore_generator (w : Attack.wrapper) (idx : Z) (g1 g2 : rng) :
  (forall ds nc pm, w <> Attack.MinSumAttackDataset ds nc pm) ->
  fst <$> Attack.getitem w idx g1 = fst <$> Attack.getitem w idx g2 /\
  snd <$> Attack.getitem w idx g1 = (fun _ => g1) <$> Attack.getitem w idx g1.
Proof.
  intros Hw. destruct w; simpl; try (by edestruct Hw);
    destruct (Py.getitem ds idx) as [[d l0]|]; cbn; try done.
  - by destruct (torch.add d trigger).
  - by destruct (Py.getitem confusion_map l0).
  - destruct (idx mod 2 =? 0); [|done].
    by destruct (Py.getitem alternating_offset idx).
  - by destruct (l0 =? target_class).
  - destruct (Py.getitem quarter_map idx); cbn; [|done].
    destruct (Py.getitem _ _) as [strategy|]; cbn; [|done].
    by destruct (strategy l0).
Qed.

(** X14. Every wrapper but Min-Sum reads without touching the
    generator: a successful read leaves the generator as it was and
    returns the same sample from any other generator state, so repeated
    reads of an index agree. *)
Theorem reads_repeatable (w : Attack.wrapper) (idx : Z) (g1 g2 g' : rng)
  (s : sample) :
  (forall ds nc pm, w <> Attack.MinSumAttackDataset ds nc pm) ->
  Attack.getitem w idx g1 = Ok (s, g') ->
  g' = g1 /\ Attack.getitem w idx g2 = Ok (s, g2).
Proof.
  intros Hw Hget.
  destruct (reads_ignore_generator w idx g1 g2 Hw) as [Hfst _].
  destruct (reads_ignore_generator w idx g1 g1 Hw) as [_ Hsnd1].
  destruct (reads_ignore_generator w idx g2 g2 Hw) as [_ Hsnd2].
  rewrite Hget in Hfst, Hsnd1. cbn in Hfst, Hsnd1.
  injection Hsnd1 as ->. split; [done|].
  destruct (Attack.getitem w idx g2) as [[s2 g2']|]; [|done].
  cbn in Hfst, Hsnd2. injection Hfst as <-. by injection Hsnd2 as ->.
Qed.

(** ** Two runs of a wrapper *)

Lemma next_raw_same (g1 g2 : rng) :
  same_state g1 g2 ->
  (next_raw g1).1 = (next_raw g2).1 /\
  same_state (next_raw g1).2 (next_raw g2).2.
Proof.
  intros [Hc Ht]. unfold next_raw, same_state. simpl.
  rewrite Hc, Ht. auto.
Qed.

Lemma draws_same (n : nat) (high : Z) (g1 g2 : rng) :
  same_state g1 g2 ->
  (np.draws n high g1).1 = (np.draws n high g2).1.
Proof.
  revert g1 g2. induction n as [|n IH]; intros g1 g2 Hs; [done|].
  cbn [np.draws].
  destruct (next_raw_same g1 g2 Hs) as [Hr Hs'].
  destruct (next_raw g1) as [r1 g1'], (next_raw g2) as [r2 g2'].
  simpl in Hr, Hs'. subst r2. specialize (IH g1' g2' Hs').
  destruct (np.draws n high g1'), (np.draws n high g2').
  simpl in *. by subst.
Qed.

Lemma randint_same (low high size : Z) (g1 g2 : rng) :
  same_state g1 g2 ->
  fst <$> np.random_randint low high size g1
  = fst <$> np.random_randint low high size g2.
Proof.
  intros Hs. unfold np.random_randint.
  repeat case_match; try done.
  all: pose proof (draws_same (Z.to_nat size) (high - low) g1 g2 Hs) as Hd;
    simplify_eq/=; try done.
  all: repeat match goal with
       | H : np.draws _ _ _ = _ |- _ => rewrite H in *
       end; simpl in *; by subst.
Qed.

Lemma init_same (a : Attack.attack) (ds : dataset) (g1 g2 : rng) :
  (reads_numpy a = true -> same_state g1 g2) ->
  fst <$> Attack.init a ds g1 = fst <$> Attack.init a ds g2.
Proof.
  intros Hs. destruct a; try (apply init_reads_no_generator; done).
  specialize (Hs eq_refl). simpl.
  pose proof (randint_same 0 num_classes (Py.len ds) g1 g2 Hs) as H.
  destruct (np.random_randint 0 num_classes (Py.len ds) g1) as [[o1 ?]|],
    (np.random_randint 0 num_classes (Py.len ds) g2) as [[o2 ?]|];
    simpl in *; by simplify_eq.
Qed.

Lemma init_kind (a : Attack.attack) (ds : dataset) (g g' : rng)
  (w : Attack.wrapper) :
  Attack.init a ds g = Ok (w, g') -> reads_torch a = false ->
  forall ds' nc pm, w <> Attack.MinSumAttackDataset ds' nc pm.
Proof.
  destruct a; simpl; intros H Hk; try done;
    repeat match goal with
      | H : (?m ≫= _) = Ok _ |- _ => destruct m as [[]|] eqn:?; simpl in H
      | H : (?m ≫= _) = Ok _ |- _ => destruct m eqn:?; simpl in H
      end; try discriminate; by inversion H.
Qed.

(** The labels a wrapper other than Min-Sum reads are the same from any
    two generator states. *)
Lemma read_labels_ignore (w : Attack.wrapper) (idxs : list Z) (g1 g2 : rng) :
  (forall ds nc pm, w <> Attack.MinSumAttackDataset ds nc pm) ->
  fst <$> read_labels w idxs g1 = fst <$> read_labels w idxs g2.
Proof.
  intros Hw. revert g1 g2. induction idxs as [|idx idxs IH]; intros g1 g2;
    [done|].
  cbn [read_labels].
  destruct (reads_ignore_generator w idx g1 g2 Hw) as [Hfst _].
  destruct (reads_ignore_generator w idx g1 g1 Hw) as [_ Hs1].
  destruct (reads_ignore_generator w idx g2 g2 Hw) as [_ Hs2].
  destruct (Attack.getitem w idx g1) as [[[d1 l1] g1']|],
    (Attack.getitem w idx g2) as [[[d2 l2] g2']|]; cbn in *; try done;
    [|by simplify_eq].
  simplify_eq. specialize (IH g1 g2).
  destruct (read_labels w idxs g1) as [[ls1 ?]|],
    (read_labels w idxs g2) as [[ls2 ?]|]; cbn in *; by simplify_eq.
Qed.

Lemma multinomial1_same (ws : list Q) (g1 g2 : rng) :
  same_state g1 g2 ->
  match torch.multinomial1 ws g1, torch.multinomial1 ws g2 with
  | Ok (j1, g1'), Ok (j2, g2') => j1 = j2 /\ same_state g1' g2'
  | Raise e1, Raise e2 => e1 = e2
  | _, _ => False
  end.
Proof.
  intros Hs. unfold torch.multinomial1.
  destruct (existsb _ ws); [done|]. destruct (Qlt_le_dec 0 (torch.sum ws)); [|done].
  destruct (next_raw_same g1 g2 Hs) as [Hr Hs'].
  destruct (next_raw g1) as [r1 g1'], (next_raw g2) as [r2 g2'].
  simpl in *. by subst.
Qed.

(** The labels any wrapper reads are the same from two generator states
    that hold the same entropy. *)
Lemma read_labels_same (w : Attack.wrapper) (idxs : list Z) (g1 g2 : rng) :
  same_state g1 g2 ->
  fst <$> read_labels w idxs g1 = fst <$> read_labels w idxs g2.
Proof.
  destruct w; try (intros _; by apply read_labels_ignore).
  revert g1 g2. induction idxs as [|idx idxs IH]; intros g1 g2 Hs; [done|].
  cbn [read_labels Attack.getitem].
  destruct (Py.getitem ds idx) as [[d l0]|]; cbn; [|done].
  destruct (Py.getitem prob_map l0) as [row|]; cbn; [|done].
  pose proof (multinomial1_same row g1 g2 Hs) as Hm.
  destruct (torch.multinomial1 row g1) as [[j1 g1']|],
    (torch.multinomial1 row g2) as [[j2 g2']|]; cbn; try done;
    [|by subst].
  destruct Hm as [-> Hs']. specialize (IH g1' g2' Hs').
  destruct (read_labels _ idxs g1') as [[ls1 ?]|],
    (read_labels _ idxs g2') as [[ls2 ?]|]; cbn in *; by simplify_eq.
Qed.

Lemma run_alt (a : Attack.attack) (ds : dataset) (g_np g_torch : rng)
  (idxs : list Z) :
  run a ds g_np g_torch idxs
  = (fst <$> Attack.init a ds g_np) ≫= fun w =>
      fst <$> read_labels w idxs g_torch.
Proof.
  unfold run. destruct (Attack.init a ds g_np) as [[w ?]|]; cbn; [|done].
  by destruct (read_labels w idxs g_torch) as [[? ?]|].
Qed.

Lemma seeded_same (c1 c2 : nat -> N) :
  (forall n, c1 n = c2 n) -> same_state (seeded c1) (seeded c2).
Proof. by split. Qed.

(** C5. A run seeds the numpy and torch generators, constructs the
    wrapper and reads labels at a sequence of indices.  Two runs over the
    same source with the same wrapper arguments return the same labels at
    every index as soon as their seeds agree on the generators the
    wrapper draws from: numpy's for the Alternating constructor, torch's
    for the reads of Min-Sum, none for the six others.  In particular two
    runs with the same seeds agree.  The length of a wrapper is the
    length of its source. *)
Theorem attack_determinism_and_length (a : Attack.attack) (ds : dataset)
  (np1 np2 torch1 torch2 : nat -> N) :
  (reads_numpy a = true -> forall n, np1 n = np2 n) ->
  (reads_torch a = true -> forall n, torch1 n = torch2 n) ->
  (forall idxs,
     run a ds (seeded np1) (seeded torch1) idxs
     = run a ds (seeded np2) (seeded torch2) idxs) /\
  (forall w g, Attack.init a ds (seeded np1) = Ok (w, g) ->
     Attack.len w = Py.len ds).
Proof.
  intros Hnp Htorch. split; [|intros w g; apply init_len].
  intros idxs. rewrite !run_alt.
  rewrite (init_same a ds (seeded np1) (seeded np2))
    by (intros Ha; by apply seeded_same, Hnp).
  destruct (Attack.init a ds (seeded np2)) as [[w g]|] eqn:Hinit; cbn; [|done].
  destruct (reads_torch a) eqn:Hk.
  - by apply read_labels_same, seeded_same, Htorch.
  - apply read_labels_ignore. eapply init_kind; eassumption.
Qed.

(** An Alternating run on one numpy seed and two different torch seeds,
    and a Min-Sum run on one torch seed and two different numpy seeds. *)
Lemma attack_determinism_and_length_witness :
  ((forall idxs,
      run (Attack.Alternating 3) (balanced 3 4) (seeded odd_tape)
        (seeded zero_tape) idxs
      = run (Attack.Alternating 3) (balanced 3 4) (seeded odd_tape)
          (seeded odd_tape) idxs) /\
   (forall w g,
      Attack.init (Attack.Alternating 3) (balanced 3 4) (seeded odd_tape)
      = Ok (w, g) -> Attack.len w = Py.len (balanced 3 4))) /\
  ((forall idxs,
      run (Attack.MinSum 3) (balanced 3 4) (seeded zero_tape)
        (seeded odd_tape) idxs
      = run (Attack.MinSum 3) (balanced 3 4) (seeded odd_tape)
          (seeded odd_tape) idxs) /\
   (forall w g,
      Attack.init (Attack.MinSum 3) (balanced 3 4) (seeded zero_tape)
      = Ok (w, g) -> Attack.len w = Py.len (balanced 3 4))).
Proof.
  split.
  - apply (attack_determinism_and_length (Attack.Alternating 3)
             (balanced 3 4) odd_tape odd_tape zero_tape odd_tape);
      [reflexivity | discriminate].
  - apply (attack_determinism_and_length (Attack.MinSum 3)
             (balanced 3 4) zero_tape odd_tape odd_tape odd_tape);
      [discriminate | reflexivity].
Defined.

(** Reading a wrapper whose reads are a function of the sample. *)
Lemma read_samples_map (w : Attack.wrapper) (f : sample -> sample)
  (ds : dataset) (g : rng) :
  (forall k s, ds !! k = Some s ->
     Attack.getitem w (Z.of_nat k) g = Ok (f s, g)) ->
  forall b a, (a + b <= length ds)%nat ->
    read_samples w (Z.of_nat <$> seq a b) g
    = Ok (f <$> take b (drop a ds), g).
Proof.
  intros Hread. induction b as [|b IH]; intros a Hab; [done|].
  destruct (lookup_lt_is_Some_2 ds a ltac:(lia)) as [s Hs].
  cbn [seq fmap list_fmap read_samples].
  rewrite (Hread a s Hs). cbn [mbind result_bind].
  change (list_fmap nat Z Z.of_nat (seq (S a) b))
    with (Z.of_nat <$> seq (S a) b).
  rewrite IH by lia. cbn [mbind result_bind].
  rewrite (drop_S _ _ _ Hs). cbn. do 3 f_equal.
Qed.

Lemma read_through_map (w : Attack.wrapper) (f : sample -> sample)
  (ds : dataset) (g : rng) :
  Attack.source w = ds ->
  (forall k s, ds !! k = Some s ->
     Attack.getitem w (Z.of_nat k) g = Ok (f s, g)) ->
  read_through w g = Ok (f <$> ds, g).
Proof.
  intros Hsrc Hread. unfold read_through, Attack.len, Py.range.
  rewrite Hsrc. unfold Py.len. rewrite Nat2Z.id.
  rewrite (read_samples_map w f ds g Hread (length ds) 0) by lia.
  by rewrite drop_0, firstn_all.
Qed.

(** X1. Label-Flip is its own inverse: reading a Label-Flip wrapper
    from end to end and wrapping what was read in Label-Flip again, with
    the same class count, reads back the original source. *)
Theorem label_flip_twice (ds : dataset) (nc : Z) (g : rng) :
  exists flipped,
    read_through (Attack.LabelFlippingDataset ds nc) g = Ok (flipped, g) /\
    read_through (Attack.LabelFlippingDataset flipped nc) g = Ok (ds, g).
Proof.
  set (flip := fun s : sample => (s.1, nc - s.2 - 1)).
  assert (Hread : forall ds' k s, ds' !! k = Some s ->
            Attack.getitem (Attack.LabelFlippingDataset ds' nc) (Z.of_nat k) g
            = Ok (flip s, g)).
  { intros ds' k [d l] Hs. cbn.
    rewrite (getitem_lookup ds' (Z.of_nat k) (d, l)) by (rewrite ?Nat2Z.id; done || lia).
    done. }
  exists (flip <$> ds). split.
  - apply read_through_map; [done|apply Hread].
  - rewrite (read_through_map _ flip (flip <$> ds)); [|done|apply Hread].
    f_equal. f_equal. rewrite <- list_fmap_compose.
    rewrite <- (list_fmap_id ds) at 2. apply list_fmap_ext.
    intros _ [d l] _. unfold flip. simpl. f_equal. lia.
Qed.

(** X8. When [target_output] differs from [target_class], the stream
    read from a Targeted wrapper has as many samples as the source, none
    of them labelled [target_class]; every sample keeps its data, and its
    label too unless that was [target_class]. *)
Theorem targeted_stream (ds : dataset) (nc tc to : Z) (g : rng) :
  to <> tc ->
  exists out,
    read_through (Attack.TargetedAttackDataset ds nc tc to) g = Ok (out, g) /\
    length out = length ds /\
    Forall (fun s => s.2 <> tc) out /\
    Forall2 (fun s s' => s'.1 = s.1 /\ (s.2 <> tc -> s'.2 = s.2)) ds out.
Proof.
  intros Hne.
  set (f := fun s : sample => if s.2 =? tc then (s.1, to) else s).
  exists (f <$> ds). split; [|split; [|split]].
  - apply read_through_map; [done|]. intros k [d l] Hs. cbn.
    rewrite (getitem_lookup ds (Z.of_nat k) (d, l)) by (rewrite ?Nat2Z.id; done || lia).
    cbn. unfold f. simpl. by destruct (l =? tc).
  - by rewrite length_fmap.
  - apply Forall_fmap, Forall_forall. intros [d l] _. unfold f. simpl.
    destruct (Z.eqb_spec l tc); simpl; done.
  - apply Forall2_fmap_r, Forall_Forall2_diag, Forall_forall.
    intros [d l] _. unfold f. simpl.
    destruct (Z.eqb_spec l tc); simpl; [|done]. split; [done|]. by intros [].
Qed.


(** ** Min-Max *)

Lemma confusion_map_lookup (nc label : Z) :
  0 <= label < nc ->
  Py.getitem (Attack.confusion_map_of nc) label = Ok ((label + 1) mod nc).
Proof.
  intros H. apply getitem_lookup; [lia|].
  unfold Attack.confusion_map_of. rewrite list_lookup_fmap, range_lookup by lia.
  simpl. by rewrite Z2Nat.id by lia.
Qed.

Lemma successor_mod (nc label : Z) :
  0 <= label < nc ->
  (label + 1) mod nc = if label + 1 =? nc then 0 else label + 1.
Proof.
  intros H. destruct (Z.eqb_spec (label + 1) nc) as [->|Hne].
  - apply Z.mod_same. lia.
  - apply Z.mod_small. lia.
Qed.

Lemma min_max_read_spec (ds : dataset) (nc idx : Z) (g : rng)
  (data : torch.tensor) (label : Z) :
  Py.getitem ds idx = Ok (data, label) -> 0 <= label < nc ->
  Attack.getitem (Attack.MinMaxAttackDataset ds nc (Attack.confusion_map_of nc))
    idx g = Ok ((data, (label + 1) mod nc), g) /\
  0 <= (label + 1) mod nc < nc /\
  (2 <= nc -> (label + 1) mod nc <> label).
Proof.
  intros Hs Hl. cbn. rewrite Hs. cbn. rewrite confusion_map_lookup by done.
  split; [done|]. rewrite successor_mod by done.
  destruct (Z.eqb_spec (label + 1) nc); lia.
Qed.

(** X2. Min-Max relabels a sample of class [label] in
    [[0, num_classes)] to [(label + 1) mod num_classes]: a class in range
    and, with two classes or more, never the true one. *)
Theorem min_max_read (ds : dataset) (nc idx : Z) (g : rng)
  (data : torch.tensor) (label : Z) :
  Py.getitem ds idx = Ok (data, label) -> 0 <= label < nc ->
  Attack.getitem (Attack.MinMaxAttackDataset ds nc (Attack.confusion_map_of nc))
    idx g = Ok ((data, (label + 1) mod nc), g) /\
  0 <= (label + 1) mod nc < nc /\
  (2 <= nc -> (label + 1) mod nc <> label).
Proof.
  cbv zeta. intros.
  eapply min_max_read_spec; eassumption.
Qed.

(** X3. The confusion map of Min-Max is a rearrangement of the
    classes: every class is the image of exactly one class. *)
Theorem confusion_map_permutes (nc : Z) :
  Attack.confusion_map_of nc ≡ₚ Py.range nc.
Proof.
  apply NoDup_Permutation.
  - unfold Attack.confusion_map_of.
    apply NoDup_fmap_2_strong; [|apply NoDup_range].
    intros x y Hx Hy. apply elem_of_range in Hx, Hy.
    rewrite !successor_mod by done.
    destruct (Z.eqb_spec (x + 1) nc), (Z.eqb_spec (y + 1) nc); lia.
  - apply NoDup_range.
  - intros x. rewrite elem_of_range. unfold Attack.confusion_map_of.
    rewrite list_elem_of_fmap. split.
    + intros (i & -> & Hi). apply elem_of_range in Hi.
      apply Z.mod_pos_bound. lia.
    + intros Hx. exists (if x =? 0 then nc - 1 else x - 1).
      destruct (Z.eqb_spec x 0) as [->|Hne].
      * split; [|apply elem_of_range; lia].
        replace (nc - 1 + 1) with nc by lia. symmetry. apply Z.mod_same. lia.
      * split; [|apply elem_of_range; lia].
        replace (x - 1 + 1) with x by lia. symmetry. apply Z.mod_small. lia.
Qed.

(** X4. A source label at or above [num_classes] (or below
    [- num_classes]) makes the Min-Max and the Min-Sum wrapper raise
    [IndexError] on the read: both look the label up in a table of
    [num_classes] rows. *)
Theorem label_beyond_classes (ds : dataset) (nc idx : Z) (g g0 g1 g2 : rng)
  (data : torch.tensor) (label : Z) (w1 w2 : Attack.wrapper) :
  0 <= nc ->
  Attack.init (Attack.MinMax nc) ds g0 = Ok (w1, g1) ->
  Attack.init (Attack.MinSum nc) ds g0 = Ok (w2, g2) ->
  Py.getitem ds idx = Ok (data, label) ->
  nc <= label \/ label < - nc ->
  Attack.getitem w1 idx g = Raise IndexError /\
  Attack.getitem w2 idx g = Raise IndexError.
Proof.
  intros Hnc H1 H2 Hs Hbad. cbn in H1. injection H1 as <- <-.
  cbn [Attack.init] in H2. unfold Attack.prob_map_of in H2.
  destruct (Z.ltb_spec nc 0); [lia|]. cbn in H2. injection H2 as <- <-.
  cbn [Attack.getitem]. rewrite Hs. cbn [mbind result_bind].
  rewrite !getitem_out_of_range; [done| |].
  - unfold Py.len. rewrite length_fmap, range_length. lia.
  - unfold Py.len, Attack.confusion_map_of.
    rewrite length_fmap, range_length. lia.
Qed.

(** ** Min-Sum *)

Lemma weight_pos (nc i j : Z) : (0 < Attack.weight nc i j)%Q.
Proof.
  unfold Attack.weight. destruct (i =? j); [done|].
  destruct (Z.ltb_spec 0 (Attack.distance nc i j)) as [Hd|Hd]; [|done].
  destruct (Attack.distance nc i j) as [|p|p]; try lia. done.
Qed.

Lemma prob_row_spec (nc i : Z) :
  0 < nc ->
  length (Attack.prob_row nc i) = Z.to_nat nc /\
  Forall (fun p => 0 < p)%Q (Attack.prob_row nc i) /\
  (torch.sum (Attack.prob_row nc i) == 1)%Q.
Proof.
  intros Hnc. unfold Attack.prob_row.
  set (row := Attack.weight nc i <$> Py.range nc).
  assert (Hpos : Forall (fun w => 0 < w)%Q row).
  { apply Forall_fmap, Forall_forall. intros j _. apply weight_pos. }
  assert (Hne : row <> []).
  { unfold row. pose proof (range_length nc) as Hr.
    destruct (Py.range nc); [simpl in Hr; lia|done]. }
  pose proof (total_pos row Hpos Hne) as Ht.
  change (torch.sum row) with (torch.sum row) in Ht.
  split; [unfold row; by rewrite !length_fmap, range_length|]. split.
  - apply Forall_fmap. eapply Forall_impl; [exact Hpos|].
    intros w Hw. simpl. apply Qlt_shift_div_l; [done|]. by rewrite Qmult_0_l.
  - change (torch.sum ((fun w => w / torch.sum row) <$> row))%Q
      with (torch.sum ((fun w => w / torch.sum row) <$> row))%Q.
    assert (Hnz : ~ (torch.sum row == 0)%Q).
    { intros E. change (torch.sum row) with (torch.sum row) in E.
      rewrite E in Ht. by apply Qlt_irrefl in Ht. }
    rewrite total_scaled by done. by field.
Qed.

Lemma min_sum_rows_are_distributions_spec (nc : Z) :
  0 < nc ->
  exists pm,
    Attack.prob_map_of nc = Ok pm /\
    Py.len pm = nc /\
    Forall (fun row => Py.len row = nc /\
                       Forall (fun p => 0 < p)%Q row /\
                       (torch.sum row == 1)%Q) pm.
Proof.
  intros Hnc. unfold Attack.prob_map_of.
  destruct (Z.ltb_spec nc 0); [lia|]. eexists. split; [done|]. split.
  - unfold Py.len. rewrite length_fmap, range_length. lia.
  - apply Forall_fmap, Forall_forall. intros i _. simpl.
    destruct (prob_row_spec nc i Hnc) as (Hl & Hp & Hs).
    split; [unfold Py.len; lia|]. done.
Qed.

(** X5. For a positive class count the table of Min-Sum is built, has
    one row per class, and each row has [num_classes] entries, all
    strictly positive: every class, the true one included, can be drawn
    in place of any label. *)
Theorem min_sum_rows_positive (nc : Z) :
  0 < nc ->
  exists pm,
    Attack.prob_map_of nc = Ok pm /\
    Py.len pm = nc /\
    Forall (fun row => Py.len row = nc /\ Forall (fun p => 0 < p)%Q row) pm.
Proof.
  intros Hnc.
  destruct (min_sum_rows_are_distributions_spec nc Hnc)
    as (pm & Hpm & Hlen & Hrows).
  exists pm. split; [done|]. split; [done|].
  eapply Forall_impl; [exact Hrows|]. intros row (H1 & H2 & _). done.
Qed.

Lemma pick_bounds (ws : list Q) (u : Q) (j0 : Z) :
  (0 <= u)%Q -> (u < torch.sum ws)%Q ->
  j0 <= torch.pick ws u j0 < j0 + Py.len ws.
Proof.
  revert u j0. induction ws as [|w ws IH]; intros u j0 Hu0 Hu.
  - simpl in Hu. exfalso. apply (Qlt_irrefl 0). by eapply Qle_lt_trans.
  - cbn [torch.pick]. unfold Py.len in *. cbn [length].
    destruct (Qlt_le_dec u w) as [Hlt|Hge]; [lia|].
    destruct (IH (u - w)%Q (j0 + 1)) as [H1 H2].
    + lra.
    + simpl in Hu. lra.
    + lia.
Qed.

Lemma multinomial1_spec (ws : list Q) (g : rng) :
  Forall (fun p => 0 < p)%Q ws -> ws <> [] ->
  exists j g', torch.multinomial1 ws g = Ok (j, g') /\ 0 <= j < Py.len ws.
Proof.
  intros Hpos Hne. unfold torch.multinomial1.
  destruct (existsb _ ws) eqn:Hex.
  { apply existsb_exists in Hex as (w & Hin & Hbad).
    rewrite Forall_forall in Hpos. apply list_elem_of_In, Hpos in Hin.
    destruct (Qlt_le_dec w 0) as [Hneg|]; [|done].
    exfalso. apply (Qlt_irrefl 0). by eapply Qlt_trans. }
  pose proof (total_pos ws Hpos Hne) as Ht.
  change (torch.sum ws) with (torch.sum ws) in Ht.
  destruct (Qlt_le_dec 0 (torch.sum ws)) as [_|Hle].
  2:{ exfalso. apply (Qlt_irrefl 0). by eapply Qlt_le_trans. }
  pose proof (random_unit g) as [Hu0 Hu1]. unfold random.random in Hu0, Hu1.
  destruct (next_raw g) as [r g']. simpl in Hu0, Hu1.
  eexists _, g'. split; [done|].
  pose proof (pick_bounds ws ((Z.of_N (r mod 2 ^ 53) # 2 ^ 53) * torch.sum ws)%Q 0)
    as Hp.
  apply Hp.
  - by apply Qmult_le_0_compat; [|apply Qlt_le_weak].
  - rewrite <- (Qmult_1_l (torch.sum ws)) at 2. by apply Qmult_lt_compat_r.
Qed.

Lemma min_sum_read_in_range_spec (ds : dataset) (nc idx : Z) (g : rng)
  (pm : list (list Q)) (data : torch.tensor) (label : Z) :
  Attack.prob_map_of nc = Ok pm ->
  Py.getitem ds idx = Ok (data, label) -> 0 <= label < nc ->
  exists label' g',
    Attack.getitem (Attack.MinSumAttackDataset ds nc pm) idx g
    = Ok ((data, label'), g') /\
    0 <= label' < nc.
Proof.
  intros Hpm Hs Hl.
  destruct (min_sum_rows_are_distributions_spec nc ltac:(lia)) as (pm' & Hpm' & Hlen & Hrows).
  assert (pm' = pm) as -> by congruence.
  destruct (getitem_in_range pm label ltac:(lia)) as (row & Hrow & Hget).
  rewrite Forall_lookup in Hrows. destruct (Hrows _ _ Hrow) as (Hrl & Hpos & _).
  destruct (multinomial1_spec row g Hpos) as (j & g' & Hm & Hj).
  { intros ->. unfold Py.len in Hrl. simpl in Hrl. lia. }
  exists j, g'. cbn. rewrite Hs. cbn. rewrite Hget. cbn. rewrite Hm. cbn.
  split; [done|lia].
Qed.

(** X6. Whatever the state of the generator, a Min-Sum read of a
    sample whose label is in range succeeds and returns the sample's data
    with a label in [[0, num_classes)]. *)
Theorem min_sum_read_in_range (ds : dataset) (nc idx : Z) (g : rng)
  (pm : list (list Q)) (data : torch.tensor) (label : Z) :
  Attack.prob_map_of nc = Ok pm ->
  Py.getitem ds idx = Ok (data, label) -> 0 <= label < nc ->
  exists label' g',
    Attack.getitem (Attack.MinSumAttackDataset ds nc pm) idx g
    = Ok ((data, label'), g') /\
    0 <= label' < nc.
Proof.
  cbv zeta. intros.
  eapply min_sum_read_in_range_spec; eassumption.
Qed.


(** ** Alternating *)

Lemma draws_spec (n : nat) (high : Z) (g : rng) :
  0 < high ->
  length (np.draws n high g).1 = n /\
  Forall (fun d => 0 <= d < high) (np.draws n high g).1.
Proof.
  intros Hh. revert g. induction n as [|n IH]; intros g; [by split|].
  cbn [np.draws]. destruct (next_raw g) as [r g']. specialize (IH g').
  destruct (np.draws n high g') as [rest g'']. simpl in *.
  destruct IH as [Hl Hf]. split; [lia|]. constructor; [|done].
  by apply Z.mod_pos_bound.
Qed.

Lemma init_alternating (nc : Z) (ds : dataset) (g g' : rng)
  (w : Attack.wrapper) :
  Attack.init (Attack.Alternating nc) ds g = Ok (w, g') ->
  exists off,
    w = Attack.AlternatingAttackDataset ds nc off /\
    length off = length ds /\
    (ds <> [] -> 0 < nc /\ Forall (fun d => 0 <= d < nc) off).
Proof.
  cbn. unfold np.random_randint. pose proof (len_nonneg ds) as Hlen.
  destruct (Z.ltb_spec (Py.len ds) 0); [lia|].
  destruct (Z.eqb_spec (Py.len ds) 0) as [H0|H0].
  - cbn. intros [= <- <-]. exists []. split; [done|].
    destruct ds; [|unfold Py.len in H0; simpl in H0; lia]. by split.
  - destruct (Z.ltb_spec 0 (- 2 ^ 63)); [lia|].
    destruct (Z.ltb_spec (2 ^ 63 - 1) (nc - 1)); [done|].
    destruct (Z.ltb_spec (nc - 1) 0); [done|]. cbn [orb].
    assert (Hhigh : 0 < nc - 0) by (clear - H3; lia).
    pose proof (draws_spec (Z.to_nat (Py.len ds)) (nc - 0) g Hhigh) as [Hl Hf].
    destruct (np.draws _ _ g) as [dsn g1]. simpl in Hl, Hf. cbn.
    intros [= <- <-]. eexists. split; [done|]. split.
    + rewrite length_fmap, Hl. unfold Py.len. lia.
    + intros _. split; [lia|]. apply Forall_fmap.
      eapply Forall_impl; [exact Hf|]. intros d Hd. simpl in *. lia.
Qed.

Lemma getitem_same_length {A B} (l1 : list A) (l2 : list B) (i : Z) (x : A) :
  length l1 = length l2 -> Py.getitem l1 i = Ok x ->
  exists y, Py.getitem l2 i = Ok y.
Proof.
  intros Hlen. unfold Py.getitem, Py.len. rewrite <- Hlen.
  destruct (Py.position _ i) as [p|]; [|done]. cbn.
  destruct (l1 !! p) eqn:E1; [|done]. intros _.
  destruct (lookup_lt_is_Some_2 l2 p) as [y Hy].
  { rewrite <- Hlen. by eapply lookup_lt_Some. }
  rewrite Hy. eauto.
Qed.

Lemma alternating_read_spec (nc : Z) (ds : dataset) (g g' gt : rng)
  (w : Attack.wrapper) (idx : Z) (data : torch.tensor) (label : Z) :
  Attack.init (Attack.Alternating nc) ds g = Ok (w, g') ->
  Py.getitem ds idx = Ok (data, label) ->
  exists label',
    Attack.getitem w idx gt = Ok ((data, label'), gt) /\
    (idx mod 2 <> 0 -> label' = label) /\
    (idx mod 2 = 0 -> 0 <= label' < nc).
Proof.
  intros Hinit Hs.
  destruct (init_alternating nc ds g g' w Hinit) as (off & -> & Hlen & Hoff).
  assert (Hne : ds <> []).
  { intros ->. by rewrite getitem_out_of_range in Hs by (unfold Py.len; simpl; lia). }
  destruct (Hoff Hne) as [Hnc Hf].
  destruct (getitem_same_length ds off idx _ (eq_sym Hlen) Hs) as (o & Ho).
  pose proof (getitem_elem _ _ _ Ho) as Hin.
  rewrite Forall_forall in Hf. specialize (Hf o Hin).
  cbn. rewrite Hs. cbn. destruct (Z.eqb_spec (idx mod 2) 0) as [He|He].
  - rewrite Ho. cbn. eexists. split; [done|]. split; [done|]. intros _.
    unfold np.mod_. destruct (Z.eqb_spec nc 0); [lia|].
    by apply Z.mod_pos_bound.
  - eexists. split; [done|]. split; [done|]. done.
Qed.

(** X7. A read of a constructed Alternating wrapper succeeds wherever
    the source can be read, leaves the generator alone and returns the
    data unchanged; at an odd index the label is the source's, at an even
    index it is some class of [[0, num_classes)]. *)
Theorem alternating_read (nc : Z) (ds : dataset) (g g' gt : rng)
  (w : Attack.wrapper) (idx : Z) (data : torch.tensor) (label : Z) :
  Attack.init (Attack.Alternating nc) ds g = Ok (w, g') ->
  Py.getitem ds idx = Ok (data, label) ->
  exists label',
    Attack.getitem w idx gt = Ok ((data, label'), gt) /\
    (idx mod 2 <> 0 -> label' = label) /\
    (idx mod 2 = 0 -> 0 <= label' < nc).
Proof.
  cbv zeta. intros.
  eapply alternating_read_spec; eassumption.
Qed.

(** ** Gradient inversion *)

Lemma fill_slice_length {A} (l : list A) (s e : Z) (v : A) :
  length (Py.fill_slice l s e v) = length l.
Proof.
  unfold Py.fill_slice, Py.clip. pose proof (len_nonneg l) as Hl.
  unfold Py.len in *.
  rewrite !length_app, length_take, length_replicate, length_drop.
  destruct (Z.ltb_spec s 0), (Z.ltb_spec e 0); lia.
Qed.

Lemma fill_slice_lookup {A} (l : list A) (s e : Z) (v : A) (k : nat) :
  0 <= s <= e -> e <= Py.len l -> (k < length l)%nat ->
  Py.fill_slice l s e v !! k
  = if (s <=? Z.of_nat k) && (Z.of_nat k <? e) then Some v else l !! k.
Proof.
  intros Hs He Hk. unfold Py.fill_slice, Py.clip. unfold Py.len in *.
  destruct (Z.ltb_spec s 0); [lia|]. destruct (Z.ltb_spec e 0); [lia|].
  rewrite (Z.min_l s), (Z.min_l e), (Z.max_r s e) by lia.
  destruct (Z.leb_spec s (Z.of_nat k)); simpl.
  - rewrite lookup_app_r by (rewrite length_take; lia).
    rewrite length_take.
    destruct (Z.ltb_spec (Z.of_nat k) e).
    + rewrite lookup_app_l by (rewrite length_replicate; lia).
      apply lookup_replicate_2. lia.
    + rewrite lookup_app_r by (rewrite length_replicate; lia).
      rewrite length_replicate, lookup_drop. f_equal. lia.
  - rewrite lookup_app_l by (rewrite length_take; lia).
    apply lookup_take_lt. lia.
Qed.

Lemma quarter_map_formula_spec (n : Z) :
  0 <= n ->
  exists qm,
    Attack.quarter_map_of n = Ok qm /\
    Py.len qm = n /\
    forall k, 0 <= k < n ->
      qm !! Z.to_nat k
      = Some (if k <? n / 4 then 0
              else if k <? 2 * (n / 4) then 1
              else if k <? 3 * (n / 4) then 2 else 3).
Proof.
  intros Hn. unfold Attack.quarter_map_of. rewrite zeros_nonneg by done.
  cbn [mbind result_bind]. eexists. split; [done|].
  set (q := n / 4).
  assert (Hq : 0 <= q /\ 4 * q <= n).
  { unfold q. split; [apply Z.div_pos; lia|apply Z.mul_div_le; lia]. }
  change (Py.range 4) with [0; 1; 2; 3]. cbn [foldl].
  change (0 <? 3) with true. change (1 <? 3) with true.
  change (2 <? 3) with true. change (3 <? 3) with false. cbv iota.
  replace (0 * q) with 0 by lia. replace ((0 + 1) * q) with q by lia.
  replace (1 * q) with q by lia. replace ((1 + 1) * q) with (2 * q) by lia.
  replace ((2 + 1) * q) with (3 * q) by lia.
  set (z := replicate (Z.to_nat n) 0).
  assert (Hz : length z = Z.to_nat n) by apply length_replicate.
  split.
  - unfold Py.len. rewrite !fill_slice_length, Hz. lia.
  - intros k Hk.
    rewrite fill_slice_lookup;
      [|lia|unfold Py.len; rewrite !fill_slice_length; lia
       |rewrite !fill_slice_length; lia].
    rewrite fill_slice_lookup;
      [|lia|unfold Py.len; rewrite !fill_slice_length; lia
       |rewrite !fill_slice_length; lia].
    rewrite fill_slice_lookup;
      [|lia|unfold Py.len; rewrite !fill_slice_length; lia
       |rewrite !fill_slice_length; lia].
    rewrite fill_slice_lookup; [|lia|unfold Py.len; lia|lia].
    rewrite !Z2Nat.id by lia.
    unfold z. rewrite lookup_replicate_2 by lia.
    destruct (Z.leb_spec (3 * q) k), (Z.ltb_spec k n),
      (Z.leb_spec (2 * q) k), (Z.ltb_spec k (3 * q)),
      (Z.leb_spec q k), (Z.ltb_spec k (2 * q)),
      (Z.leb_spec 0 k), (Z.ltb_spec k q); simpl; try lia; done.
Qed.

(** X9. The quarter map of Gradient-Inversion over [n] samples has
    length [n] and sends index [k] to quarter 0, 1 or 2 when [k] is in
    the first, second or third block of [n // 4] indices, and to quarter
    3 otherwise. *)
Theorem quarter_map_formula (n : Z) :
  0 <= n ->
  exists qm,
    Attack.quarter_map_of n = Ok qm /\
    Py.len qm = n /\
    forall k, 0 <= k < n ->
      qm !! Z.to_nat k
      = Some (if k <? n / 4 then 0
              else if k <? 2 * (n / 4) then 1
              else if k <? 3 * (n / 4) then 2 else 3).
Proof.
  cbv zeta. intros.
  eapply quarter_map_formula_spec; eassumption.
Qed.

Lemma strategy_in_range (nc q label : Z) :
  0 < nc -> 0 <= label < nc -> 0 <= q <= 3 ->
  exists strategy label',
    Py.getitem (Attack.strategies nc) q = Ok strategy /\
    strategy label = Ok label' /\ 0 <= label' < nc /\
    label' = (if q =? 0 then (label + 1) mod nc
              else if q =? 1 then (label + nc / 2) mod nc
              else if q =? 2 then label else nc - label - 1).
Proof.
  intros Hnc Hl Hq.
  assert (q = 0 \/ q = 1 \/ q = 2 \/ q = 3) as [-> | [-> | [-> | ->]]] by lia;
    eexists _, _; (split; [reflexivity|]); cbn; unfold Py.mod_;
    try (destruct (Z.eqb_spec nc 0); [lia|]);
    (split; [reflexivity|]); (split; [|reflexivity]);
    try apply Z.mod_pos_bound; lia.
Qed.

(** X10. Over a source with labels in range, Gradient-Inversion
    returns at index [idx] the label shifted by one in the first quarter,
    shifted by [num_classes // 2] in the second, unchanged in the third
    and inverted in the rest; the result is always a class of
    [[0, num_classes)]. *)
Theorem gradient_inversion_read (ds : dataset) (nc idx : Z) (g gt : rng)
  (data : torch.tensor) (label : Z) :
  let q := Py.len ds / 4 in
  let rule := if idx <? q then (label + 1) mod nc
              else if idx <? 2 * q then (label + nc / 2) mod nc
              else if idx <? 3 * q then label
              else nc - label - 1 in
  0 < nc -> 0 <= label < nc -> 0 <= idx ->
  Py.getitem ds idx = Ok (data, label) ->
  exists w,
    Attack.init (Attack.GradientInversion nc) ds g = Ok (w, g) /\
    Attack.getitem w idx gt = Ok ((data, rule), gt) /\
    0 <= rule < nc.
Proof.
  cbv zeta. intros Hnc Hl Hidx Hs.
  destruct (quarter_map_formula_spec (Py.len ds) (len_nonneg ds)) as (qm & Hqm & Hlen & Hlook).
  assert (Hin : 0 <= idx < Py.len ds).
  { destruct (Z.lt_ge_cases idx (Py.len ds)); [lia|].
    rewrite getitem_out_of_range in Hs by lia. done. }
  exists (Attack.GradientInversionAttackDataset ds nc qm).
  split; [cbn [Attack.init]; by rewrite Hqm|].
  cbn [Attack.getitem]. rewrite Hs. cbn [mbind result_bind].
  rewrite (getitem_lookup qm idx _ Hidx (Hlook idx Hin)).
  cbn [mbind result_bind].
  set (q := Py.len ds / 4) in *.
  set (quarter := if idx <? q then 0 else if idx <? 2 * q then 1
                  else if idx <? 3 * q then 2 else 3).
  destruct (strategy_in_range nc quarter label Hnc Hl)
    as (strategy & label' & -> & Hst & Hr & ->).
  { unfold quarter.
    destruct (idx <? q), (idx <? 2 * q), (idx <? 3 * q); lia. }
  cbn [mbind result_bind]. rewrite Hst. cbn [mbind result_bind].
  unfold quarter in *.
  destruct (idx <? q); [done|]. destruct (idx <? 2 * q); [done|].
  destruct (idx <? 3 * q); done.
Qed.

(** ** Backdoor on images of another size *)

(** X15. The trigger is a fixed 1x28x28 tensor: reading a Backdoor
    wrapper over an image whose first channel has a number of rows other
    than 28 or 1 (a 32x32 image, say) raises [RuntimeError]. *)
Theorem backdoor_shape_mismatch (ds : dataset) (nc tl idx : Z) (g : rng)
  (ch : list (list Q)) (rest : torch.tensor) (label : Z) :
  Py.getitem ds idx = Ok (ch :: rest, label) ->
  length ch <> 28%nat -> length ch <> 1%nat ->
  Attack.getitem (Attack.BackdoorDataset ds nc tl Attack.create_trigger) idx g
  = Raise RuntimeError.
Proof.
  intros Hs H28 H1. cbn [Attack.getitem]. rewrite Hs. cbn [mbind result_bind].
  unfold Attack.create_trigger.
  match goal with |- context [ [?p] ] => set (plane := p) end.
  assert (Hplane : length plane = 28%nat).
  { unfold plane. by rewrite length_fmap, range_length. }
  assert (Hch : forall f : list Q -> list Q -> result (list Q),
            torch.broadcast f ch plane = Raise RuntimeError).
  { intros f. unfold torch.broadcast. rewrite Hplane.
    destruct (Nat.eqb_spec (length ch) 28); [done|].
    destruct ch as [|r1 [|r2 ch']]; simpl in H1; try done;
      destruct plane as [|p1 [|p2 plane']]; simpl in Hplane; try done; lia. }
  unfold torch.add. unfold torch.broadcast at 1.
  destruct rest as [|ch2 rest]; cbn [length Nat.eqb zip zip_with mapM fst snd].
  - rewrite Hch. done.
  - rewrite Hch. done.
Qed.


Lemma labels_in_range_elem (ds : dataset) (nc : Z) (s : sample) :
  labels_in_range ds nc = true -> s ∈ ds -> 0 <= s.2 < nc.
Proof.
  unfold labels_in_range. rewrite forallb_forall. intros H Hs.
  apply list_elem_of_In, H in Hs. lia.
Qed.

(** X11. Label-Flip, Adaptive, Min-Max, Min-Sum, Alternating and
    Gradient-Inversion keep labels in range: over a source whose labels
    lie in [[0, num_classes)], every successful read, at any subscript and
    in any generator state, returns a label of [[0, num_classes)]. *)
Theorem labels_stay_in_range (a : Attack.attack) (nc : Z) (ds : dataset)
  (g g' gt gt' : rng) (w : Attack.wrapper) (idx : Z)
  (data : torch.tensor) (label : Z) :
  keeps_labels a nc -> 0 < nc -> labels_in_range ds nc = true ->
  Attack.init a ds g = Ok (w, g') ->
  Attack.getitem w idx gt = Ok ((data, label), gt') ->
  0 <= label < nc.
Proof.
  intros Ha Hnc Hlab Hinit Hget.
  assert (Hsrc : forall d l0, Py.getitem ds idx = Ok (d, l0) -> 0 <= l0 < nc).
  { intros d l0 Hs. apply getitem_elem in Hs.
    apply (labels_in_range_elem ds nc (d, l0) Hlab Hs). }
  destruct a as [n|n tl| |n|n|n|n tc to|n]; simpl in Ha; try done; subst.
  - cbn in Hinit. injection Hinit as <- <-. cbn in Hget.
    destruct (Py.getitem ds idx) as [[d l0]|] eqn:Hs; [|done].
    cbn in Hget. injection Hget as <- <- <-. specialize (Hsrc d l0 eq_refl). lia.
  - cbn in Hinit. injection Hinit as <- <-. cbn in Hget.
    destruct (Py.getitem ds idx) as [[d l0]|] eqn:Hs; [|done].
    cbn in Hget. injection Hget as <- <- <-. by apply (Hsrc d).
  - cbn in Hinit. injection Hinit as <- <-.
    cbn [Attack.getitem] in Hget.
    destruct (Py.getitem ds idx) as [[d l0]|] eqn:Hs; [|done].
    destruct (min_max_read_spec ds nc idx gt d l0 Hs (Hsrc d l0 eq_refl)) as (E & Hr & _).
    cbn [Attack.getitem] in E. rewrite Hs in E. rewrite E in Hget.
    by injection Hget as <- <- <-.
  - cbn [Attack.init] in Hinit.
    destruct (Attack.prob_map_of nc) as [pm|] eqn:Hpm; [|done].
    cbn in Hinit. injection Hinit as <- <-.
    destruct (Py.getitem ds idx) as [[d l0]|] eqn:Hs.
    2:{ cbn [Attack.getitem] in Hget. by rewrite Hs in Hget. }
    destruct (min_sum_read_in_range_spec ds nc idx gt pm d l0 Hpm Hs
                (Hsrc d l0 eq_refl)) as (l' & g1 & E & Hr).
    rewrite E in Hget. by injection Hget as <- <- <-.
  - destruct (Py.getitem ds idx) as [[d l0]|] eqn:Hs.
    2:{ destruct (init_alternating nc ds g g' w Hinit) as (off & -> & _).
        cbn [Attack.getitem] in Hget. by rewrite Hs in Hget. }
    destruct (alternating_read_spec nc ds g g' gt w idx d l0 Hinit Hs)
      as (l' & E & Hodd & Heven).
    rewrite E in Hget. injection Hget as <- <- <-.
    destruct (Z.eq_dec (idx mod 2) 0) as [He|He]; [by apply Heven|].
    rewrite (Hodd He). by apply (Hsrc d).
  - destruct (quarter_map_formula_spec (Py.len ds) (len_nonneg ds))
      as (qm & Hqm & Hlen & Hlook).
    cbn [Attack.init] in Hinit. rewrite Hqm in Hinit. cbn in Hinit.
    injection Hinit as <- <-. cbn [Attack.getitem] in Hget.
    destruct (Py.getitem ds idx) as [[d l0]|] eqn:Hs; [|done].
    cbn [mbind result_bind] in Hget.
    destruct (Py.getitem qm idx) as [q|] eqn:Hq; [|done].
    cbn [mbind result_bind] in Hget.
    assert (Hq03 : 0 <= q <= 3).
    { apply getitem_elem, list_elem_of_lookup in Hq as [k Hk].
      pose proof (lookup_lt_Some _ _ _ Hk) as Hlt.
      specialize (Hlook (Z.of_nat k)). rewrite Nat2Z.id in Hlook.
      rewrite Hlook in Hk by (unfold Py.len in *; lia).
      injection Hk as <-.
      destruct (_ <? _); [lia|]. destruct (_ <? _); [lia|].
      destruct (_ <? _); lia. }
    destruct (strategy_in_range nc q l0 Hnc (Hsrc d l0 eq_refl) Hq03)
      as (strategy & l' & E1 & E2 & Hr & _).
    rewrite E1 in Hget. cbn [mbind result_bind] in Hget.
    rewrite E2 in Hget. cbn [mbind result_bind] in Hget.
    by injection Hget as <- <- <-.
Qed.


(** ** More on the partitioner *)

(** X16. Whatever the numbers of classes and clients, the label-skew
    policy gives class [c] exactly one preferred client, client
    [c mod NUM_CLIENTS]: the block width it computes is always one. *)
Theorem preferred_client_is_single (cfg : Config.t) (nc c : Z) :
  0 < Config.NUM_CLIENTS cfg ->
  preferred_for cfg nc c = Ok [c mod Config.NUM_CLIENTS cfg].
Proof.
  apply preferred_for_single.
Qed.

(** X17. When there are more clients than samples the IID policy
    leaves every client but the last with an empty share and gives the
    last one all the samples. *)
Theorem iid_more_clients_than_samples (cfg : Config.t) (ds : dataset)
  (nc : Z) (g : rng) :
  Py.len ds < Config.NUM_CLIENTS cfg ->
  exists last g',
    Partition.split_dataset_iid cfg ds nc g
    = Ok (replicate (Z.to_nat (Config.NUM_CLIENTS cfg - 1)) [] ++ [last], g') /\
    last ≡ₚ Py.range (Py.len ds).
Proof.
  intros Hfew. pose proof (len_nonneg ds) as Hn.
  set (N := Config.NUM_CLIENTS cfg) in *.
  assert (HN : 0 < N) by lia.
  destruct (iid_run cfg ds nc g HN) as (indices & g' & _ & Hperm & ->).
  fold N. rewrite Z.div_small by lia.
  exists indices, g'. split; [|exact Hperm].
  do 2 f_equal. unfold Py.range.
  replace (Z.to_nat N) with (Z.to_nat (N - 1) + 1)%nat by lia.
  rewrite seq_app, !fmap_app. f_equal.
  - apply list_eq. intros k.
    rewrite !list_lookup_fmap.
    destruct (decide (k < Z.to_nat (N - 1))%nat) as [Hk|Hk].
    + rewrite lookup_seq_lt, lookup_replicate_2 by lia. simpl. f_equal.
      unfold Partition.iid_share. fold N.
      destruct (Z.ltb_spec (Z.of_nat k) (N - 1)); [|lia].
      rewrite slice_in_range by lia.
      replace (Z.to_nat (Z.of_nat k * 0 + 0 - Z.of_nat k * 0)) with 0%nat by lia.
      done.
    + rewrite lookup_seq_ge by lia. simpl.
      symmetry. apply lookup_replicate_None. lia.
  - cbn. f_equal. unfold Partition.iid_share. fold N.
    destruct (Z.ltb_spec (Z.of_nat (Z.to_nat (N - 1))) (N - 1)); [lia|].
    rewrite Z.mul_0_r. pose proof (len_nonneg indices) as Hi.
    rewrite slice_in_range by lia.
    rewrite drop_0, take_ge; [done|]. unfold Py.len. lia.
Qed.

Lemma NoDup_concat_lookup {A} (ll : list (list A)) (m : nat) (l : list A) :
  NoDup (concat ll) -> ll !! m = Some l -> NoDup l.
Proof.
  revert m. induction ll as [|l0 ll IH]; intros [|m] Hnd Hl; simplify_eq/=;
    apply NoDup_app in Hnd as (H1 & _ & H2); [done|by eapply IH].
Qed.

(** Grouping by class puts into the list of class [c] as many indices
    as the source has samples of class [c]. *)
Lemma group_sizes (ds : dataset) (nc : Z) (ci : list (list Z)) (c : nat)
  (l : list Z) :
  labels_in_range ds nc = true ->
  Partition.group_by_class ds nc = Ok ci -> ci !! c = Some l ->
  Py.len l = class_size ds (Z.of_nat c).
Proof.
  intros Hlab Hrun Hl.
  destruct (group_by_class_spec ds nc Hlab) as (ci' & Hrun' & Hlen & Hperm & Hcls).
  rewrite Hrun in Hrun'. injection Hrun' as <-.
  unfold class_size, Py.len. f_equal. apply Permutation_length.
  apply NoDup_Permutation.
  - apply (NoDup_concat_lookup ci c); [|done]. rewrite Hperm.
    apply NoDup_range.
  - apply NoDup_indices_with.
  - intros x. rewrite elem_of_indices_with. split.
    + intros Hx. by apply (Hcls c l x).
    + intros (H0 & data & Hd).
      assert (Hin : x ∈ concat ci).
      { rewrite Hperm. apply elem_of_range. split; [done|].
        assert (Z.to_nat x < length ds)%nat as Hlt
          by (by eapply lookup_lt_Some).
        unfold Py.len. lia. }
      apply elem_of_concat in Hin as (c' & l' & Hl' & Hx').
      destruct (Hcls c' l' x Hl' Hx') as (_ & data' & Hd').
      rewrite Hd in Hd'. injection Hd' as _ Hc. apply Nat2Z.inj in Hc.
      subst c'. rewrite Hl in Hl'. by injection Hl' as <-.
Qed.

Lemma class_size_le (ds : dataset) (c : Z) : class_size ds c <= Py.len ds.
Proof.
  unfold class_size, Root.indices_with, Py.len.
  rewrite length_fmap. apply inj_le.
  etrans; [apply length_filter|]. unfold Py.enumerate.
  by rewrite length_imap.
Qed.

Lemma well_scaled_draw_lookup (cfg : Config.t) (ds : dataset) (nc : Z)
  (gnp : rng) (c : nat) (row : list float64.t) :
  well_scaled_draw cfg ds nc gnp = true ->
  (np.dirichlet_rows (Z.to_nat nc) (Z.to_nat (Config.NUM_CLIENTS cfg)) gnp).1
    !! c = Some row ->
  well_scaled row (class_size ds (Z.of_nat c)) = true.
Proof.
  unfold well_scaled_draw. rewrite forallb_forall. intros H Hrow.
  apply (H (Z.of_nat c, row)), list_elem_of_In, elem_of_enumerate.
  split; [lia|]. by rewrite Nat2Z.id.
Qed.

(** The Dirichlet policy on a draw that is well scaled for every class
    hands out every index exactly once. *)
Lemma dirichlet_run (cfg : Config.t) (ds : dataset) (nc : Z) (alpha : option Q)
  (g gnp : rng) :
  0 < Config.NUM_CLIENTS cfg -> 0 <= nc ->
  labels_in_range ds nc = true ->
  (0 < default (Config.DIRICHLET_ALPHA cfg) alpha)%Q ->
  Py.len ds < 2 ^ 63 ->
  well_scaled_draw cfg ds nc gnp = true ->
  exists parts g' gnp',
    Partition.split_dataset_dirichlet cfg ds nc alpha g gnp
    = Ok (parts, g', gnp') /\
    Py.len parts = Config.NUM_CLIENTS cfg /\
    concat parts ≡ₚ Py.range (Py.len ds).
Proof.
  intros HN Hnc Hlab Halpha Hsmall Hws.
  unfold Partition.split_dataset_dirichlet.
  set (N := Config.NUM_CLIENTS cfg) in *.
  destruct (group_by_class_spec ds nc Hlab) as (ci0 & Hgroup & Hlen0 & Hperm0 & _).
  rewrite Hgroup.
  cbn. pose proof (shuffle_each_spec ci0 g) as Hsh.
  destruct (Partition.shuffle_each ci0 g) as [ci g1]. simpl in Hsh.
  assert (Hci : length ci = Z.to_nat nc) by by rewrite (Forall2_length _ _ _ Hsh).
  unfold np.repeat. destruct (Z.ltb_spec N 0); [lia|]. cbn.
  rewrite (random_dirichlet_spec _ N nc gnp Halpha Hnc).
  pose proof (dirichlet_rows_spec (Z.to_nat nc) (Z.to_nat N) gnp) as [Hrl Hrows].
  pose proof (well_scaled_draw_lookup cfg ds nc gnp) as Hwsl. fold N in Hwsl.
  specialize (fun c row => Hwsl c row Hws).
  destruct (np.dirichlet_rows _ _ gnp) as [rows gnp']. simpl in Hrl, Hrows, Hwsl.
  cbn.
  destruct (mapM_spec
    (fun (c : Z) (row : list Z) =>
       length row = Z.to_nat N /\ Forall (fun n => 0 <= n) row /\
       exists l, ci !! Z.to_nat c = Some l /\ np.sum row = Py.len l /\
                 Py.len l < 2 ^ 63)
    (fun c =>
       indices_c ← Py.getitem ci c;
       proportions_c ← Py.getitem rows c;
       Partition.class_counts proportions_c (Py.len indices_c))
    (Py.range nc)) as (counts & -> & Hcounts).
  { intros c Hc. apply elem_of_range in Hc.
    destruct (getitem_in_range ci c) as (l & Hl & ->); [unfold Py.len; lia|].
    destruct (getitem_in_range rows c) as (row & Hrow & ->); [unfold Py.len; lia|].
    cbn. rewrite Forall_lookup in Hrows.
    destruct (Forall2_lookup_l _ _ _ _ _ Hsh Hl) as (l0 & Hl0 & Hp).
    assert (Hsize : Py.len l = class_size ds c).
    { unfold Py.len. rewrite (Permutation_length Hp).
      rewrite <- (Z2Nat.id c) by lia.
      by apply (group_sizes ds nc ci0). }
    pose proof (class_size_le ds c) as Hle.
    destruct (class_counts_spec row (Py.len l))
      as (cnt & -> & Hcl & Hcn & Hcs); [lia| |].
    { rewrite Hsize. rewrite <- (Z2Nat.id c) at 1 by lia. by apply Hwsl. }
    exists cnt. split; [done|]. split; [|split; [done|]].
    - rewrite Hcl. by apply (Hrows _ _ Hrow).
    - exists l. split; [done|]. split; [done|]. lia. }
  cbn. rewrite zeros_nonneg by done. cbn.
  destruct (distribute_all cfg nc ci counts Hci) as (parts & ss & Hrun & Hl & Hp).
  - rewrite <- (Forall2_length _ _ _ Hcounts). apply range_length.
  - intros m row Hrow.
    destruct (Forall2_lookup_r _ _ _ _ _ Hcounts Hrow) as (c & Hc & HP).
    assert (Hm : (m < Z.to_nat nc)%nat).
    { rewrite <- range_length. by eapply lookup_lt_Some. }
    rewrite range_lookup in Hc by done. injection Hc as <-.
    by rewrite Nat2Z.id in HP.
  - fold N. lia.
  - fold N in Hrun. rewrite Hrun. cbn. exists parts, g1, gnp'.
    split; [done|]. split; [done|].
    by rewrite Hp, (Forall2_perm_concat _ _ Hsh).
Qed.

(** X18. When the floored shares of a class are not negative and fall
    short of the class size by at most one sample per client, the counts
    the Dirichlet policy derives from them are one per client, none
    negative, and add up exactly to the size of the class: the
    adjustment hands out every sample the floor left over. *)
Theorem dirichlet_counts_conserve (row : list float64.t) (size : Z) :
  size < 2 ^ 63 -> well_scaled row size = true ->
  exists counts,
    Partition.class_counts row size = Ok counts /\
    Py.len counts = Py.len row /\
    Forall (fun n => 0 <= n) counts /\
    np.sum counts = size.
Proof.
  intros Hsize Hws.
  destruct (class_counts_spec row size Hsize Hws)
    as (counts & Hrun & Hl & Hn & Hs).
  exists counts. split; [done|]. split; [|done]. unfold Py.len. lia.
Qed.

(** X24. For every source of fewer than 2^63 samples whose labels lie
    in [[0, num_classes)] and every positive number of clients, the IID
    and label-skew policies, and the Dirichlet policy on a draw of
    proportions that is well scaled for every class, return one share per
    client, and the shares cover the indices [[0, n)] exactly once:
    together they hold [n] indices, two different shares have no index
    in common, every index is in some share and none is repeated. *)
Theorem partition_covers_well_scaled (cfg : Config.t) (ds : dataset) (nc : Z)
  (policy : string) (g gnp : rng) :
  0 < Config.NUM_CLIENTS cfg -> 0 <= nc ->
  labels_in_range ds nc = true ->
  (0 < Config.DIRICHLET_ALPHA cfg)%Q ->
  Py.len ds < 2 ^ 63 ->
  policy ∈ policies ->
  (policy = "dirichlet"%string -> well_scaled_draw cfg ds nc gnp = true) ->
  exists parts g' gnp',
    Partition.split_dataset cfg ds nc (Some policy) g gnp
    = Ok (parts, g', gnp') /\
    Py.len parts = Config.NUM_CLIENTS cfg /\
    covers parts (Py.len ds) /\
    partitions parts (Py.len ds).
Proof.
  intros HN Hnc Hlab Halpha Hsmall Hpol Hws.
  assert (exists parts g' gnp',
    Partition.split_dataset cfg ds nc (Some policy) g gnp
    = Ok (parts, g', gnp') /\
    Py.len parts = Config.NUM_CLIENTS cfg /\
    covers parts (Py.len ds)) as (parts & g' & gnp' & Hrun & Hl & Hc).
  { unfold policies in Hpol. rewrite !elem_of_cons, elem_of_nil in Hpol.
    destruct Hpol as [->|[->|[->|[]]]].
    - apply split_dataset_cover; auto.
    - apply split_dataset_cover; auto.
    - unfold Partition.split_dataset, covers. cbn.
      apply dirichlet_run; auto. }
  exists parts, g', gnp'. split; [done|]. split; [done|]. split; [done|].
  apply covers_partitions; [apply len_nonneg|done].
Qed.

Lemma append_at_cases {A} (ci : list (list A)) (nc l : Z) (x : A) :
  length ci = Z.to_nat nc -> 0 <= nc ->
  (nc <= l \/ l < - nc -> Py.append_at ci l x = Raise IndexError) /\
  (~ (nc <= l \/ l < - nc) ->
   exists p, Py.append_at ci l x = Ok (alter (fun l0 => l0 ++ [x]) p ci)).
Proof.
  intros Hlen Hnc. unfold Py.append_at, Py.position, Py.len.
  rewrite Hlen, Z2Nat.id by done.
  destruct (Z.ltb_spec l 0).
  - destruct (Z.ltb_spec (l + nc) 0); cbn.
    + split; [done|lia].
    + destruct (Z.leb_spec nc (l + nc)); cbn; [lia|].
      split; [lia|]. eauto.
  - destruct (Z.ltb_spec l 0); [lia|]. cbn.
    destruct (Z.leb_spec nc l); cbn; [split; [done|lia]|].
    split; [lia|]. eauto.
Qed.

Lemma group_loop_raises (nc : Z) (xs : list (Z * sample))
  (ci : list (list Z)) :
  length ci = Z.to_nat nc -> 0 <= nc ->
  (exists idx d l, (idx, (d, l)) ∈ xs /\ (nc <= l \/ l < - nc)) ->
  Py.for_ xs
    (fun '(idx, (_, label)) class_indices =>
       Py.append_at class_indices label idx) ci
  = Raise IndexError.
Proof.
  intros Hlen Hnc. revert ci Hlen.
  induction xs as [|[idx [d l]] xs IH]; intros ci Hlen (i & d' & l' & Hin & Hbad).
  - by apply elem_of_nil in Hin.
  - cbn [Py.for_]. cbv beta iota.
    destruct (append_at_cases ci nc l idx Hlen Hnc) as [Hr Ho].
    destruct (decide (nc <= l \/ l < - nc)) as [Hl|Hl].
    + by rewrite (Hr Hl).
    + destruct (Ho Hl) as (p & ->). cbn [mbind result_bind].
      apply IH; [by rewrite length_alter|].
      apply elem_of_cons in Hin as [[= -> -> ->]|Hin]; [done|eauto 6].
Qed.

(** X19. One sample labelled at or above [num_classes] (or below
    [- num_classes]) makes the label-skew and the Dirichlet policy raise
    [IndexError] while grouping by class; the IID policy does not look at
    labels and still partitions. *)
Theorem partition_label_out_of_range (cfg : Config.t) (ds : dataset)
  (nc : Z) (alpha : option Q) (g gnp : rng) (data : torch.tensor) (label : Z) :
  0 <= nc -> (data, label) ∈ ds -> nc <= label \/ label < - nc ->
  Partition.split_dataset_non_iid cfg ds nc g = Raise IndexError /\
  Partition.split_dataset_dirichlet cfg ds nc alpha g gnp = Raise IndexError /\
  (0 < Config.NUM_CLIENTS cfg ->
   is_Ok (Partition.split_dataset_iid cfg ds nc g)).
Proof.
  intros Hnc Hin Hbad.
  assert (Hg : Partition.group_by_class ds nc = Raise IndexError).
  { unfold Partition.group_by_class. apply (group_loop_raises nc); [|done|].
    - apply length_replicate.
    - apply list_elem_of_lookup in Hin as [k Hk].
      exists (Z.of_nat k), data, label. split; [|done].
      apply elem_of_enumerate. rewrite Nat2Z.id. split; [lia|done]. }
  split; [|split].
  - unfold Partition.split_dataset_non_iid. by rewrite Hg.
  - unfold Partition.split_dataset_dirichlet. by rewrite Hg.
  - intros HN. destruct (iid_cover cfg ds nc g HN) as (parts & g' & -> & _).
    done.
Qed.

(** ** Instances *)

Lemma min_max_read_witness :
  Attack.getitem
    (Attack.MinMaxAttackDataset (balanced 3 4) 3 (Attack.confusion_map_of 3))
    2 (seeded zero_tape) = Ok ((half_grey, (2 + 1) mod 3), seeded zero_tape) /\
  0 <= (2 + 1) mod 3 < 3 /\
  (2 <= 3 -> (2 + 1) mod 3 <> 2).
Proof.
  apply (min_max_read (balanced 3 4) 3 2 (seeded zero_tape) half_grey 2);
    [reflexivity | lia].
Defined.

Lemma label_beyond_classes_witness :
  Attack.getitem
    (Attack.MinMaxAttackDataset (balanced 5 5) 3 (Attack.confusion_map_of 3))
    4 (seeded zero_tape) = Raise IndexError /\
  Attack.getitem
    (Attack.MinSumAttackDataset (balanced 5 5) 3
       (Attack.prob_row 3 <$> Py.range 3))
    4 (seeded zero_tape) = Raise IndexError.
Proof.
  apply (label_beyond_classes (balanced 5 5) 3 4 (seeded zero_tape)
           (seeded zero_tape) (seeded zero_tape) (seeded zero_tape)
           half_grey 4);
    [lia | reflexivity | reflexivity | reflexivity | lia].
Defined.

Lemma min_sum_rows_positive_witness :
  exists pm,
    Attack.prob_map_of 3 = Ok pm /\
    Py.len pm = 3 /\
    Forall (fun row => Py.len row = 3 /\ Forall (fun p => 0 < p)%Q row) pm.
Proof. apply (min_sum_rows_positive 3). lia. Defined.

Lemma min_sum_read_in_range_witness :
  exists label' g',
    Attack.getitem
      (Attack.MinSumAttackDataset (balanced 3 4) 3
         (Attack.prob_row 3 <$> Py.range 3))
      2 (seeded odd_tape) = Ok ((half_grey, label'), g') /\
    0 <= label' < 3.
Proof.
  apply (min_sum_read_in_range (balanced 3 4) 3 2 (seeded odd_tape)
           (Attack.prob_row 3 <$> Py.range 3) half_grey 2);
    [reflexivity | reflexivity | lia].
Defined.

Lemma alternating_read_witness :
  exists label',
    Attack.getitem
      (Attack.AlternatingAttackDataset (balanced 3 4) 3 [0; 1; 2; 0])
      2 (seeded zero_tape) = Ok ((half_grey, label'), seeded zero_tape) /\
    (2 mod 2 <> 0 -> label' = 2) /\
    (2 mod 2 = 0 -> 0 <= label' < 3).
Proof.
  apply (alternating_read 3 (balanced 3 4) (seeded odd_tape)
           {| tape := odd_tape; cursor := 4 |} (seeded zero_tape)
           (Attack.AlternatingAttackDataset (balanced 3 4) 3 [0; 1; 2; 0])
           2 half_grey 2); reflexivity.
Defined.

Lemma targeted_stream_witness :
  exists out,
    read_through (Attack.TargetedAttackDataset (balanced 3 4) 3 0 1)
      (seeded zero_tape) = Ok (out, seeded zero_tape) /\
    length out = length (balanced 3 4) /\
    Forall (fun s => s.2 <> 0) out /\
    Forall2 (fun s s' => s'.1 = s.1 /\ (s.2 <> 0 -> s'.2 = s.2))
      (balanced 3 4) out.
Proof.
  apply (targeted_stream (balanced 3 4) 3 0 1 (seeded zero_tape)). lia.
Defined.

Lemma quarter_map_formula_witness :
  exists qm,
    Attack.quarter_map_of 10 = Ok qm /\
    Py.len qm = 10 /\
    forall k, 0 <= k < 10 ->
      qm !! Z.to_nat k
      = Some (if k <? 10 / 4 then 0
              else if k <? 2 * (10 / 4) then 1
              else if k <? 3 * (10 / 4) then 2 else 3).
Proof. apply (quarter_map_formula 10). lia. Defined.

Lemma gradient_inversion_read_witness :
  exists w,
    Attack.init (Attack.GradientInversion 3) (balanced 3 8) (seeded zero_tape)
    = Ok (w, seeded zero_tape) /\
    Attack.getitem w 2 (seeded zero_tape)
    = Ok ((half_grey, (2 + 3 / 2) mod 3), seeded zero_tape) /\
    0 <= (2 + 3 / 2) mod 3 < 3.
Proof.
  apply (gradient_inversion_read (balanced 3 8) 3 2 (seeded zero_tape)
           (seeded zero_tape) half_grey 2); [lia | lia | lia | reflexivity].
Defined.

Lemma labels_stay_in_range_witness : 0 <= 0 < 3.
Proof.
  apply (labels_stay_in_range (Attack.MinMax 3) 3 (balanced 3 4)
           (seeded zero_tape) (seeded zero_tape) (seeded zero_tape)
           (seeded zero_tape)
           (Attack.MinMaxAttackDataset (balanced 3 4) 3 (Attack.confusion_map_of 3))
           2 half_grey 0);
    [reflexivity | lia | reflexivity | reflexivity | reflexivity].
Defined.

Lemma index_out_of_range_witness :
  Attack.getitem (Attack.LabelFlippingDataset (balanced 3 4) 3) 4
    (seeded zero_tape) = Raise IndexError.
Proof.
  apply (index_out_of_range (Attack.LabelFlippingDataset (balanced 3 4) 3) 4).
  left. vm_compute. discriminate.
Defined.

Lemma data_unchanged_witness :
  exists label0, Py.getitem (balanced 3 4) 2 = Ok (half_grey, label0).
Proof.
  apply (data_unchanged (Attack.LabelFlippingDataset (balanced 3 4) 3) 2
           (seeded zero_tape) (seeded zero_tape) half_grey 0);
    [discriminate | reflexivity].
Defined.

Lemma reads_repeatable_witness :
  seeded zero_tape = seeded zero_tape /\
  Attack.getitem (Attack.LabelFlippingDataset (balanced 3 4) 3) 2
    (seeded odd_tape) = Ok ((half_grey, 0), seeded odd_tape).
Proof.
  apply (reads_repeatable (Attack.LabelFlippingDataset (balanced 3 4) 3) 2
           (seeded zero_tape) (seeded odd_tape) (seeded zero_tape)
           (half_grey, 0)); [discriminate | reflexivity].
Defined.

Lemma backdoor_shape_mismatch_witness :
  Attack.getitem
    (Attack.BackdoorDataset large_image 10 0 Attack.create_trigger) 0
    (seeded zero_tape) = Raise RuntimeError.
Proof.
  apply (backdoor_shape_mismatch large_image 10 0 0 (seeded zero_tape)
           (replicate 32 (replicate 32 (1 # 2)%Q)) [] 0);
    [reflexivity | discriminate | discriminate].
Defined.

Lemma preferred_client_is_single_witness :
  preferred_for (with_clients 4 1) 10 7 = Ok [7 mod 4].
Proof. apply (preferred_client_is_single (with_clients 4 1) 10 7). reflexivity. Defined.

Lemma iid_more_clients_than_samples_witness :
  exists last g',
    Partition.split_dataset_iid (with_clients 4 1) (balanced 2 3) 2
      (seeded odd_tape)
    = Ok (replicate (Z.to_nat (4 - 1)) [] ++ [last], g') /\
    last ≡ₚ Py.range 3.
Proof.
  apply (iid_more_clients_than_samples (with_clients 4 1) (balanced 2 3) 2
           (seeded odd_tape)). reflexivity.
Defined.

Lemma dirichlet_counts_conserve_witness :
  exists counts,
    Partition.class_counts (replicate 4 (float64.Fin (1 # 4))) 7 = Ok counts /\
    Py.len counts = Py.len (replicate 4 (float64.Fin (1 # 4))) /\
    Forall (fun n => 0 <= n) counts /\
    np.sum counts = 7.
Proof.
  apply (dirichlet_counts_conserve (replicate 4 (float64.Fin (1 # 4))) 7);
    [reflexivity | vm_compute; reflexivity].
Defined.

Lemma partition_covers_well_scaled_witness :
  exists parts g' gnp',
    Partition.split_dataset (with_alpha (1 # 2)) (balanced 2 10) 2
      (Some "dirichlet"%string) (seeded odd_tape) (seeded quarter_tape)
    = Ok (parts, g', gnp') /\
    Py.len parts = 4 /\
    covers parts 10 /\
    partitions parts 10.
Proof.
  apply (partition_covers_well_scaled (with_alpha (1 # 2)) (balanced 2 10) 2
           "dirichlet" (seeded odd_tape) (seeded quarter_tape));
    [reflexivity | discriminate | reflexivity | reflexivity | reflexivity
    | repeat constructor | intros _; vm_compute; reflexivity].
Defined.

Lemma partition_label_out_of_range_witness :
  Partition.split_dataset_non_iid (with_clients 4 1) (balanced 5 5) 3
    (seeded odd_tape) = Raise IndexError /\
  Partition.split_dataset_dirichlet (with_clients 4 1) (balanced 5 5) 3 None
    (seeded odd_tape) (seeded zero_tape) = Raise IndexError /\
  (0 < 4 -> is_Ok (Partition.split_dataset_iid (with_clients 4 1)
                     (balanced 5 5) 3 (seeded odd_tape))).
Proof.
  apply (partition_label_out_of_range (with_clients 4 1) (balanced 5 5) 3 None
           (seeded odd_tape) (seeded zero_tape) half_grey 4);
    [lia | vm_compute; repeat constructor | lia].
Defined.

Lemma root_fully_biased_witness :
  exists root g',
    Root.create_root_dataset (with_bias 1 3) (balanced 3 10) 3 (seeded odd_tape)
    = Ok (root, g') /\
    Py.len root = Z.min 3 (Py.len (Root.indices_with 1 (balanced 3 10))) /\
    NoDup root /\
    forall i, i ∈ root ->
      0 <= i /\ exists data, balanced 3 10 !! Z.to_nat i = Some (data, 1).
Proof.
  apply (root_fully_biased (with_bias 1 3) (balanced 3 10) 3 (seeded odd_tape));
    [reflexivity | vm_compute; discriminate].
Defined.


Lemma root_negative_size_witness :
  Root.create_root_dataset (with_bias (1 # 2) (-1)) (balanced 3 10) 3
    (seeded odd_tape) = Raise ValueError.
Proof.
  apply (root_negative_size (with_bias (1 # 2) (-1)) (balanced 3 10) 3
           (seeded odd_tape)). reflexivity.
Defined.

